(** * The round-based agent loop of [src/models/action.ts]

    A shallow embedding of [ActionImpl] (the finish tool built by
    [createReturnTool], [executeSingleRound], [handleHistoryImageMessages],
    [execute], [wrapToolInputSchema] and [unwrapToolCall]) together with
    the properties its specification states about it.

    Conventions of the embedding:
    - JavaScript values are trees ([JsValue]); numbers are the integers
      (those below [10^21] in magnitude, which are printed digit by
      digit), strings are sequences of one-unit characters.
    - Insertion-ordered [Map]s whose order is observed ([toolMap],
      [toolResults]) are association lists with the update-in-place
      behaviour of [Map.prototype.set]; the variable store of the
      execution context, whose order is never observed, is a [gmap].
    - Objects that are mutated through a reference (the tool definitions
      inside [LLMParameters]) live in an explicit store of definitions.
    - The collaborators that are not part of this file (the model
      transport, the tools, the lifecycle hooks, the browser proxy) are
      functions over an abstract external [World]. An invocation that
      a round leaves behind when its stream rejects stays in flight
      and lands when its promise settles. *)

From Stdlib Require Import ZArith Ascii.
From stdpp Require Import gmap strings list fin_maps pretty.

Open Scope string_scope.
Open Scope list_scope.

#[local] Set Warnings "-register-all".
#[local] Set Default Proof Using "Type".

(** ** JavaScript values *)

Inductive JsValue : Type :=
| VUndefined
| VNull
| VBool (b : bool)
| VNum (z : Z)
| VStr (s : string)
| VArr (items : list JsValue)
| VObj (fields : list (string * JsValue)).

(** What a [throw] carries: an [Error] instance with its message, or any
    other value. *)
Inductive Thrown : Type :=
| ThrowError (message : string)
| ThrowOther (v : JsValue).

(** The three ways a piece of asynchronous code can end: it returns, it
    throws, or it is still retrying when the observation budget is used up. *)
Inductive Outcome (A : Type) : Type :=
| Returned (a : A)
| Threw (e : Thrown)
| Diverged.
Arguments Returned {A} a.
Arguments Threw {A} e.
Arguments Diverged {A}.

(** Truthiness, as used by [if (x)], [x && y], [x ? a : b] and [!x]. *)
Definition truthy (v : JsValue) : bool :=
  match v with
  | VUndefined | VNull => false
  | VBool b => b
  | VNum z => negb (z =? 0)%Z
  | VStr s => negb (String.eqb s "")
  | VArr _ | VObj _ => true
  end.

Fixpoint assoc_get {A : Type} (k : string) (l : list (string * A)) : option A :=
  match l with
  | [] => None
  | (k', v) :: rest => if String.eqb k' k then Some v else assoc_get k rest
  end.

(** Property read [v.k] for the property names the program reads
    ([observation], [thinking], [userSidePrompt], [toolCall], [image],
    [text], [isSuccessful], [use_tool_result], [value]): none of them is
    a built-in property of a primitive or of an array. Reading from
    [undefined] or [null] is a [TypeError]. *)
Definition get_prop (v : JsValue) (k : string) : Thrown + JsValue :=
  match v with
  | VUndefined =>
      inl (ThrowError ("Cannot read properties of undefined (reading '" +:+ k +:+ "')"))
  | VNull =>
      inl (ThrowError ("Cannot read properties of null (reading '" +:+ k +:+ "')"))
  | VObj fields => inr (default VUndefined (assoc_get k fields))
  | _ => inr VUndefined
  end.

(** ** Insertion-ordered maps ([Map<string, V>]) *)

Module JsMap.
Section JsMap.
Context {V : Type}.

Definition t := list (string * V).

Definition empty : t := [].

Definition get (k : string) (m : t) : option V := assoc_get k m.

(** [Map.prototype.set]: an existing key keeps its position and gets
    the new value; a new key goes to the end. *)
Fixpoint set (k : string) (v : V) (m : t) : t :=
  match m with
  | [] => [(k, v)]
  | (k', v') :: rest =>
      if String.eqb k' k then (k, v) :: rest else (k', v') :: set k v rest
  end.

(** [Array.from(m.values())] *)
Definition values (m : t) : list V := map snd m.

Definition keys (m : t) : list string := map fst m.

End JsMap.
Arguments t V : clear implicits.
End JsMap.

(** [arr.pop()] on a fresh array: the last element, [undefined] when empty. *)
Definition array_pop {A : Type} (l : list A) : option A := last l.

(** ** Messages *)

Inductive Role : Type := system | assistant | user.

Definition Role_eqb (a b : Role) : bool :=
  match a, b with
  | system, system | assistant, assistant | user, user => true
  | _, _ => false
  end.

(** [content: string | unknown[]], both for a message and for a
    [tool_result] block. *)
Inductive Content (B : Type) : Type :=
| CStr (s : string)
| CArr (items : list B).
Arguments CStr {B} s.
Arguments CArr {B} items.

Inductive Block : Type :=
| BText (text : JsValue)
| BImage (source : JsValue)
| BToolUse (id name : string) (input : JsValue)
| BToolResult (tool_use_id : string) (content : Content Block) (is_error : bool).

Record Message : Type := mkMessage {
  role : Role;
  content : Content Block
}.

Definition is_image (c : Block) : bool :=
  match c with BImage _ => true | _ => false end.

Definition is_user (m : Message) : bool := Role_eqb (role m) user.

(** ** [handleHistoryImageMessages] *)

(** The function updates the messages and their [tool_result] items in
    place. Every message and every block of a history is an object of
    its own (all of them are built by object literals in [action.ts]),
    so an update in place is an update of the value at its position. *)

(** The update of [item.content] (lines 364-370): nothing for an empty
    array; otherwise the images are filtered out, and an array left
    empty becomes the single text block [ok]. *)
Definition strip_content (c : list Block) : list Block :=
  match c with
  | [] => c
  | _ :: _ =>
      match List.filter (fun x => negb (is_image x)) c with
      | [] => [BText (VStr "ok")]
      | y :: c' => y :: c'
      end
  end.

(** The callback of [message.content.map] (lines 361-373). *)
Definition strip_item (item : Block) : Block :=
  match item with
  | BToolResult id (CArr c) e => BToolResult id (CArr (strip_content c)) e
  | _ => item
  end.

(** The body of [if (Array.isArray(message.content))] (lines 359-374). *)
Definition strip_message (m : Message) : Message :=
  match content m with
  | CArr items => mkMessage (role m) (CArr (map strip_item items))
  | CStr _ => m
  end.

(** The backward loop [for (i = messages.length - 1; i >= 0; i--)], on
    the history listed newest first. *)
Fixpoint prune_backward (foundFirstUser : bool) (newest_first : list Message)
  : list Message :=
  match newest_first with
  | [] => []
  | m :: older =>
      if is_user m then
        if foundFirstUser then strip_message m :: prune_backward true older
        else m :: prune_backward true older
      else m :: prune_backward foundFirstUser older
  end.

Definition handleHistoryImageMessages (messages : list Message) : list Message :=
  rev (prune_backward false (rev messages)).

(** [countImages] (lines 384-396). *)
Definition countImages_item (item : Block) : nat :=
  match item with
  | BToolResult _ (CArr c) _ => length (List.filter is_image c)
  | _ => 0
  end.

Definition countImages (messages : list Message) : nat :=
  list_sum (map (fun msg =>
                   match content msg with
                   | CArr items => list_sum (map countImages_item items)
                   | CStr _ => 0
                   end) messages).

(** What the pass does to a message older than the newest user message. *)
Definition prune_earlier (m : Message) : Message :=
  if is_user m then strip_message m else m.

(** ** Built-ins of the host language *)

Definition dquote : string := String (ascii_of_nat 34) "".
Definition backslash : string := String (ascii_of_nat 92) "".

Definition hex_digit (n : nat) : string :=
  match String.get n "0123456789abcdef" with
  | Some c => String c ""
  | None => "0"
  end.

(** The escape of one character inside a JSON string literal. *)
Definition json_escape_char (c : ascii) : string :=
  let n := nat_of_ascii c in
  if Nat.eqb n 34 then backslash +:+ dquote
  else if Nat.eqb n 92 then backslash +:+ backslash
  else if Nat.eqb n 8 then backslash +:+ "b"
  else if Nat.eqb n 9 then backslash +:+ "t"
  else if Nat.eqb n 10 then backslash +:+ "n"
  else if Nat.eqb n 12 then backslash +:+ "f"
  else if Nat.eqb n 13 then backslash +:+ "r"
  else if Nat.ltb n 32 then
    backslash +:+ "u00" +:+ hex_digit (n / 16) +:+ hex_digit (n mod 16)
  else String c "".

Fixpoint json_escape (s : string) : string :=
  match s with
  | EmptyString => ""
  | String c rest => json_escape_char c +:+ json_escape rest
  end.

Definition json_quote (s : string) : string := dquote +:+ json_escape s +:+ dquote.

Fixpoint join_comma (l : list string) : string :=
  match l with
  | [] => ""
  | [x] => x
  | x :: rest => x +:+ "," +:+ join_comma rest
  end.

(** [JSON.stringify(v)] on a tree-shaped value: [undefined] has no
    serialization ([None]); inside an array it is written [null], inside
    an object its property is left out. Strings are taken as sequences
    of one-unit characters; a number is written with all its digits,
    as [JSON.stringify] does for the integers below [10^21] in
    magnitude. *)
Fixpoint JSON_stringify (v : JsValue) : option string :=
  match v with
  | VUndefined => None
  | VNull => Some "null"
  | VBool true => Some "true"
  | VBool false => Some "false"
  | VNum z => Some (pretty z)
  | VStr s => Some (json_quote s)
  | VArr items =>
      Some ("[" +:+ join_comma (map (fun x => default "null" (JSON_stringify x)) items) +:+ "]")
  | VObj fields =>
      Some ("{" +:+ join_comma
                    (omap (fun kv : string * JsValue =>
                             match JSON_stringify (snd kv) with
                             | Some s => Some (json_quote (fst kv) +:+ ":" +:+ s)
                             | None => None
                             end) fields) +:+ "}")
  end.

(** [JSON.parse(JSON.stringify(v))] on a value that has a serialization. *)
Definition is_undefined (v : JsValue) : bool :=
  match v with VUndefined => true | _ => false end.

Fixpoint json_clone (v : JsValue) : JsValue :=
  match v with
  | VUndefined => VUndefined
  | VArr items =>
      VArr (map (fun x => if is_undefined x then VNull else json_clone x) items)
  | VObj fields =>
      VObj (omap (fun kv : string * JsValue =>
                    if is_undefined (snd kv) then None
                    else Some (fst kv, json_clone (snd kv))) fields)
  | _ => v
  end.

Definition is_nullish (v : JsValue) : bool :=
  match v with VUndefined | VNull => true | _ => false end.

(** [String(v)], the conversion behind [v + ' [Image]']. *)
Fixpoint js_to_string (v : JsValue) : string :=
  match v with
  | VUndefined => "undefined"
  | VNull => "null"
  | VBool true => "true"
  | VBool false => "false"
  | VNum z => pretty z
  | VStr s => s
  | VArr items =>
      join_comma (map (fun x => if is_nullish x then "" else js_to_string x) items)
  | VObj _ => "[object Object]"
  end.

(** [s.slice(0, n)] for [0 <= n]. *)
Fixpoint slice0 (n : nat) (s : string) : string :=
  match n, s with
  | S n', String c rest => String c (slice0 n' rest)
  | _, _ => ""
  end.

(** The characters that [String.prototype.trim] strips, among the
    one-unit characters 0 to 255: the white space characters tab (9),
    vertical tab (11), form feed (12), space (32) and no-break space
    (160), and the line terminators line feed (10) and carriage return
    (13). The next line character (133) is not among them. *)
Definition is_whitespace (c : ascii) : bool :=
  let n := nat_of_ascii c in
  Nat.eqb n 32 || (Nat.leb 9 n && Nat.leb n 13) || Nat.eqb n 160.

(** [content.trim()] is non-empty exactly when some character is not
    stripped by [trim]. *)
Fixpoint has_non_whitespace (s : string) : bool :=
  match s with
  | EmptyString => false
  | String c rest => negb (is_whitespace c) || has_non_whitespace rest
  end.
(** ** Invocations, responses and tool definitions *)

(** [ToolCall]: [{ id, name, input }]. *)
Record ToolCall : Type := mkToolCall {
  tc_id : string;
  tc_name : string;
  tc_input : JsValue
}.

(** [LLMResponse], reduced to the fields the loop reads. *)
Record LLMResponse : Type := mkResponse {
  textContent : string;
  toolCalls : list ToolCall
}.

(** [ToolDefinition]: [{ name, description, input_schema }]. *)
Record ToolDefinition : Type := mkDefinition {
  def_name : string;
  def_description : string;
  def_input_schema : JsValue
}.

(** Tool definitions are objects reached through references: the store
    maps a reference to the current fields of its object. *)
Abbreviation DefStore := (list ToolDefinition).

(** [LLMParameters]: the model settings and the optional [tools] array,
    an array of references to definitions. *)
Record LLMParameters : Type := mkParams {
  llm_settings : JsValue;
  params_tools : option (list nat)
}.

(** ** The envelope adapter pair *)

Definition string_property (description : string) : JsValue :=
  VObj [("type", VStr "string"); ("description", VStr description)].

(** The object literal assigned by [wrapToolInputSchema] (lines 719-744). *)
Definition envelope_schema (inner : JsValue) : JsValue :=
  VObj
    [("type", VStr "object");
     ("properties",
      VObj
        [("observation",
          string_property
            ("Your observation of the previous steps. Should start with "
             +:+ dquote +:+ "In the previous step, I've ..." +:+ dquote +:+ "."));
         ("thinking", string_property "Your thinking draft.");
         ("userSidePrompt",
          string_property
            ("The user-side prompt, showing what you are doing. e.g. "
             +:+ dquote +:+ "Openning x.com." +:+ dquote +:+ " or "
             +:+ dquote +:+ "Writing the post." +:+ dquote));
         ("toolCall", inner)]);
     ("required",
      VArr [VStr "observation"; VStr "thinking"; VStr "userSidePrompt"; VStr "toolCall"])].

(** [wrapToolInputSchema(definition)]: assigns the envelope to the
    [input_schema] field of the object [definition] refers to and
    returns the same reference. *)
Definition wrapToolInputSchema (definition : nat) (store : DefStore) : nat * DefStore :=
  match store !! definition with
  | Some d =>
      (definition,
       <[definition := mkDefinition (def_name d) (def_description d)
                         (envelope_schema (def_input_schema d))]> store)
  | None => (definition, store)
  end.

(** The value-level part of the same function, for a definition held by value. *)
Definition wrap_definition (d : ToolDefinition) : ToolDefinition :=
  mkDefinition (def_name d) (def_description d) (envelope_schema (def_input_schema d)).

(** The result object of [unwrapToolCall]. *)
Record Unwrapped : Type := mkUnwrapped {
  u_observation : JsValue;
  u_thinking : JsValue;
  u_userSidePrompt : JsValue;
  u_toolCall : ToolCall
}.

(** A property read that may throw, chained. *)
Definition and_then {A B : Type} (r : Thrown + A) (k : A -> Thrown + B) : Thrown + B :=
  match r with
  | inl e => inl e
  | inr a => k a
  end.

(** [unwrapToolCall(toolCall)] (lines 748-760). *)
Definition unwrapToolCall (toolCall : ToolCall) : Thrown + Unwrapped :=
  and_then (get_prop (tc_input toolCall) "observation") (fun observation =>
  and_then (get_prop (tc_input toolCall) "thinking") (fun thinking =>
  and_then (get_prop (tc_input toolCall) "userSidePrompt") (fun userSidePrompt =>
  and_then (get_prop (tc_input toolCall) "toolCall") (fun inner =>
  inr (mkUnwrapped observation thinking userSidePrompt
         (mkToolCall (tc_id toolCall) (tc_name toolCall) inner)))))).

(** What a model that follows the wrapped schema sends: the envelope
    object around the true input. *)
Definition envelope_input (observation thinking userSidePrompt inner : JsValue) : JsValue :=
  VObj [("observation", observation); ("thinking", thinking);
        ("userSidePrompt", userSidePrompt); ("toolCall", inner)].

(** ** Copies of the parameters (lines 97-98) *)

(** [JSON.parse(JSON.stringify(params))]: every definition reachable
    from [params.tools] is copied into a new object. *)
Definition clone_definition (d : ToolDefinition) : ToolDefinition :=
  mkDefinition (def_name d) (def_description d) (json_clone (def_input_schema d)).

Definition deep_copy_params (params : LLMParameters) (store : DefStore)
  : LLMParameters * DefStore :=
  match params_tools params with
  | None => (mkParams (json_clone (llm_settings params)) None, store)
  | Some refs =>
      let copies := map clone_definition (omap (fun r => store !! r) refs) in
      (mkParams (json_clone (llm_settings params))
                (Some (seq (length store) (length copies))),
       store ++ copies)
  end.

(** [tools.map(this.wrapToolInputSchema)] *)
Fixpoint map_wrap (refs : list nat) (store : DefStore) : list nat * DefStore :=
  match refs with
  | [] => ([], store)
  | r :: rest =>
      let '(r', store1) := wrapToolInputSchema r store in
      let '(rest', store2) := map_wrap rest store1 in
      (r' :: rest', store2)
  end.

Definition make_params_copy (params : LLMParameters) (store : DefStore)
  : LLMParameters * DefStore :=
  let '(params_copy, store1) := deep_copy_params params store in
  match params_tools params_copy with
  | None => (params_copy, store1)
  | Some refs =>
      let '(refs', store2) := map_wrap refs store1 in
      (mkParams (llm_settings params_copy) (Some refs'), store2)
  end.

(** What a callee that is handed [params] can read through it. *)
Definition resolve_tools (params : LLMParameters) (store : DefStore)
  : option (list ToolDefinition) :=
  match params_tools params with
  | None => None
  | Some refs => Some (omap (fun r => store !! r) refs)
  end.

(** ** The result text of a tool invocation (lines 232-267) *)

(** [truncate] (lines 259-267); [s.length] on [undefined] throws. *)
Definition truncate (x : JsValue) : Thrown + JsValue :=
  match JSON_stringify x with
  | None => inl (ThrowError "Cannot read properties of undefined (reading 'length')")
  | Some s =>
      if Nat.ltb (String.length s) 1000 then inr x
      else inr (VStr (slice0 1000 s +:+ "...(truncated)"))
  end.

Definition stringified (v : JsValue) : JsValue :=
  match JSON_stringify v with
  | Some s => VStr s
  | None => VUndefined
  end.

(** [result && result.image] as a condition. *)
Definition result_has_image (result : JsValue) : bool :=
  truthy result &&
  match get_prop result "image" with
  | inr image => truthy image
  | inl _ => false
  end.

Definition result_prop (result : JsValue) (k : string) : JsValue :=
  match get_prop result k with
  | inr v => v
  | inl _ => VUndefined
  end.

(** [resultContent] (lines 233-248). *)
Definition resultContent (toolCallId : string) (result : JsValue) : Block :=
  if result_has_image result then
    if truthy (result_prop result "text") then
      BToolResult toolCallId
        (CArr [BImage (result_prop result "image"); BText (result_prop result "text")])
        false
    else
      BToolResult toolCallId (CArr [BImage (result_prop result "image")]) false
  else
    BToolResult toolCallId (CArr [BText (stringified result)]) false.

(** [resultContentText] (lines 249-253). *)
Definition resultContentText (result : JsValue) : JsValue :=
  if result_has_image result then
    if truthy (result_prop result "text") then
      VStr (js_to_string (result_prop result "text") +:+ " [Image]")
    else VStr "[Image]"
  else stringified result.

(** [errorMessage] and [errorResult] of the [catch] (lines 281-292). *)
Definition errorMessage (err : Thrown) : string :=
  match err with
  | ThrowError message => message
  | ThrowOther _ => "Unknown error occurred"
  end.

Definition errorResult (toolCallId : string) (err : Thrown) : Message :=
  mkMessage user
    (CArr [BToolResult toolCallId
             (CArr [BText (VStr ("Error: " +:+ errorMessage err))]) true]).
(** ** What the model transport delivers during one [generateStream] call *)

(** The handler calls of one stream, in the order of the protocol
    (section 5 of the specification: at most one invocation per round):
    the [onContent] chunks, at most one [onToolUse], at most one
    [onComplete]; then the call resolves, or rejects ([stream_error]).
    [awaits_handler] says whether the transport lets a rejection of the
    promise returned by [onToolUse] escape from [generateStream].

    [onToolUse] starts the invocation and returns at once; the round
    awaits the promise of the invocation only after the stream has
    resolved (lines 322-324). When the stream rejects, the round goes
    on to the next attempt without awaiting it (lines 315-319), and the
    invocation is abandoned: it goes on by itself and its effects land
    whenever its promise settles. What a call of [generateStream] shows
    of this is part of the attempt:
    - [in_flight]: when the stream rejects, whether the invocation it
      started has not settled yet;
    - [settled_early]: the abandoned invocations of earlier attempts
      that settle while the stream is awaited, in the order in which
      they settle, each by its position among those still in flight;
    - [settled_late]: those that settle afterwards, while the round
      awaits the invocation of this stream.
    An invocation is followed as one step, at the time its promise
    settles. *)
Record StreamAttempt : Type := mkAttempt {
  chunks : list string;
  invocation : option ToolCall;
  completion : option LLMResponse;
  stream_error : bool;
  awaits_handler : bool;
  in_flight : bool;
  settled_early : list nat;
  settled_late : list nat
}.

(** ** Observable steps of a run *)

Inductive RoundKind : Type := Regular | FinishOnly.

(** [RoundResult]: [{ response, hasToolUse, roundMessages }]. *)
Record RoundResult : Type := mkRound {
  response : option LLMResponse;
  hasToolUse : bool;
  roundMessages : list Message
}.

(** The steps of a run that the properties below speak about, in the
    order in which they happen:
    - [EvRound]: [execute] calls [executeSingleRound]; [roundCount] is
      the value of the counter, [offered] the names in [params.tools],
      [registry] the keys of the tool map;
    - [EvStream]: one call of [generateStream] and what it delivered;
    - [EvToolDone]: the log line [toolCall done] with the logged result;
    - [EvCached]: [this.toolResults.set(id, text)];
    - [EvCommit]: [messages.push(...roundMessages)] for a returned round;
    - [EvInstruction]: [messages.push] of an instruction to the model;
    - [EvFinalize]: the payload read from the variable store at the end. *)
Inductive Event : Type :=
| EvRound (kind : RoundKind) (roundCount : nat) (offered registry : list string)
| EvStream (attempt : StreamAttempt)
| EvToolDone (name : string) (logged : JsValue)
| EvCached (id : string) (text : JsValue)
| EvCommit (round : RoundResult)
| EvInstruction (text : string)
| EvFinalize (outputParams : JsValue).

Definition is_round (e : Event) : bool :=
  match e with EvRound _ _ _ _ => true | _ => false end.

Definition is_regular (e : Event) : bool :=
  match e with EvRound Regular _ _ _ => true | _ => false end.

Definition is_finish_only (e : Event) : bool :=
  match e with EvRound FinishOnly _ _ _ => true | _ => false end.

Definition is_commit (e : Event) : bool :=
  match e with EvCommit _ => true | _ => false end.

(** The steps that happen inside a call of [executeSingleRound]. *)
Definition inside_round (e : Event) : bool :=
  match e with
  | EvStream _ | EvToolDone _ _ | EvCached _ _ => true
  | _ => false
  end.

(** The round counter values announced by the regular rounds, in order. *)
Fixpoint regular_counts (tr : list Event) : list nat :=
  match tr with
  | [] => []
  | EvRound Regular n _ _ :: rest => n :: regular_counts rest
  | _ :: rest => regular_counts rest
  end.

(** The entries written to the tool result cache, in order. *)
Fixpoint cached (tr : list Event) : list (string * JsValue) :=
  match tr with
  | [] => []
  | EvCached id text :: rest => (id, text) :: cached rest
  | _ :: rest => cached rest
  end.

(** [(result of onContent)]: lines 121-125, over all chunks. *)
Definition accumulate_text (contents : list string) : string :=
  fold_left (fun acc content =>
               if negb (String.eqb content "") && has_non_whitespace content
               then acc +:+ content else acc) contents "".

Definition toolUseMessage_of (id name : string) (input : JsValue) : Message :=
  mkMessage assistant (CArr [BToolUse id name input]).

(** The [tool_result] synthesized for an unknown tool (lines 149-158). *)
Definition notFoundMessage (toolCall : ToolCall) : Message :=
  mkMessage user
    (CArr [BToolResult (tc_id toolCall)
             (CStr ("Error: `" +:+ tc_name toolCall +:+ "` tool not found.")) false]).

(** The [tool_result] of a skipped invocation (lines 190-199). *)
Definition skipMessage (toolCall : ToolCall) : Message :=
  mkMessage user (CArr [BToolResult (tc_id toolCall) (CStr "skip") false]).

(** Lines 331-339. *)
Definition assemble (assistantTextMessage : string)
  (toolUseMessage toolResultMessage : option Message) : list Message :=
  (if String.eqb assistantTextMessage "" then []
   else [mkMessage assistant (CStr assistantTextMessage)])
  ++ option_list toolUseMessage ++ option_list toolResultMessage.

Section Model.
Context {W : Type}.

(** ** The execution context and the collaborators *)

(** [context.ekoConfig.chromeProxy], as far as [execute] uses it:
    [windows.getCurrent()] and [tabs.query(queryInfo)], each a call
    into the browser that returns or throws. *)
Record ChromeProxy : Type := mkChromeProxy {
  windows_getCurrent : W -> (Thrown + JsValue) * W;
  tabs_query : JsValue -> W -> (Thrown + JsValue) * W
}.

(** The mutable part of [ExecutionContext]. The cancellation signal is
    owned by the caller: [signal] reads its [aborted] flag off the
    external world. [chromeProxy] is [context.ekoConfig.chromeProxy],
    [None] where it is [undefined]. *)
Record ExecutionContext : Type := mkContext {
  variables : gmap string JsValue;
  __skip : bool;
  __abort : bool;
  signal : option (W -> bool);
  chromeProxy : option ChromeProxy
}.

(** Code of a collaborator: it runs against the context and the world
    and returns or throws. The value of a call is what its promise
    settles to. What a run does while a promise stays unsettled is
    not described: a property that speaks of the outcome of a run is
    about a run whose awaited promises settle, and no property says
    that they do. *)
Definition Async (A : Type) : Type :=
  ExecutionContext -> W -> (Thrown + A) * ExecutionContext * W.

Record Tool : Type := mkTool {
  tool_name : string;
  tool_description : string;
  tool_input_schema : JsValue;
  tool_execute : JsValue -> Async JsValue
}.

(** [context.callback.hooks] *)
Record Hooks : Type := mkHooks {
  beforeToolUse : option (Tool -> JsValue -> Async JsValue);
  afterToolUse : option (Tool -> JsValue -> Async JsValue);
  onLlmMessage : option (JsValue -> Async unit);
  onLlmMessageUserSidePrompt : option (JsValue -> string -> Async unit)
}.

(** [LLMProvider.generateStream(messages, params, handler)]: the
    transport sees the history and the parameters it is handed. *)
Record LLMProvider : Type := mkProvider {
  generateStream :
    list Message -> JsValue -> option (list ToolDefinition) -> W -> StreamAttempt * W
}.

(** The fields of [ActionImpl] that do not change during a run. *)
Record ActionImpl : Type := mkAction {
  name : string;
  description : string;
  tools : list Tool;
  llmProvider : option LLMProvider;
  llmConfig : JsValue;
  maxRounds : nat
}.

(** An invocation that a round has started: the hooks in force, the
    tool and the call. *)
Definition Invocation : Type := option Hooks * Tool * ToolCall.

(** Everything a run can change: the store of tool definitions, the
    execution context, [this.toolResults], the external world, the
    steps taken so far (newest last), and the abandoned invocations
    that are still in flight (oldest first). *)
Record State : Type := mkState {
  defs : DefStore;
  context : ExecutionContext;
  toolResults : JsMap.t JsValue;
  world : W;
  trace : list Event;
  abandoned : list Invocation
}.

Definition signal_aborted (ctx : ExecutionContext) (w : W) : bool :=
  match signal ctx with
  | Some aborted => aborted w
  | None => false
  end.

Definition aborted (st : State) : bool := signal_aborted (context st) (world st).

Definition with_context (ctx : ExecutionContext) (st : State) : State :=
  mkState (defs st) ctx (toolResults st) (world st) (trace st) (abandoned st).

Definition with_defs (store : DefStore) (st : State) : State :=
  mkState store (context st) (toolResults st) (world st) (trace st) (abandoned st).

Definition with_world (w : W) (st : State) : State :=
  mkState (defs st) (context st) (toolResults st) w (trace st) (abandoned st).

Definition with_toolResults (m : JsMap.t JsValue) (st : State) : State :=
  mkState (defs st) (context st) m (world st) (trace st) (abandoned st).

Definition record (e : Event) (st : State) : State :=
  mkState (defs st) (context st) (toolResults st) (world st) (trace st ++ [e]) (abandoned st).

Definition with_abandoned (l : list Invocation) (st : State) : State :=
  mkState (defs st) (context st) (toolResults st) (world st) (trace st) l.

Definition set_skip (b : bool) (ctx : ExecutionContext) : ExecutionContext :=
  mkContext (variables ctx) b (__abort ctx) (signal ctx) (chromeProxy ctx).

Definition set_abort (b : bool) (ctx : ExecutionContext) : ExecutionContext :=
  mkContext (variables ctx) (__skip ctx) b (signal ctx) (chromeProxy ctx).

Definition set_variables (vars : gmap string JsValue) (ctx : ExecutionContext)
  : ExecutionContext :=
  mkContext vars (__skip ctx) (__abort ctx) (signal ctx) (chromeProxy ctx).

(** The listener registered on the signal (lines 114-118): once the
    signal is aborted, [context.__abort] is [true]. *)
Definition abort_listener (st : State) : State :=
  if aborted st then with_context (set_abort true (context st)) st else st.

(** ** Code that may throw, over the state of the run *)

Definition M (A : Type) : Type := State -> (Thrown + A) * State.

Definition ret {A : Type} (a : A) : M A := fun st => (inr a, st).

Definition throw {A : Type} (e : Thrown) : M A := fun st => (inl e, st).

Definition bind {A B : Type} (m : M A) (k : A -> M B) : M B :=
  fun st =>
    match m st with
    | (inl e, st') => (inl e, st')
    | (inr a, st') => k a st'
    end.

Definition get_state : M State := fun st => (inr st, st).

Definition update (f : State -> State) : M unit := fun st => (inr tt, f st).

Definition of_result {A : Type} (r : Thrown + A) : M A := fun st => (r, st).

(** Awaiting a collaborator; the signal listener runs if the signal
    was aborted meanwhile. *)
Definition await {A : Type} (f : Async A) : M A :=
  fun st =>
    let '(r, ctx, w) := f (context st) (world st) in
    (r, abort_listener (with_world w (with_context ctx st))).

(** A call into the browser. *)
Definition call {A : Type} (f : W -> (Thrown + A) * W) : M A :=
  fun st => let '(r, w) := f (world st) in (r, with_world w st).

End Model.

Arguments ChromeProxy W : clear implicits.
Arguments Invocation W : clear implicits.
Arguments ExecutionContext W : clear implicits.
Arguments Async W A : clear implicits.
Arguments Tool W : clear implicits.
Arguments Hooks W : clear implicits.
Arguments LLMProvider W : clear implicits.
Arguments ActionImpl W : clear implicits.
Arguments State W : clear implicits.
Arguments M W A : clear implicits.

Notation "x <- m ;; k" := (bind m (fun x => k))
  (at level 100, m at next level, right associativity).
Notation "m ;;; k" := (bind m (fun _ => k))
  (at level 100, right associativity).
Section Engine.
Context {W : Type}.

(** ** The finish tool ([createReturnTool]) *)

Definition outputKey (actionName : string) : string :=
  "__action_" +:+ actionName +:+ "_output".

Definition newline : string := String (ascii_of_nat 10) "".

Definition return_description (outputDescription : string) : string :=
  "Return the final output of this action. Use this to return a value matching the required output schema (if specified) and the following description:"
  +:+ newline +:+ "      " +:+ outputDescription +:+ newline +:+ newline
  +:+ "      You can either set 'use_tool_result=true' to return the result of a previous tool call, or explicitly specify 'value' with 'use_tool_result=false' to return a value according to your own understanding. Whenever possible, reuse tool results to avoid redundancy."
  +:+ newline +:+ "      ".

Definition return_input_schema (outputSchema : JsValue) : JsValue :=
  VObj
    [("type", VStr "object");
     ("properties",
      VObj
        [("isSuccessful",
          VObj [("type", VStr "boolean");
                ("description",
                 VStr "`true` if the workflow ultimately executes successfully, and `false` when the workflow ultimately fails, regardless of whether there are errors during the workflow.")]);
         ("use_tool_result",
          VObj [("type", VArr [VStr "boolean"]);
                ("description",
                 VStr "Whether to use the latest tool result as output. When set to true, the 'value' parameter is ignored.")]);
         ("value",
          if truthy outputSchema then outputSchema
          else
            VObj [("type", VArr [VStr "string"; VStr "number"; VStr "boolean";
                                 VStr "object"; VStr "null"]);
                  ("description",
                   VStr "The output value. Only provide a value if the previous tool result is not suitable for the output description. Otherwise, leave this as null.")])]);
     ("required", VArr [VStr "isSuccessful"; VStr "use_tool_result"; VStr "value"])].

(** [execute(context, params)] of the finish tool (lines 51-56).
    [console.debug] only prints. *)
Definition return_execute (actionName : string) (params : JsValue) : Async W JsValue :=
  fun ctx w =>
    let ctx1 := set_variables (<[outputKey actionName := params]> (variables ctx)) ctx in
    match get_prop params "isSuccessful" with
    | inl e => (inl e, ctx1, w)
    | inr isSuccessful =>
        (inr (VObj [("success", VBool true)]),
         set_variables (<["__isSuccessful__" := isSuccessful]> (variables ctx1)) ctx1,
         w)
    end.

Definition createReturnTool (actionName outputDescription : string)
  (outputSchema : JsValue) : Tool W :=
  mkTool "return_output" (return_description outputDescription)
         (return_input_schema outputSchema) (return_execute actionName).

(** ** One tool invocation (the promise of lines 175-295) *)

(** Lines 179-188. *)
Definition run_beforeToolUse (callback : option (Hooks W)) (tool : Tool W)
  (input : JsValue) : M W JsValue :=
  match callback with
  | Some hooks =>
      match beforeToolUse hooks with
      | Some hook =>
          modified_input <- await (hook tool input) ;;
          ret (if truthy modified_input then modified_input else input)
      | None => ret input
      end
  | None => ret input
  end.

(** Lines 221-230. *)
Definition run_afterToolUse (callback : option (Hooks W)) (tool : Tool W)
  (result : JsValue) : M W JsValue :=
  match callback with
  | Some hooks =>
      match afterToolUse hooks with
      | Some hook =>
          modified_result <- await (hook tool result) ;;
          ret (if truthy modified_result then modified_result else result)
      | None => ret result
      end
  | None => ret result
  end.

(** Lines 207-211. *)
Definition notify_thinking (callback : option (Hooks W)) (thinking : JsValue)
  : M W unit :=
  if truthy thinking then
    match callback with
    | Some hooks =>
        match onLlmMessage hooks with
        | Some hook => await (hook thinking)
        | None => ret tt
        end
    | None => ret tt
    end
  else ret tt.

(** Lines 212-216. *)
Definition notify_userSidePrompt (callback : option (Hooks W))
  (userSidePrompt : JsValue) (toolName : string) : M W unit :=
  if truthy userSidePrompt then
    match callback with
    | Some hooks =>
        match onLlmMessageUserSidePrompt hooks with
        | Some hook => await (hook userSidePrompt toolName)
        | None => ret tt
        end
    | None => ret tt
    end
  else ret tt.

(** Lines 274-277. *)
Definition store_result (tool : Tool W) (toolCall : ToolCall) (result : JsValue)
  : M W unit :=
  if negb (String.eqb (tool_name tool) "return_output") then
    update (fun st =>
              record (EvCached (tc_id toolCall) (resultContentText result))
                (with_toolResults
                   (JsMap.set (tc_id toolCall) (resultContentText result)
                      (toolResults st))
                   st))
  else ret tt.

(** The [try] block (lines 177-277); its value is [toolResultMessage]. *)
Definition tool_try (callback : option (Hooks W)) (tool : Tool W)
  (toolCall : ToolCall) : M W Message :=
  update (fun st => with_context (set_skip false (context st)) st) ;;;
  input <- run_beforeToolUse callback tool (tc_input toolCall) ;;
  let toolCall := mkToolCall (tc_id toolCall) (tc_name toolCall) input in
  st <- get_state ;;
  if __skip (context st) || __abort (context st) || aborted st then
    ret (skipMessage toolCall)
  else
    unwrapped <- of_result (unwrapToolCall toolCall) ;;
    let input := tc_input (u_toolCall unwrapped) in
    notify_thinking callback (u_thinking unwrapped) ;;;
    notify_userSidePrompt callback (u_userSidePrompt unwrapped) (tc_name toolCall) ;;;
    result <- await (tool_execute tool input) ;;
    result <- run_afterToolUse callback tool result ;;
    logged <- of_result (truncate result) ;;
    update (record (EvToolDone (tool_name tool) logged)) ;;;
    store_result tool toolCall result ;;;
    ret (mkMessage user (CArr [resultContent (tc_id toolCall) result])).

(** The whole promise: the [catch] (lines 278-294) turns whatever was
    thrown into an error result. *)
Definition run_tool (callback : option (Hooks W)) (tool : Tool W)
  (toolCall : ToolCall) (st : State W) : Message * State W :=
  match tool_try callback tool toolCall st with
  | (inr toolResultMessage, st') => (toolResultMessage, st')
  | (inl err, st') => (errorResult (tc_id toolCall) err, st')
  end.

(** ** Abandoned invocations *)

(** The round leaves the invocation of a rejected stream behind
    (lines 315-319). *)
Definition abandon (callback : option (Hooks W)) (tool : Tool W) (toolCall : ToolCall)
  (st : State W) : State W :=
  with_abandoned (abandoned st ++ [(callback, tool, toolCall)]) st.

(** The promise of the abandoned invocation at position [i] settles:
    its effects land now. Its result message belongs to an attempt
    that is over: the variable it is assigned to is read by nobody. *)
Definition settle_one (i : nat) (st : State W) : State W :=
  match abandoned st !! i with
  | Some (callback, tool, toolCall) =>
      snd (run_tool callback tool toolCall
             (with_abandoned (delete i (abandoned st)) st))
  | None => st
  end.

Definition settle (which : list nat) (st : State W) : State W :=
  fold_left (fun st i => settle_one i st) which st.

(** The state in which the handler calls of a stream are processed:
    the stream has been delivered, the signal listener has run, and
    the abandoned invocations that settled meanwhile have landed. *)
Definition stream_state (attempt : StreamAttempt) (w : W) (st : State W) : State W :=
  settle (settled_early attempt)
    (abort_listener (record (EvStream attempt) (with_world w st))).

(** ** [executeSingleRound] *)

(** Lines 321-342, after the stream has completed. *)
Definition finish_round (assistantTextMessage : string)
  (toolUseMessage toolResultMessage : option Message)
  (response : option LLMResponse) (hasToolUse : bool) (st : State W)
  : Outcome RoundResult :=
  if __abort (context st) then Threw (ThrowError "Abort")
  else Returned (mkRound response hasToolUse
                   (assemble assistantTextMessage toolUseMessage toolResultMessage)).

(** The [while (!context.signal?.aborted)] loop (lines 100-341).
    [response] and [hasToolUse] are the values the variables of the
    same name hold when the condition is evaluated; [fuel] bounds the
    number of stream attempts that are observed. After a stream that
    resolved, the invocation it started is awaited; after a stream
    that rejected, the invocation has settled already or is abandoned
    in flight. The history is returned as the pruning pass left it. *)
Fixpoint round_loop (fuel : nat) (this : ActionImpl W) (callback : option (Hooks W))
  (params_copy : LLMParameters) (toolMap : JsMap.t (Tool W))
  (response : option LLMResponse) (hasToolUse : bool)
  (messages : list Message) (st : State W)
  : Outcome RoundResult * list Message * State W :=
  match fuel with
  | 0 => (Diverged, messages, st)
  | S fuel' =>
      if aborted st then (Returned (mkRound response hasToolUse []), messages, st)
      else
        let messages := handleHistoryImageMessages messages in
        match llmProvider this with
        | None => (Threw (ThrowError "LLM provider not set"), messages, st)
        | Some provider =>
            let '(attempt, w) :=
              generateStream provider messages (llm_settings params_copy)
                (resolve_tools params_copy (defs st)) (world st) in
            let st := stream_state attempt w st in
            let text := accumulate_text (chunks attempt) in
            match invocation attempt with
            | None =>
                if stream_error attempt then
                  round_loop fuel' this callback params_copy toolMap
                    (completion attempt) false messages st
                else
                  (finish_round text None None (completion attempt) false st,
                   messages, st)
            | Some toolCall =>
                match JsMap.get (tc_name toolCall) toolMap with
                | None =>
                    (* lines 137-160: both messages are built, then
                       the handler rejects *)
                    if awaits_handler attempt then
                      round_loop fuel' this callback params_copy toolMap
                        None true messages st
                    else if stream_error attempt then
                      round_loop fuel' this callback params_copy toolMap
                        (completion attempt) true messages st
                    else
                      (finish_round text
                         (Some (toolUseMessage_of (tc_id toolCall) (tc_name toolCall)
                                  (tc_input toolCall)))
                         (Some (notFoundMessage toolCall))
                         (completion attempt) true st,
                       messages, st)
                | Some tool =>
                    if stream_error attempt && in_flight attempt then
                      round_loop fuel' this callback params_copy toolMap
                        (completion attempt) true messages
                        (abandon callback tool toolCall st)
                    else
                      let '(toolResultMessage, st) :=
                        run_tool callback tool toolCall st in
                      let st := settle (settled_late attempt) st in
                      if stream_error attempt then
                        round_loop fuel' this callback params_copy toolMap
                          (completion attempt) true messages st
                      else
                        (finish_round text
                           (Some (toolUseMessage_of (tc_id toolCall) (tool_name tool)
                                    (tc_input toolCall)))
                           (Some toolResultMessage)
                           (completion attempt) true st,
                         messages, st)
                end
            end
        end
  end.

Definition executeSingleRound (fuel : nat) (this : ActionImpl W)
  (callback : option (Hooks W)) (messages : list Message)
  (params : LLMParameters) (toolMap : JsMap.t (Tool W)) (st : State W)
  : Outcome RoundResult * list Message * State W :=
  let '(params_copy, store) := make_params_copy params (defs st) in
  round_loop fuel this callback params_copy toolMap None false messages
    (with_defs store st).

(** ** [execute] *)

Definition definition_of (tool : Tool W) : ToolDefinition :=
  mkDefinition (tool_name tool) (tool_description tool) (tool_input_schema tool).

(** New definition objects, one per element. *)
Definition alloc_definitions (ds : list ToolDefinition) (store : DefStore)
  : list nat * DefStore :=
  (seq (length store) (length ds), store ++ ds).

(** Lines 409-412. *)
Definition build_toolMap (this : ActionImpl W) (context_tools : option (list (Tool W)))
  (returnTool : Tool W) : JsMap.t (Tool W) :=
  JsMap.set (tool_name returnTool) returnTool
    (fold_left (fun m tool => JsMap.set (tool_name tool) tool m)
       (default [] context_tools)
       (fold_left (fun m tool => JsMap.set (tool_name tool) tool m)
          (tools this) JsMap.empty)).

Definition offered_names (params : LLMParameters) (st : State W) : list string :=
  map def_name (default [] (resolve_tools params (defs st))).

Definition finishInstruction : string :=
  "Please process the above information and return a final result using the return_output tool.".

Definition maxRoundsInstruction : string :=
  "Maximum number of steps reached. Please return the best result possible with the return_output tool.".

(** Lines 482-505 and 516-539: the parameters restricted to the
    finish tool, the instruction, one more round, its messages. *)
Definition finish_only_round (fuel : nat) (this : ActionImpl W)
  (callback : option (Hooks W)) (returnTool : Tool W) (params : LLMParameters)
  (roundCount : nat) (instruction : string) (messages : list Message) (st : State W)
  : Outcome (list Message) * State W :=
  let '(refs, store) := alloc_definitions [definition_of returnTool] (defs st) in
  let returnOnlyParams := mkParams (llm_settings params) (Some refs) in
  let st := with_defs store st in
  let pushed := [mkMessage user (CStr instruction)] in
  let messages := messages ++ pushed in
  let st := record (EvInstruction instruction) st in
  let registry := JsMap.set (tool_name returnTool) returnTool JsMap.empty in
  let st := record (EvRound FinishOnly roundCount
                      (offered_names returnOnlyParams st) (JsMap.keys registry)) st in
  match executeSingleRound fuel this callback messages returnOnlyParams registry st with
  | (Returned final, messages, st) =>
      (Returned (messages ++ roundMessages final),
       record (EvCommit final) st)
  | (Threw e, _, st) => (Threw e, st)
  | (Diverged, _, st) => (Diverged, st)
  end.

Definition calls_return_output (response : option LLMResponse) : bool :=
  match response with
  | Some r => existsb (fun call => String.eqb (tc_name call) "return_output") (toolCalls r)
  | None => false
  end.

(** The [while (roundCount < this.maxRounds)] loop (lines 456-541).
    [budget] is the number of iterations still possible; the run
    starts it at [maxRounds]. *)
Fixpoint execute_loop (budget : nat) (fuel : nat) (this : ActionImpl W)
  (callback : option (Hooks W)) (returnTool : Tool W) (params : LLMParameters)
  (toolMap : JsMap.t (Tool W)) (roundCount : nat) (messages : list Message)
  (st : State W) : Outcome (list Message) * State W :=
  match budget with
  | 0 => (Returned messages, st)
  | S budget' =>
      if negb (Nat.ltb roundCount (maxRounds this)) then (Returned messages, st)
      else if aborted st then (Threw (ThrowError "Workflow cancelled"), st)
      else
        let roundCount := S roundCount in
        let st := record (EvRound Regular roundCount (offered_names params st)
                            (JsMap.keys toolMap)) st in
        match executeSingleRound fuel this callback messages params toolMap st with
        | (Returned round, messages, st) =>
            let messages := messages ++ roundMessages round in
            let st := record (EvCommit round) st in
            if negb (hasToolUse round) && bool_decide (is_Some (response round)) then
              finish_only_round fuel this callback returnTool params roundCount
                finishInstruction messages st
            else if calls_return_output (response round) then
              (Returned messages, st)
            else if Nat.eqb roundCount (maxRounds this) then
              match finish_only_round fuel this callback returnTool params roundCount
                      maxRoundsInstruction messages st with
              | (Returned messages, st) =>
                  execute_loop budget' fuel this callback returnTool params toolMap
                    roundCount messages st
              | failed => failed
              end
            else
              execute_loop budget' fuel this callback returnTool params toolMap
                roundCount messages st
        | (Threw e, _, st) => (Threw e, st)
        | (Diverged, _, st) => (Diverged, st)
        end
  end.

(** Lines 543-562. *)
Definition finalize (this : ActionImpl W) (messages : list Message) (st : State W)
  : (JsValue * list Message) * State W :=
  let key := outputKey (name this) in
  let outputParams := default VUndefined (variables (context st) !! key) in
  let st := record (EvFinalize outputParams) st in
  if negb (truthy outputParams) then ((VObj [], messages), st)
  else
    let st := with_context
                (set_variables (delete key (variables (context st))) (context st)) st in
    let outputValue :=
      if truthy (result_prop outputParams "use_tool_result")
      then default VUndefined (array_pop (JsMap.values (toolResults st)))
      else result_prop outputParams "value" in
    if is_undefined outputValue then ((VObj [], messages), st)
    else ((outputValue, messages), st).

(** The query of the browser tabs (lines 415-418): two awaited calls
    of the proxy, which is read off [context.ekoConfig]. The tabs it
    returns are not used. *)
Definition query_tabs : M W unit :=
  st <- get_state ;;
  match chromeProxy (context st) with
  | None => throw (ThrowError "Cannot read properties of undefined (reading 'windows')")
  | Some proxy =>
      currentWindow <- call (windows_getCurrent proxy) ;;
      windowId <- of_result (get_prop currentWindow "id") ;;
      existingTabs <- call (tabs_query proxy (VObj [("windowId", windowId)])) ;;
      ret tt
  end.

(** [execute(input, output, context, outputSchema)]. The two prompts
    are the texts produced by [formatSystemPrompt] and
    [formatUserPrompt]; [callback] and [context_tools] are the fields
    of [context] of the same names. *)
Definition execute (fuel : nat) (this : ActionImpl W) (callback : option (Hooks W))
  (context_tools : option (list (Tool W))) (systemPrompt userPrompt : string)
  (outputDescription : string) (outputSchema : JsValue) (st : State W)
  : Outcome (JsValue * list Message) * State W :=
  let returnTool := createReturnTool (name this) outputDescription outputSchema in
  let toolMap := build_toolMap this context_tools returnTool in
  match query_tabs st with
  | (inl e, st) => (Threw e, st)
  | (inr _, st) =>
      let messages := [mkMessage system (CStr systemPrompt);
                       mkMessage user (CStr userPrompt)] in
      let '(refs, store) :=
        alloc_definitions (map definition_of (JsMap.values toolMap)) (defs st) in
      let params := mkParams (llmConfig this) (Some refs) in
      match execute_loop (maxRounds this) fuel this callback returnTool params toolMap
              0 messages (with_defs store st) with
      | (Returned messages, st) =>
          let '(result, st) := finalize this messages st in (Returned result, st)
      | (Threw e, st) => (Threw e, st)
      | (Diverged, st) => (Diverged, st)
      end
  end.

End Engine.

(** The state in which the handler calls of the first stream of a
    round are processed: the round's copy of the parameters is in the
    store, and the stream has been delivered (see [stream_state]). *)
Definition attempt_state {W : Type} (st : State W) (store : DefStore)
  (attempt : StreamAttempt) (w : W) : State W :=
  stream_state attempt w (with_defs store st).
(** ** A scripted world for concrete runs *)

(** The external world of the examples is the list of streams the
    transport will deliver, one per [generateStream] call; when the
    script is used up the transport delivers an empty stream. *)
Definition Script : Type := list StreamAttempt.

Definition idle : StreamAttempt := mkAttempt [] None None false false false [] [].

Definition scripted : LLMProvider Script :=
  mkProvider (fun _ _ _ w =>
                match w with
                | attempt :: rest => (attempt, rest)
                | [] => (idle, [])
                end).

(** A tool that returns its input, and a tool that throws. *)
Definition echo : Tool Script :=
  mkTool "echo" "returns its input" (VObj [("type", VStr "string")])
         (fun input ctx w => (inr input, ctx, w)).

Definition full_disk : Tool Script :=
  mkTool "write_file" "writes a file" (VObj [("type", VStr "object")])
         (fun _ ctx w => (inl (ThrowError "disk full"), ctx, w)).

Definition demo (maxRounds : nat) : ActionImpl Script :=
  mkAction "demo" "a demonstration" [echo; full_disk] (Some scripted) VNull maxRounds.

(** A browser with one window. *)
Definition one_window : ChromeProxy Script :=
  mkChromeProxy (fun w => (inr (VObj [("id", VNum 1)]), w))
                (fun _ w => (inr (VArr []), w)).

Definition fresh_context : ExecutionContext Script :=
  mkContext ∅ false false None (Some one_window).

Definition start (script : Script) : State Script :=
  mkState [] fresh_context JsMap.empty script [] [].

(** An invocation in the envelope, and the stream that carries it. *)
Definition invoke (id name : string) (input : JsValue) : ToolCall :=
  mkToolCall id name
    (envelope_input (VStr "In the previous step, I've ...") (VStr "thinking")
       (VStr "working") input).

Definition stream_of (toolCall : ToolCall) : StreamAttempt :=
  mkAttempt [] (Some toolCall) (Some (mkResponse "" [toolCall])) false false false [] [].

Definition text_only (text : string) : StreamAttempt :=
  mkAttempt [text] None (Some (mkResponse text [])) false false false [] [].

Definition finish_payload (use_tool_result : bool) (value : JsValue) : JsValue :=
  VObj [("isSuccessful", VBool true); ("use_tool_result", VBool use_tool_result);
        ("value", value)].

Definition run_demo (maxRounds : nat) (script : Script)
  : Outcome (JsValue * list Message) * State Script :=
  execute 5 (demo maxRounds) None None "system prompt" "user prompt"
    "the answer" VUndefined (start script).

(** The scenario of three user turns with one image each. *)
Definition screenshot (id : string) : Message :=
  mkMessage user (CArr [BToolResult id (CArr [BImage (VStr "png")]) false]).

Definition use_of (id : string) : Message :=
  mkMessage assistant (CArr [BToolUse id "screenshot" VNull]).

Definition two_older_turns : list Message :=
  [mkMessage system (CStr "system prompt");
   screenshot "1"; use_of "2"; screenshot "2"; use_of "3"].

(** A store with the definition of one tool, and parameters that refer to it. *)
Definition echo_store : DefStore :=
  [mkDefinition "echo" "returns its input" (VObj [("type", VStr "string")])].

Definition echo_params : LLMParameters := mkParams VNull (Some [0]).

Definition echo_state (script : Script) : State Script :=
  mkState echo_store fresh_context JsMap.empty script [] [].

(** The value a computation returned, or [d] if it did not return. *)
Definition returned {A : Type} (d : A) (o : Outcome A) : A :=
  match o with
  | Returned a => a
  | _ => d
  end.

(** Two tool results, [A] then [B], then the finish tool with
    [use_tool_result = true]. *)
Definition script_A_then_B : Script :=
  [stream_of (invoke "1" "echo" (VStr "A"));
   stream_of (invoke "2" "echo" (VStr "B"));
   stream_of (invoke "3" "return_output" (finish_payload true VNull))].


(** The stream that invokes [echo] with [A] rejects while the
    invocation is in flight; the next stream invokes [echo] with [B];
    the abandoned invocation settles during the stream that invokes
    the finish tool with [use_tool_result = true]. *)
Definition script_abandoned : Script :=
  [mkAttempt [] (Some (invoke "1" "echo" (VStr "A"))) None true false true [] [];
   stream_of (invoke "2" "echo" (VStr "B"));
   mkAttempt [] (Some (invoke "3" "return_output" (finish_payload true VNull)))
     (Some (mkResponse "" [invoke "3" "return_output" (finish_payload true VNull)]))
     false false false [0] []].

(** The finish tool is invoked with [null] for its payload; the model
    would go on with text. *)
Definition script_finish_null : Script :=
  [stream_of (invoke "1" "return_output" VNull); text_only "more"].

(** A tool throws, then the model answers with text, then it finishes. *)
Definition script_disk_full : Script :=
  [stream_of (invoke "1" "write_file" (VStr "notes"));
   text_only "done";
   stream_of (invoke "3" "return_output" (finish_payload false (VStr "v")))].

(** The model answers with text only, then calls the finish tool. *)
Definition script_text_only : Script :=
  [text_only "hello";
   stream_of (invoke "2" "return_output" (finish_payload false (VStr "v")))].

(** The model invokes a tool that does not exist, over a transport
    that awaits the handler; its next stream is text. *)
Definition unknown_invocation : StreamAttempt :=
  mkAttempt [] (Some (invoke "1" "nope" (VStr "A"))) None false true false [] [].

Definition script_unknown_tool : Script := [unknown_invocation; text_only "sorry"].

Definition no_tools : LLMParameters := mkParams VNull None.

Definition demo_registry : JsMap.t (Tool Script) :=
  [("echo", echo); ("write_file", full_disk)].

Fixpoint repeat_char (c : ascii) (n : nat) : string :=
  match n with
  | 0 => ""
  | S n' => String c (repeat_char c n')
  end.

(** A text of 1200 characters. *)
Definition long_text : string := repeat_char "a"%char 1200.

(** * Further parts of the repository *)

(** ** The constructor of [ActionImpl] and [createPromptAction] *)

Section Construction.
Context {W : Type}.

(** [new ActionImpl('prompt', name, description, tools, llmProvider,
    llmConfig, config)] (lines 67-81). [config_maxRounds] is
    [config?.maxRounds]; a missing value and [0] are falsy and leave the
    default of 100. [writeContextTool] is the instance of
    [WriteContextTool] the constructor creates. *)
Definition new_ActionImpl (writeContextTool : Tool W) (name description : string)
  (tools : list (Tool W)) (llmProvider : option (LLMProvider W)) (llmConfig : JsValue)
  (config_maxRounds : option nat) : ActionImpl W :=
  mkAction name description (tools ++ [writeContextTool]) llmProvider llmConfig
    (match config_maxRounds with
     | Some 0 | None => 100
     | Some maxRounds => maxRounds
     end).

(** [ActionImpl.createPromptAction] (lines 708-716). *)
Definition createPromptAction (writeContextTool : Tool W) (name description : string)
  (tools : list (Tool W)) (llmProvider : option (LLMProvider W)) (llmConfig : JsValue)
  : ActionImpl W :=
  new_ActionImpl writeContextTool name description tools llmProvider llmConfig None.

End Construction.

(** ** The context compressors ([common/context-compressor.ts]) *)

(** [JSON.parse(JSON.stringify(messages))] on a history: a property
    whose value is [undefined] is left out, which reads as [undefined]
    again. *)
Fixpoint clone_block (b : Block) : Block :=
  match b with
  | BText text => BText (json_clone text)
  | BImage source => BImage (json_clone source)
  | BToolUse id name input => BToolUse id name (json_clone input)
  | BToolResult id (CStr s) e => BToolResult id (CStr s) e
  | BToolResult id (CArr items) e => BToolResult id (CArr (map clone_block items)) e
  end.

Definition clone_message (m : Message) : Message :=
  match content m with
  | CStr _ => m
  | CArr items => mkMessage (role m) (CArr (map clone_block items))
  end.

(** [NoComporess.comporess] *)
Definition NoComporess_comporess (messages : list Message) : list Message :=
  map clone_message messages.

(** [(msg.content[0] as ToolCall).input]: the first character of a
    string and a block other than [tool_use] have no [input]; an empty
    string or array has no first element. *)
Definition first_input (c : Content Block) : Thrown + JsValue :=
  match c with
  | CArr (BToolUse _ _ input :: _) => inr input
  | CArr (_ :: _) => inr VUndefined
  | CStr (String _ _) => inr VUndefined
  | CArr [] | CStr EmptyString =>
      inl (ThrowError "Cannot read properties of undefined (reading 'input')")
  end.

Definition first_input_prop (c : Content Block) (k : string) : Thrown + JsValue :=
  and_then (first_input c) (fun input => get_prop input k).

Definition is_string_content (c : Content Block) : bool :=
  match c with CStr _ => true | CArr _ => false end.

(** The callback of [messages.forEach] in [SimpleQAComporess.comporess]
    for the message [msg] at index [idx] of a history of [len] messages
    whose next message, if any, is [next]: the message it pushes, or
    what it throws. *)
Definition SimpleQA_step (len idx : nat) (msg : Message) (next : option Message)
  : Thrown + Message :=
  match role msg with
  | system => inr msg
  | assistant =>
      if Nat.eqb (S (S idx)) len || is_string_content (content msg) then inr msg
      else
        and_then (first_input_prop (content msg) "userSidePrompt") (fun task =>
        and_then (first_input_prop (content msg) "thinking") (fun details =>
        inr (mkMessage assistant
               (CStr ("<task>" +:+ js_to_string task +:+ "</task><details>"
                      +:+ js_to_string details +:+ "</details>")))))
  | user =>
      if Nat.eqb (S idx) len then inr msg
      else
        match next with
        | None => inr msg
        | Some msg' =>
            match first_input_prop (content msg') "observation" with
            | inr result =>
                inr (mkMessage user
                       (CStr ("<result>" +:+ js_to_string result +:+ "</result>")))
            | inl _ => inr msg'
            end
        end
  end.

Fixpoint SimpleQA_loop (len idx : nat) (rest : list Message) : Thrown + list Message :=
  match rest with
  | [] => inr []
  | msg :: later =>
      and_then (SimpleQA_step len idx msg (head later)) (fun pushed =>
      and_then (SimpleQA_loop len (S idx) later) (fun comporessed =>
      inr (pushed :: comporessed)))
  end.

(** [SimpleQAComporess.comporess] *)
Definition SimpleQA_comporess (messages : list Message) : Thrown + list Message :=
  let messages := map clone_message messages in
  SimpleQA_loop (length messages) 0 messages.

(** ** [BrowserUse] ([extension/tools/browser_use.ts]) *)

Definition includes (k : string) (l : list string) : bool := existsb (String.eqb k) l.

(** The [properties] the constructor of [BrowserUse] fills in. *)
Definition browser_properties (required : list string) : list (string * JsValue) :=
  (if includes "index" required then
     [("index",
       VObj [("type", VStr "integer");
             ("description",
              VStr "The index of element, Operation elements must pass the corresponding index of the element")])]
   else [])
  ++ (if includes "text" required then
        [("text", VObj [("type", VStr "string"); ("description", VStr "The input text.")])]
      else []).

(** The [input_schema] built by the constructor from [this.required()]. *)
Definition browser_input_schema (required : list string) : JsValue :=
  VObj [("type", VStr "object");
        ("properties", VObj (browser_properties required));
        ("required", VArr (map VStr required))].

(** The keys that the tools of the file require. No prototype defines
    them, so that [key in params] looks at own keys only. *)
Definition BrowserUse_keys : list string := ["index"; "text"].

(** [key in params] for such a key: own keys of an object; the indices
    and [length] of an array; a [TypeError] for anything that is not an
    object. *)
Definition has_key (key : string) (params : JsValue) : Thrown + bool :=
  match params with
  | VObj fields => inr (bool_decide (is_Some (assoc_get key fields)))
  | VArr items =>
      inr (String.eqb key "length"
           || existsb (fun i => String.eqb key (pretty i)) (seq 0 (length items)))
  | _ =>
      inl (ThrowError ("Cannot use 'in' operator to search for '" +:+ key +:+ "' in "
                       +:+ js_to_string params))
  end.

(** [checkParams(params)] of a tool whose schema was built from
    [required]: [this.input_schema.required] is that array. *)
Fixpoint checkParams (required : list string) (params : JsValue) : Thrown + unit :=
  match required with
  | [] => inr tt
  | key :: rest =>
      and_then (has_key key params) (fun present =>
      if present then checkParams rest params
      else inl (ThrowError ("'" +:+ key +:+ "' parameter is missing but required")))
  end.

(** The [required()] of the tools of the file. *)
Definition InputText_required : list string := ["index"; "text"].
Definition Click_required : list string := ["index"].
Definition SelectDropdownOption_required : list string := ["index"; "text"].

(** [x == null] *)
Definition loosely_null (v : JsValue) : bool := is_nullish v.

(** The two checks at the head of
    [SelectDropdownOption.executeWithArgs]. *)
Definition SelectDropdownOption_guard (params : JsValue) : Thrown + unit :=
  and_then (get_prop params "index") (fun index =>
  if loosely_null index then inl (ThrowError "index parameter is required")
  else
    and_then (get_prop params "text") (fun text =>
    if loosely_null text then inl (ThrowError "text parameter is required")
    else inr tt)).

(** ** [Eko] (the core class) *)

(** [Boolean(hooks.onHuman...)] for the four hooks that the human
    tools need. *)
Record HumanHooks : Type := mkHumanHooks {
  onHumanInputText : bool;
  onHumanInputSingleChoice : bool;
  onHumanInputMultipleChoice : bool;
  onHumanOperate : bool
}.

Definition tool2isHookExists (hooks : HumanHooks) : list (string * bool) :=
  [("human_input_text", onHumanInputText hooks);
   ("human_input_single_choice", onHumanInputSingleChoice hooks);
   ("human_input_multiple_choice", onHumanInputMultipleChoice hooks);
   ("human_operate", onHumanOperate hooks)].

(** The predicate of [tools.filter]; a name that the object only
    inherits ([toString], ...) reads as a function, which is truthy. *)
Definition keeps_tool (hooks : HumanHooks) (name : string) : bool :=
  match assoc_get name (tool2isHookExists hooks) with
  | Some isHookExists => isHookExists
  | None => true
  end.

(** [registerTools]: the tools handed to [toolRegistry.registerTool],
    in order. [static_tools] is [Eko.tools]; [callback] is [None] for a
    falsy [ekoConfig.callback] and otherwise what its [hooks] object
    holds. *)
Definition registerTools {W : Type} (static_tools : JsMap.t (Tool W))
  (callback : option HumanHooks) : list (Tool W) :=
  match callback with
  | Some hooks =>
      List.filter (fun tool => keeps_tool hooks (tool_name tool)) (JsMap.values static_tools)
  | None => JsMap.values static_tools
  end.

(** The own enumerable properties that [{...source}] copies. *)
Definition spread_entries (source : JsValue) : list (string * JsValue) :=
  match source with
  | VObj fields => fields
  | VArr items => imap (fun i v => (pretty i, v)) items
  | VStr s => imap (fun i c => (pretty i, VStr (String c ""))) (String.list_ascii_of_string s)
  | _ => []
  end.

(** [{...target, ...source}] *)
Definition object_spread (target : list (string * JsValue)) (source : JsValue)
  : list (string * JsValue) :=
  fold_left (fun acc kv => JsMap.set (fst kv) (snd kv) acc) (spread_entries source) target.

(** [defaultEkoConfig]; [chrome] is the global of that name, or
    [undefined] where there is none. *)
Definition defaultEkoConfig (chrome : JsValue) : list (string * JsValue) :=
  [("workingWindowId", VUndefined);
   ("chromeProxy", chrome);
   ("callback", VUndefined);
   ("patchServerUrl", VStr "http://127.0.0.1:8000/eko")].

(** [buildEkoConfig(ekoConfig)] *)
Definition buildEkoConfig (chrome : JsValue) (ekoConfig : JsValue) : JsValue :=
  VObj (object_spread (defaultEkoConfig chrome) ekoConfig).

(** ** [initWebFeatures] ([web/init.ts]) *)

(** What the function reads and writes of [window]: the flag
    [__formProtectionInitialized], whether [requestIdleCallback]
    exists, and the calls of [protect_form_fields] it has scheduled:
    through [requestIdleCallback], or through [setTimeout] with the
    delay. *)
Inductive Scheduled : Type :=
| WhenIdle
| AfterTimeout (ms : nat).

Record Window : Type := mkWindow {
  __formProtectionInitialized : JsValue;
  has_requestIdleCallback : bool;
  scheduled : list Scheduled
}.

(** [initWebFeatures(options)]; [window] is [None] where [typeof
    window] is [undefined]. *)
Definition initWebFeatures (options : JsValue) (window : option Window)
  : Thrown + option Window :=
  let options := if is_undefined options then VObj [] else options in
  and_then (get_prop options "enableFormProtection") (fun v =>
  let enableFormProtection := if is_undefined v then true else truthy v in
  match window with
  | Some w =>
      if enableFormProtection && negb (truthy (__formProtectionInitialized w)) then
        inr (Some (mkWindow (VBool true) (has_requestIdleCallback w)
                     (scheduled w
                      ++ [if has_requestIdleCallback w then WhenIdle
                          else AfterTimeout 1000])))
      else inr (Some w)
  | None => inr None
  end).

(** A sequence of calls, as long as none throws. *)
Fixpoint initWebFeatures_all (calls : list JsValue) (window : option Window)
  : Thrown + option Window :=
  match calls with
  | [] => inr window
  | options :: rest =>
      and_then (initWebFeatures options window) (initWebFeatures_all rest)
  end.

(** ** Outlines of messages *)

(** What identifies a block to the model interface: its type, the id
    that pairs a [tool_use] with its [tool_result], and the error flag. *)
Definition block_tag (b : Block) : string * string * bool :=
  match b with
  | BText _ => ("text", "", false)
  | BImage _ => ("image", "", false)
  | BToolUse id _ _ => ("tool_use", id, false)
  | BToolResult id _ e => ("tool_result", id, e)
  end.

(** The outline of a message: its role and, for an array content, the
    tags of its blocks. *)
Definition outline (m : Message) : Role * (string + list (string * string * bool)) :=
  (role m,
   match content m with
   | CStr s => inl s
   | CArr items => inr (map block_tag items)
   end).

(** [countImages] of one message. *)
Definition countImages_message (msg : Message) : nat :=
  match content msg with
  | CArr items => list_sum (map countImages_item items)
  | CStr _ => 0
  end.

(** Examples for the further parts. *)
Definition mixed_result : Message :=
  mkMessage user
    (CArr [BToolResult "7" (CArr [BImage (VStr "png"); BText (VStr "page")]) false]).

Definition clean_window : Window := mkWindow VUndefined true [].

(** Whether [SimpleQAComporess] can summarize an assistant turn: its
    first block is a [tool_use] whose input is neither [null] nor
    [undefined]. *)
Definition summarizable (m : Message) : bool :=
  match first_input (content m) with
  | inr input => negb (is_nullish input)
  | inl _ => false
  end.

Definition tool_turn (id : string) (input : JsValue) : Message :=
  mkMessage assistant (CArr [BToolUse id "echo" input]).

(** A history as [execute] builds it: two prompts, then two rounds. *)
Definition two_rounds : list Message :=
  [mkMessage system (CStr "system prompt");
   mkMessage user (CStr "user prompt");
   tool_turn "1" (envelope_input (VStr "nothing yet") (VStr "look") (VStr "Looking") VNull);
   screenshot "1";
   tool_turn "2" (envelope_input (VStr "saw the page") (VStr "click") (VStr "Clicking") VNull);
   screenshot "2"].

(** The list a computation returned, or the empty list. *)
Definition returned_list {A : Type} (r : Thrown + list A) : list A :=
  match r with
  | inr l => l
  | inl _ => []
  end.

(** ** Further scripted collaborators *)

(** A context whose signal is aborted from the start. *)
Definition cancelled_context : ExecutionContext Script :=
  mkContext ∅ false false (Some (fun _ => true)) (Some one_window).

Definition cancelled_start (script : Script) : State Script :=
  mkState [] cancelled_context JsMap.empty script [] [].

(** The action of the examples without a provider. *)
Definition demo_without_provider : ActionImpl Script :=
  mkAction "demo" "a demonstration" [echo; full_disk] None VNull 3.

(** A [beforeToolUse] hook that asks to skip every invocation. *)
Definition skipping_hooks : Hooks Script :=
  mkHooks (Some (fun _ _ ctx w => (inr VUndefined, set_skip true ctx, w))) None None None.

(** A transport that never fails, and one that always does. *)
Definition steady : LLMProvider Script :=
  mkProvider (fun _ _ _ w => (text_only "hello", w)).

Definition failing : LLMProvider Script :=
  mkProvider (fun _ _ _ w => (mkAttempt [] None None true false false [] [], w)).

Definition demo_with (provider : LLMProvider Script) : ActionImpl Script :=
  mkAction "demo" "a demonstration" [echo; full_disk] (Some provider) VNull 3.

(** The finish tool invoked with the payload itself instead of the
    envelope around it. *)
Definition bare_finish_call : ToolCall :=
  mkToolCall "9" "return_output"
    (VObj [("isSuccessful", VBool true); ("use_tool_result", VBool false);
           ("value", VStr "v")]).

(** ** Vocabulary of the proofs *)

(** The number of steps of a kind. *)
Definition count (f : Event -> bool) (evs : list Event) : nat :=
  length (List.filter f evs).


Section Vocabulary.
Context {W : Type}.
Implicit Types (st : State W).

(** A computation [keeps] the run data when it changes at most the
    execution context and the world. *)
Definition same_run_data st st' : Prop :=
  defs st' = defs st /\ toolResults st' = toolResults st /\ trace st' = trace st.

Definition keeps {A : Type} (m : M W A) : Prop :=
  forall st r st', m st = (r, st') -> same_run_data st st'.

(** Replaying the cache writes of a list of steps on a cache. *)
Definition replay (evs : list Event) (m : JsMap.t JsValue) : JsMap.t JsValue :=
  fold_left (fun acc kv => JsMap.set (fst kv) (snd kv) acc) (cached evs) m.

Definition texts_are_strings (evs : list Event) : Prop :=
  Forall (fun kv : string * JsValue => exists s, snd kv = VStr s) (cached evs).

(** What a stretch of a run leaves behind, seen from the steps [evs]
    it took: the cache is the old cache with the writes replayed, and
    every text written is a string. *)
Definition advances (evs : list Event) st st' : Prop :=
  trace st' = trace st ++ evs /\
  toolResults st' = replay evs (toolResults st) /\
  texts_are_strings evs.

(** A stretch of a run that stays inside a round: it takes only steps
    that belong to a round and leaves the store of definitions alone. *)
Definition inside_steps st st' : Prop :=
  defs st' = defs st /\
  exists evs, advances evs st st' /\ Forall (fun e => inside_round e = true) evs.

(** What the steps of a stretch of the loop look like from round
    counter [n] on: the regular rounds announce [n+1], [n+2], ... and
    stay within the maximum, at most one round is finish-only, and
    every commit belongs to a round. *)
Definition loop_shape (max n : nat) (evs : list Event) : Prop :=
  (exists j, regular_counts evs = seq (S n) j /\ j <= max - n) /\
  count is_finish_only evs <= 1 /\
  count is_commit evs <= count is_round evs /\
  (max <= n -> evs = []).

(** How the steps of the loop begin: with the next regular round,
    unless the loop is over at once. *)
Definition loop_head (budget : nat) (this : ActionImpl W) (params : LLMParameters)
  (toolMap : JsMap.t (Tool W)) (n : nat) st (evs : list Event) : Prop :=
  match evs with
  | [] => budget = 0 \/ maxRounds this <= n \/ aborted st = true
  | e :: _ => e = EvRound Regular (S n) (offered_names params st) (JsMap.keys toolMap)
  end.

(** An invocation gets as far as the call of the tool's [execute]:
    the hook before it, if there is one, has returned, the invocation
    is not skipped, the envelope could be read and the two
    notifications have returned. [input] is what [execute] is called
    with, [st3] the state in which it is called. *)
Definition reaches_execute (callback : option (Hooks W)) (tool : Tool W)
  (toolCall : ToolCall) st (input : JsValue) st3 : Prop :=
  exists modified st1 unwrapped st2,
    run_beforeToolUse callback tool (tc_input toolCall)
      (with_context (set_skip false (context st)) st) = (inr modified, st1) /\
    __skip (context st1) || __abort (context st1) || aborted st1 = false /\
    unwrapToolCall (mkToolCall (tc_id toolCall) (tc_name toolCall) modified)
    = inr unwrapped /\
    input = tc_input (u_toolCall unwrapped) /\
    notify_thinking callback (u_thinking unwrapped) st1 = (inr tt, st2) /\
    notify_userSidePrompt callback (u_userSidePrompt unwrapped) (tc_name toolCall) st2
    = (inr tt, st3).

(** Something is thrown in the course of an invocation: by the hook
    that runs before the tool, by the tool's [execute], or by the hook
    that runs after it. The last argument is the state in which it
    is caught. *)
Inductive throws_in_invocation (callback : option (Hooks W)) (tool : Tool W)
  (toolCall : ToolCall) st (e : Thrown) : State W -> Prop :=
| before_hook_throws hooks hook ctx w :
    callback = Some hooks ->
    beforeToolUse hooks = Some hook ->
    hook tool (tc_input toolCall) (set_skip false (context st)) (world st)
    = (inl e, ctx, w) ->
    throws_in_invocation callback tool toolCall st e
      (abort_listener (with_world w (with_context ctx st)))
| execute_throws input st3 ctx w :
    reaches_execute callback tool toolCall st input st3 ->
    tool_execute tool input (context st3) (world st3) = (inl e, ctx, w) ->
    throws_in_invocation callback tool toolCall st e
      (abort_listener (with_world w (with_context ctx st3)))
| after_hook_throws input st3 result ctx w hooks hook ctx' w' :
    reaches_execute callback tool toolCall st input st3 ->
    tool_execute tool input (context st3) (world st3) = (inr result, ctx, w) ->
    callback = Some hooks ->
    afterToolUse hooks = Some hook ->
    hook tool result
      (context (abort_listener (with_world w (with_context ctx st3))))
      (world (abort_listener (with_world w (with_context ctx st3))))
    = (inl e, ctx', w') ->
    throws_in_invocation callback tool toolCall st e
      (abort_listener
         (with_world w'
            (with_context ctx' (abort_listener (with_world w (with_context ctx st3)))))).

End Vocabulary.

(** ** Vocabulary for histories *)

(** The blocks of a message; a string content has none. *)
Definition blocks (m : Message) : list Block :=
  match content m with
  | CArr items => items
  | CStr _ => []
  end.

(** The message that answers the invocation [id]: the user's, with the
    [tool_result] of that id as its only block. *)
Definition is_result_for (id : string) (m : Message) : Prop :=
  exists c e, m = mkMessage user (CArr [BToolResult id c e]).

(** The messages of one round: the assistant's text if there is any,
    then nothing, or the invocation followed by its result. *)
Definition round_shape (r : list Message) : Prop :=
  exists text tail,
    r = (if String.eqb text "" then [] else [mkMessage assistant (CStr text)]) ++ tail /\
    (tail = [] \/
     exists id name input result,
       tail = [toolUseMessage_of id name input; result] /\ is_result_for id result).

(** In a history, every [tool_use] block is the only block of an
    assistant message, and the next message is its result. *)
Definition tool_uses_answered (msgs : list Message) : Prop :=
  forall i m id name input,
    msgs !! i = Some m -> In (BToolUse id name input) (blocks m) ->
    m = toolUseMessage_of id name input /\
    exists r, msgs !! (S i) = Some r /\ is_result_for id r.

(** In a history, every [tool_result] block is the only block of a
    user message, and the message before it is its invocation. *)
Definition tool_results_asked (msgs : list Message) : Prop :=
  forall i m id c e,
    msgs !! i = Some m -> In (BToolResult id c e) (blocks m) ->
    m = mkMessage user (CArr [BToolResult id c e]) /\
    exists j name input, i = S j /\ msgs !! j = Some (toolUseMessage_of id name input).

(** A history in which invocations and results come in pairs. *)
Definition paired (msgs : list Message) : Prop :=
  tool_uses_answered msgs /\ tool_results_asked msgs.

(** The message that is found at a position after the pruning pass. *)
Definition pruned_from (m m' : Message) : Prop :=
  m' = m \/ (is_user m = true /\ m' = strip_message m).

(** The first tool of a list that has the name. *)
Definition find_tool {W : Type} (name : string) (l : list (Tool W)) : option (Tool W) :=
  find (fun tool => String.eqb (tool_name tool) name) l.

(** A transport that neither fails nor lets a rejection of the
    handler escape. *)
Definition reliable {W : Type} (provider : LLMProvider W) : Prop :=
  forall messages settings offered w,
    let attempt := fst (generateStream provider messages settings offered w) in
    stream_error attempt = false /\ awaits_handler attempt = false.

(** A transport every stream of which fails before any invocation. *)
Definition always_failing {W : Type} (provider : LLMProvider W) : Prop :=
  forall messages settings offered w,
    let attempt := fst (generateStream provider messages settings offered w) in
    stream_error attempt = true /\ invocation attempt = None.

(** The calls of the transport among the steps of a run. *)
Definition is_stream (e : Event) : bool :=
  match e with EvStream _ => true | _ => false end.
(** ** Image pruning: proofs *)

Section ImagePruning.

Lemma filter_no_image_idem (c : list Block) :
  List.filter (fun x => negb (is_image x)) (List.filter (fun x => negb (is_image x)) c)
  = List.filter (fun x => negb (is_image x)) c.
Proof.
  induction c as [|x c IH]; simpl; [reflexivity|].
  destruct (negb (is_image x)) eqn:E; simpl; rewrite ?E, IH; reflexivity.
Qed.

Lemma strip_content_idem (c : list Block) :
  strip_content (strip_content c) = strip_content c.
Proof.
  destruct c as [|x c]; [reflexivity|].
  assert (Hc : strip_content (x :: c)
               = match List.filter (fun x => negb (is_image x)) (x :: c) with
                 | [] => [BText (VStr "ok")]
                 | y :: c' => y :: c'
                 end) by reflexivity.
  rewrite Hc.
  destruct (List.filter _ (x :: c)) as [|y c'] eqn:E; [reflexivity|].
  unfold strip_content. rewrite <- E, filter_no_image_idem, E. reflexivity.
Qed.

Lemma strip_item_idem (item : Block) : strip_item (strip_item item) = strip_item item.
Proof.
  destruct item as [t|s|i n inp|id [s|c] e]; try reflexivity.
  simpl. rewrite strip_content_idem. reflexivity.
Qed.

Lemma strip_message_idem (m : Message) :
  strip_message (strip_message m) = strip_message m.
Proof.
  destruct m as [r [s|items]]; unfold strip_message; simpl; [reflexivity|].
  f_equal. f_equal. rewrite map_map.
  apply map_ext. intros a. apply strip_item_idem.
Qed.

Lemma strip_message_role (m : Message) : role (strip_message m) = role m.
Proof. destruct m as [r [s|items]]; reflexivity. Qed.

Lemma is_user_strip (m : Message) : is_user (strip_message m) = is_user m.
Proof. unfold is_user. rewrite strip_message_role. reflexivity. Qed.

Lemma prune_earlier_idem (m : Message) :
  prune_earlier (prune_earlier m) = prune_earlier m.
Proof.
  unfold prune_earlier. destruct (is_user m) eqn:E.
  - rewrite is_user_strip, E. apply strip_message_idem.
  - rewrite E. reflexivity.
Qed.

(** Once the newest user message has been passed, the loop is a [map]. *)
Lemma prune_backward_found (l : list Message) :
  prune_backward true l = map prune_earlier l.
Proof.
  induction l as [|m l IH]; simpl; [reflexivity|].
  unfold prune_earlier at 1. destruct (is_user m); rewrite IH; reflexivity.
Qed.

Lemma prune_backward_idem (b : bool) (l : list Message) :
  prune_backward b (prune_backward b l) = prune_backward b l.
Proof.
  revert b. induction l as [|m l IH]; intros b; simpl; [reflexivity|].
  destruct (is_user m) eqn:E.
  - destruct b; simpl.
    + rewrite is_user_strip, E, strip_message_idem, IH. reflexivity.
    + rewrite E, IH. reflexivity.
  - simpl. rewrite E, IH. reflexivity.
Qed.

Lemma prune_backward_no_user (l : list Message) :
  Forall (fun x => is_user x = false) l -> prune_backward false l = l.
Proof.
  induction 1 as [|m l Hm _ IH]; simpl; [reflexivity|].
  rewrite Hm, IH. reflexivity.
Qed.

Lemma prune_backward_split (newer older : list Message) (m : Message) :
  Forall (fun x => is_user x = false) newer ->
  is_user m = true ->
  prune_backward false (newer ++ m :: older)
  = newer ++ m :: map prune_earlier older.
Proof.
  intros Hn Hm. induction Hn as [|x newer Hx _ IH]; simpl.
  - rewrite Hm, prune_backward_found. reflexivity.
  - rewrite Hx, IH. reflexivity.
Qed.

Lemma handleHistoryImageMessages_idem (messages : list Message) :
  handleHistoryImageMessages (handleHistoryImageMessages messages)
  = handleHistoryImageMessages messages.
Proof.
  unfold handleHistoryImageMessages.
  rewrite rev_involutive, prune_backward_idem. reflexivity.
Qed.

Lemma handleHistoryImageMessages_split (earlier later : list Message) (m : Message) :
  is_user m = true ->
  Forall (fun x => is_user x = false) later ->
  handleHistoryImageMessages (earlier ++ m :: later)
  = map prune_earlier earlier ++ m :: later.
Proof.
  intros Hm Hl. unfold handleHistoryImageMessages.
  rewrite rev_app_distr. simpl. rewrite <- app_assoc. simpl.
  rewrite prune_backward_split.
  - rewrite rev_app_distr. simpl. rewrite rev_involutive, <- app_assoc.
    rewrite <- map_rev, rev_involutive. reflexivity.
  - apply List.Forall_rev. exact Hl.
  - exact Hm.
Qed.

Lemma handleHistoryImageMessages_no_user (messages : list Message) :
  Forall (fun x => is_user x = false) messages ->
  handleHistoryImageMessages messages = messages.
Proof.
  intros H. unfold handleHistoryImageMessages.
  rewrite prune_backward_no_user.
  - apply rev_involutive.
  - apply List.Forall_rev. exact H.
Qed.

Lemma filter_no_image_clean (c : list Block) :
  Forall (fun x => is_image x = false) (List.filter (fun x => negb (is_image x)) c).
Proof.
  induction c as [|x c IH]; simpl; [constructor|].
  destruct (is_image x) eqn:E; simpl; [exact IH|].
  constructor; [exact E | exact IH].
Qed.

End ImagePruning.

(** ** Insertion-ordered maps: proofs *)

Section JsMapFacts.
Context {V : Type}.

Lemma assoc_get_app_None (k : string) (l1 l2 : list (string * V)) :
  assoc_get k l1 = None -> assoc_get k (l1 ++ l2) = assoc_get k l2.
Proof.
  induction l1 as [|[k' v'] l1 IH]; simpl; [reflexivity|].
  destruct (String.eqb k' k); [discriminate|exact IH].
Qed.

Lemma assoc_get_None_notin (k : string) (l : list (string * V)) :
  assoc_get k l = None <-> ~ In k (map fst l).
Proof.
  induction l as [|[k' v'] l IH]; simpl; [tauto|].
  destruct (String.eqb_spec k' k) as [->|Hne].
  - split; [discriminate|]. intros H. exfalso. apply H. left. reflexivity.
  - rewrite IH. split.
    + intros H [H1|H1]; [congruence|tauto].
    + intros H H1. apply H. right. exact H1.
Qed.

(** Setting a key the map does not hold appends the entry. *)
Lemma set_fresh (k : string) (v : V) (m : JsMap.t V) :
  ~ In k (JsMap.keys m) -> JsMap.set k v m = m ++ [(k, v)].
Proof.
  unfold JsMap.keys. induction m as [|[k' v'] m IH]; simpl; intros H; [reflexivity|].
  destruct (String.eqb_spec k' k) as [->|Hne].
  - exfalso. apply H. left. reflexivity.
  - rewrite IH; [reflexivity|]. intros H1. apply H. right. exact H1.
Qed.

(** Setting a key the map holds keeps every position. *)
Lemma set_keys_present (k : string) (v : V) (m : JsMap.t V) :
  In k (JsMap.keys m) -> JsMap.keys (JsMap.set k v m) = JsMap.keys m.
Proof.
  unfold JsMap.keys. induction m as [|[k' v'] m IH]; simpl; intros H; [tauto|].
  destruct (String.eqb_spec k' k) as [->|Hne]; simpl; [reflexivity|].
  rewrite IH; [reflexivity|]. destruct H as [H|H]; [congruence|exact H].
Qed.

Lemma get_set_same (k : string) (v : V) (m : JsMap.t V) :
  JsMap.get k (JsMap.set k v m) = Some v.
Proof.
  unfold JsMap.get. induction m as [|[k' v'] m IH]; simpl.
  - rewrite String.eqb_refl. reflexivity.
  - destruct (String.eqb k' k) eqn:E; simpl.
    + rewrite String.eqb_refl. reflexivity.
    + rewrite E. exact IH.
Qed.

Lemma get_set_other (k k' : string) (v : V) (m : JsMap.t V) :
  k <> k' -> JsMap.get k' (JsMap.set k v m) = JsMap.get k' m.
Proof.
  intros Hne. unfold JsMap.get. induction m as [|[k0 v0] m IH]; simpl.
  - destruct (String.eqb_spec k k'); [congruence|reflexivity].
  - destruct (String.eqb_spec k0 k) as [->|Hk]; simpl.
    + destruct (String.eqb_spec k k'); [congruence|reflexivity].
    + destruct (String.eqb k0 k'); [reflexivity|exact IH].
Qed.


End JsMapFacts.

(** ** Steps of a run: proofs *)

Lemma cached_app (a b : list Event) : cached (a ++ b) = cached a ++ cached b.
Proof.
  induction a as [|e a IH]; simpl; [reflexivity|].
  destruct e; simpl; rewrite ?IH; reflexivity.
Qed.

Lemma regular_counts_app (a b : list Event) :
  regular_counts (a ++ b) = regular_counts a ++ regular_counts b.
Proof.
  induction a as [|e a IH]; simpl; [reflexivity|].
  destruct e as [[|] n o r| | | | | |]; simpl; rewrite ?IH; reflexivity.
Qed.

Lemma regular_counts_inside (evs : list Event) :
  Forall (fun e => inside_round e = true) evs -> regular_counts evs = [].
Proof.
  induction 1 as [|e evs He _ IH]; simpl; [reflexivity|].
  destruct e as [[|] n o r| | | | | |]; simpl in *; try discriminate; exact IH.
Qed.

Lemma filter_inside (f : Event -> bool) (evs : list Event) :
  (forall e, f e = true -> inside_round e = false) ->
  Forall (fun e => inside_round e = true) evs -> List.filter f evs = [].
Proof.
  intros Hf. induction 1 as [|e evs He _ IH]; simpl; [reflexivity|].
  destruct (f e) eqn:E; [|exact IH].
  apply Hf in E. congruence.
Qed.

Section RunFacts.
Context {W : Type}.
Implicit Types (st : State W) (ctx : ExecutionContext W).
Implicit Types (callback : option (Hooks W)) (tool : Tool W) (this : ActionImpl W).

Lemma same_run_data_refl st : same_run_data st st.
Proof. repeat split. Qed.

Lemma same_run_data_trans st1 st2 st3 :
  same_run_data st1 st2 -> same_run_data st2 st3 -> same_run_data st1 st3.
Proof. intros (?&?&?) (?&?&?). repeat split; congruence. Qed.

Lemma same_run_data_abort_listener st : same_run_data st (abort_listener st).
Proof. unfold abort_listener. destruct (aborted st); repeat split. Qed.

Lemma keeps_ret {A : Type} (a : A) : keeps (W := W) (ret a).
Proof. intros st r st' H. inversion H. apply same_run_data_refl. Qed.

Lemma keeps_of_result {A : Type} (x : Thrown + A) : keeps (W := W) (of_result x).
Proof. intros st r st' H. inversion H. apply same_run_data_refl. Qed.

Lemma keeps_get_state : keeps (@get_state W).
Proof. intros st r st' H. inversion H. apply same_run_data_refl. Qed.

Lemma keeps_bind {A B : Type} (m : M W A) (k : A -> M W B) :
  keeps m -> (forall a, keeps (k a)) -> keeps (bind m k).
Proof.
  intros Hm Hk st r st' H. unfold bind in H.
  destruct (m st) as [[e|a] st1] eqn:E.
  - inversion H; subst. exact (Hm _ _ _ E).
  - eapply same_run_data_trans; [exact (Hm _ _ _ E)|exact (Hk _ _ _ _ H)].
Qed.

Lemma keeps_await {A : Type} (f : Async W A) : keeps (await f).
Proof.
  intros st r st' H. unfold await in H.
  destruct (f (context st) (world st)) as [[r0 ctx] w]. inversion H; subst.
  eapply same_run_data_trans; [|apply same_run_data_abort_listener].
  repeat split.
Qed.

Lemma keeps_update_context (f : ExecutionContext W -> ExecutionContext W) :
  keeps (W := W) (update (fun st => with_context (f (context st)) st)).
Proof. intros st r st' H. inversion H. repeat split. Qed.

Lemma keeps_run_beforeToolUse callback tool input :
  keeps (run_beforeToolUse callback tool input).
Proof.
  unfold run_beforeToolUse. destruct callback as [hooks|]; [|apply keeps_ret].
  destruct (beforeToolUse hooks); [|apply keeps_ret].
  apply keeps_bind; [apply keeps_await|intros; apply keeps_ret].
Qed.

Lemma keeps_run_afterToolUse callback tool result :
  keeps (run_afterToolUse callback tool result).
Proof.
  unfold run_afterToolUse. destruct callback as [hooks|]; [|apply keeps_ret].
  destruct (afterToolUse hooks); [|apply keeps_ret].
  apply keeps_bind; [apply keeps_await|intros; apply keeps_ret].
Qed.

Lemma keeps_notify_thinking callback thinking :
  keeps (notify_thinking callback thinking).
Proof.
  unfold notify_thinking. destruct (truthy thinking); [|apply keeps_ret].
  destruct callback as [hooks|]; [|apply keeps_ret].
  destruct (onLlmMessage hooks); [apply keeps_await|apply keeps_ret].
Qed.

Lemma keeps_notify_userSidePrompt callback userSidePrompt toolName :
  keeps (notify_userSidePrompt callback userSidePrompt toolName).
Proof.
  unfold notify_userSidePrompt. destruct (truthy userSidePrompt); [|apply keeps_ret].
  destruct callback as [hooks|]; [|apply keeps_ret].
  destruct (onLlmMessageUserSidePrompt hooks); [apply keeps_await|apply keeps_ret].
Qed.

Lemma keeps_call {A : Type} (f : W -> (Thrown + A) * W) : keeps (call f).
Proof.
  intros st r st' H. unfold call in H. destruct (f (world st)) as [r0 w].
  inversion H; subst. repeat split.
Qed.

Lemma keeps_throw {A : Type} (e : Thrown) : keeps (W := W) (@throw W A e).
Proof. intros st r st' H. inversion H. apply same_run_data_refl. Qed.

Lemma keeps_query_tabs : keeps (@query_tabs W).
Proof.
  unfold query_tabs. apply keeps_bind; [apply keeps_get_state|]. intros st0.
  destruct (chromeProxy (context st0)) as [proxy|]; [|apply keeps_throw].
  apply keeps_bind; [apply keeps_call|]. intros currentWindow.
  apply keeps_bind; [apply keeps_of_result|]. intros windowId.
  apply keeps_bind; [apply keeps_call|]. intros existingTabs. apply keeps_ret.
Qed.

Lemma bind_inv {A B : Type} (m : M W A) (k : A -> M W B) st r st' :
  bind m k st = (r, st') ->
  (exists e, m st = (inl e, st') /\ r = inl e)
  \/ (exists a st1, m st = (inr a, st1) /\ k a st1 = (r, st')).
Proof.
  unfold bind. destruct (m st) as [[e|a] st1]; intros H.
  - left. exists e. inversion H; subst. split; reflexivity.
  - right. exists a, st1. split; [reflexivity|exact H].
Qed.

Lemma truncate_text (result logged : JsValue) :
  truncate result = inr logged -> exists s, stringified result = VStr s.
Proof.
  unfold truncate, stringified. destruct (JSON_stringify result) as [s|]; [|discriminate].
  intros _. exists s. reflexivity.
Qed.

(** The cached text of a result that was logged is a string. *)
Lemma resultContentText_string (result logged : JsValue) :
  truncate result = inr logged -> exists s, resultContentText result = VStr s.
Proof.
  intros H. unfold resultContentText.
  destruct (result_has_image result).
  - destruct (truthy (result_prop result "text")); eexists; reflexivity.
  - exact (truncate_text _ _ H).
Qed.

(** What one invocation leaves behind: either nothing is logged or
    cached (the invocation was skipped, or something threw before the
    result was logged), or the result is logged and, unless the tool
    is the finish tool, its full text is cached under the invocation id. *)
Lemma tool_try_spec callback (tool : Tool W) (toolCall : ToolCall) st r st' :
  tool_try callback tool toolCall st = (r, st') ->
  defs st' = defs st /\
  ((toolResults st' = toolResults st /\ trace st' = trace st /\
    (r = inr (skipMessage toolCall) \/ exists e, r = inl e))
   \/
   (exists result logged,
       truncate result = inr logged /\
       r = inr (mkMessage user (CArr [resultContent (tc_id toolCall) result])) /\
       if String.eqb (tool_name tool) "return_output"
       then toolResults st' = toolResults st /\
            trace st' = trace st ++ [EvToolDone (tool_name tool) logged]
       else toolResults st'
            = JsMap.set (tc_id toolCall) (resultContentText result) (toolResults st) /\
            trace st' = trace st ++ [EvToolDone (tool_name tool) logged;
                                     EvCached (tc_id toolCall) (resultContentText result)])).
Proof.
  unfold tool_try. intros H.
  apply bind_inv in H as [(e & H1 & ->)|(u & st1 & H1 & H)].
  { inversion H1. }
  pose proof (keeps_update_context (set_skip false) _ _ _ H1) as K1. clear H1.
  apply bind_inv in H as [(e & H1 & ->)|(input & st2 & H1 & H)].
  { pose proof (keeps_run_beforeToolUse _ _ _ _ _ _ H1) as K2.
    destruct (same_run_data_trans _ _ _ K1 K2) as (?&?&?).
    split; [assumption|]. left. repeat split; eauto. }
  pose proof (keeps_run_beforeToolUse _ _ _ _ _ _ H1) as K2. clear H1.
  pose proof (same_run_data_trans _ _ _ K1 K2) as K. clear K1 K2.
  apply bind_inv in H as [(e & H1 & ->)|(st2' & st3 & H1 & H)].
  { inversion H1. }
  inversion H1; subst st2' st3. clear H1.
  destruct (__skip (context st2) || __abort (context st2) || aborted st2).
  { inversion H; subst. destruct K as (?&?&?).
    split; [assumption|]. left. repeat split; eauto. }
  apply bind_inv in H as [(e & H1 & ->)|(unwrapped & st3 & H1 & H)].
  { inversion H1; subst. destruct K as (?&?&?).
    split; [assumption|]. left. repeat split; eauto. }
  inversion H1; subst st3. clear H1. simpl tc_id in *. simpl tc_name in *.
  apply bind_inv in H as [(e & H1 & ->)|(u1 & st3 & H1 & H)].
  { pose proof (keeps_notify_thinking _ _ _ _ _ H1) as K2.
    destruct (same_run_data_trans _ _ _ K K2) as (?&?&?).
    split; [assumption|]. left. repeat split; eauto. }
  pose proof (keeps_notify_thinking _ _ _ _ _ H1) as K2. clear H1.
  pose proof (same_run_data_trans _ _ _ K K2) as K'. clear K K2.
  apply bind_inv in H as [(e & H1 & ->)|(u2 & st4 & H1 & H)].
  { pose proof (keeps_notify_userSidePrompt _ _ _ _ _ _ H1) as K2.
    destruct (same_run_data_trans _ _ _ K' K2) as (?&?&?).
    split; [assumption|]. left. repeat split; eauto. }
  pose proof (keeps_notify_userSidePrompt _ _ _ _ _ _ H1) as K2. clear H1.
  pose proof (same_run_data_trans _ _ _ K' K2) as K. clear K' K2.
  apply bind_inv in H as [(e & H1 & ->)|(result0 & st5 & H1 & H)].
  { pose proof (keeps_await _ _ _ _ H1) as K2.
    destruct (same_run_data_trans _ _ _ K K2) as (?&?&?).
    split; [assumption|]. left. repeat split; eauto. }
  pose proof (keeps_await _ _ _ _ H1) as K2. clear H1.
  pose proof (same_run_data_trans _ _ _ K K2) as K'. clear K K2.
  apply bind_inv in H as [(e & H1 & ->)|(result & st6 & H1 & H)].
  { pose proof (keeps_run_afterToolUse _ _ _ _ _ _ H1) as K2.
    destruct (same_run_data_trans _ _ _ K' K2) as (?&?&?).
    split; [assumption|]. left. repeat split; eauto. }
  pose proof (keeps_run_afterToolUse _ _ _ _ _ _ H1) as K2. clear H1.
  pose proof (same_run_data_trans _ _ _ K' K2) as K. clear K' K2.
  apply bind_inv in H as [(e & H1 & ->)|(logged & st7 & H1 & H)].
  { inversion H1; subst. destruct K as (?&?&?).
    split; [assumption|]. left. repeat split; eauto. }
  inversion H1 as [[Ht Hs]]. subst st7. clear H1.
  destruct K as (Kd & Kr & Kt).
  apply bind_inv in H as [(e & H1 & ->)|(u3 & st7 & H1 & H)].
  { inversion H1. }
  inversion H1; subst st7. clear H1.
  apply bind_inv in H as [(e & H1 & ->)|(u4 & st8 & H1 & H)].
  { unfold store_result in H1.
    destruct (negb (String.eqb (tool_name tool) "return_output")); inversion H1. }
  unfold store_result in H1.
  split.
  - destruct (negb (String.eqb (tool_name tool) "return_output"));
      inversion H1; subst st8; inversion H; subst; simpl; exact Kd.
  - right. exists result, logged. split; [exact Ht|].
    destruct (String.eqb (tool_name tool) "return_output"); simpl in H1;
      inversion H1; subst st8; inversion H; subst; simpl.
    + split; [reflexivity|]. split; [exact Kr|]. rewrite Kt. reflexivity.
    + split; [reflexivity|]. split; [rewrite Kr; reflexivity|].
      rewrite Kt, <- app_assoc. reflexivity.
Qed.

Lemma replay_app (a b : list Event) (m : JsMap.t JsValue) :
  replay (a ++ b) m = replay b (replay a m).
Proof. unfold replay. rewrite cached_app, fold_left_app. reflexivity. Qed.

Lemma advances_refl st : advances [] st st.
Proof.
  repeat split; [symmetry; apply app_nil_r | constructor].
Qed.

Lemma advances_trans evs1 evs2 st1 st2 st3 :
  advances evs1 st1 st2 -> advances evs2 st2 st3 -> advances (evs1 ++ evs2) st1 st3.
Proof.
  intros (T1 & R1 & S1) (T2 & R2 & S2). repeat split.
  - rewrite T2, T1, <- app_assoc. reflexivity.
  - rewrite R2, R1, replay_app. reflexivity.
  - unfold texts_are_strings in *. rewrite cached_app. apply Forall_app. split; assumption.
Qed.

Lemma advances_same evs st1 st2 st2' :
  same_run_data st2 st2' -> advances evs st1 st2 -> advances evs st1 st2'.
Proof.
  intros (_ & R & T) (T1 & R1 & S1). repeat split; [congruence|congruence|exact S1].
Qed.

Lemma advances_record (e : Event) st :
  cached [e] = [] -> advances [e] st (record e st).
Proof.
  intros H. repeat split.
  - unfold replay. rewrite H. reflexivity.
  - unfold texts_are_strings. rewrite H. constructor.
Qed.

(** One invocation, with its [catch]. *)
Lemma run_tool_advances callback (tool : Tool W) (toolCall : ToolCall) st m st' :
  run_tool callback tool toolCall st = (m, st') ->
  defs st' = defs st /\
  exists evs, advances evs st st' /\ Forall (fun e => inside_round e = true) evs.
Proof.
  unfold run_tool. destruct (tool_try callback tool toolCall st) as [r st1] eqn:E.
  intros H. assert (st1 = st') as -> by (destruct r; inversion H; reflexivity).
  clear H. apply tool_try_spec in E as (Hd & [(Hr & Ht & _)|(result & logged & Htr & _ & Hc)]).
  - split; [exact Hd|]. exists []. split; [|constructor].
    repeat split; [rewrite Ht; symmetry; apply app_nil_r | exact Hr | constructor].
  - split; [exact Hd|]. destruct (String.eqb (tool_name tool) "return_output").
    + destruct Hc as (Hr & Ht). exists [EvToolDone (tool_name tool) logged].
      split; [|repeat constructor].
      repeat split; [exact Ht | exact Hr | constructor].
    + destruct Hc as (Hr & Ht).
      exists [EvToolDone (tool_name tool) logged;
              EvCached (tc_id toolCall) (resultContentText result)].
      split; [|repeat constructor].
      repeat split; [exact Ht | exact Hr |].
      unfold texts_are_strings. simpl. constructor; [|constructor].
      simpl. exact (resultContentText_string _ _ Htr).
Qed.

Lemma inside_steps_refl st : inside_steps st st.
Proof. split; [reflexivity|]. exists []. split; [apply advances_refl|constructor]. Qed.

Lemma inside_steps_trans st1 st2 st3 :
  inside_steps st1 st2 -> inside_steps st2 st3 -> inside_steps st1 st3.
Proof.
  intros (D1 & evs1 & A1 & F1) (D2 & evs2 & A2 & F2). split; [congruence|].
  exists (evs1 ++ evs2). split; [eapply advances_trans; eassumption|].
  apply Forall_app. split; assumption.
Qed.

Lemma inside_steps_same st st' :
  defs st' = defs st -> same_run_data st st' -> inside_steps st st'.
Proof.
  intros Hd Hs. split; [exact Hd|]. exists []. split; [|constructor].
  eapply advances_same; [exact Hs|apply advances_refl].
Qed.

Lemma inside_steps_run_tool callback (tool : Tool W) (toolCall : ToolCall) st :
  inside_steps st (snd (run_tool callback tool toolCall st)).
Proof.
  destruct (run_tool callback tool toolCall st) as [m st'] eqn:E.
  apply run_tool_advances in E. exact E.
Qed.

Lemma inside_steps_abandon callback (tool : Tool W) (toolCall : ToolCall) st :
  inside_steps st (abandon callback tool toolCall st).
Proof. apply inside_steps_same; repeat split. Qed.

Lemma inside_steps_settle_one (i : nat) st : inside_steps st (settle_one i st).
Proof.
  unfold settle_one. destruct (abandoned st !! i) as [[[callback tool] toolCall]|];
    [|apply inside_steps_refl].
  eapply inside_steps_trans; [|apply inside_steps_run_tool].
  apply inside_steps_same; repeat split.
Qed.

Lemma inside_steps_settle (which : list nat) st : inside_steps st (settle which st).
Proof.
  unfold settle. revert st. induction which as [|i which IH]; intros st; simpl.
  - apply inside_steps_refl.
  - eapply inside_steps_trans; [apply inside_steps_settle_one|apply IH].
Qed.

Lemma inside_steps_stream (attempt : StreamAttempt) (w : W) st :
  exists evs,
    defs (stream_state attempt w st) = defs st /\
    advances (EvStream attempt :: evs) st (stream_state attempt w st) /\
    Forall (fun e => inside_round e = true) evs.
Proof.
  unfold stream_state.
  set (st1 := abort_listener (record (EvStream attempt) (with_world w st))).
  assert (A1 : advances [EvStream attempt] st st1).
  { eapply advances_same; [apply same_run_data_abort_listener|].
    repeat split. constructor. }
  assert (D1 : defs st1 = defs st).
  { unfold st1, abort_listener. destruct (aborted _); reflexivity. }
  destruct (inside_steps_settle (settled_early attempt) st1) as (D2 & evs & A2 & F2).
  exists evs. split; [congruence|]. split; [|exact F2].
  exact (advances_trans _ _ _ _ _ A1 A2).
Qed.

(** The retry loop of a round takes only steps that belong to the
    round and never touches the store of definitions. *)
Lemma round_loop_advances fuel this callback params_copy toolMap resp has messages st
      out messages' st' :
  round_loop fuel this callback params_copy toolMap resp has messages st
  = (out, messages', st') ->
  defs st' = defs st /\
  exists evs, advances evs st st' /\ Forall (fun e => inside_round e = true) evs.
Proof.
  change (round_loop fuel this callback params_copy toolMap resp has messages st
          = (out, messages', st') -> inside_steps st st').
  revert resp has messages st.
  induction fuel as [|fuel IH]; intros resp has messages st H; simpl in H.
  { inversion H; subst. apply inside_steps_refl. }
  destruct (aborted st).
  { inversion H; subst. apply inside_steps_refl. }
  destruct (llmProvider this) as [provider|].
  2:{ inversion H; subst. apply inside_steps_refl. }
  destruct (generateStream provider _ _ _ _) as [attempt w].
  set (st1 := stream_state attempt w st) in *.
  assert (S1 : inside_steps st st1).
  { destruct (inside_steps_stream attempt w st) as (evs & D & A & F).
    split; [exact D|]. exists (EvStream attempt :: evs).
    split; [exact A|]. constructor; [reflexivity|exact F]. }
  assert (Hstop : forall o ms, (o, ms, st1) = (out, messages', st') ->
                               inside_steps st st').
  { intros o ms Heq. inversion Heq; subst st'. exact S1. }
  assert (Hretry : forall r h,
            round_loop fuel this callback params_copy toolMap r h
              (handleHistoryImageMessages messages) st1 = (out, messages', st') ->
            inside_steps st st').
  { intros r h Heq. apply IH in Heq. eapply inside_steps_trans; eassumption. }
  destruct (invocation attempt) as [toolCall|].
  2:{ destruct (stream_error attempt); [eapply Hretry|eapply Hstop]; exact H. }
  destruct (JsMap.get (tc_name toolCall) toolMap) as [tool|].
  2:{ destruct (awaits_handler attempt); [eapply Hretry; exact H|].
      destruct (stream_error attempt); [eapply Hretry|eapply Hstop]; exact H. }
  destruct (stream_error attempt && in_flight attempt).
  { apply IH in H. eapply inside_steps_trans; [exact S1|].
    eapply inside_steps_trans; [apply inside_steps_abandon|exact H]. }
  pose proof (inside_steps_run_tool callback tool toolCall st1) as S2.
  destruct (run_tool callback tool toolCall st1) as [toolResultMessage st2].
  simpl in S2.
  pose proof (inside_steps_settle (settled_late attempt) st2) as S3.
  assert (S : inside_steps st (settle (settled_late attempt) st2)).
  { eapply inside_steps_trans; [exact S1|]. eapply inside_steps_trans; eassumption. }
  destruct (stream_error attempt).
  - apply IH in H. eapply inside_steps_trans; eassumption.
  - inversion H; subst st'. exact S.
Qed.

End RunFacts.

(** ** The store of tool definitions: proofs *)

Section StoreFacts.
Implicit Types (store : DefStore) (d : ToolDefinition).

Lemma wrapToolInputSchema_frame (r : nat) store :
  fst (wrapToolInputSchema r store) = r /\
  length (snd (wrapToolInputSchema r store)) = length store /\
  forall j, j <> r -> snd (wrapToolInputSchema r store) !! j = store !! j.
Proof.
  unfold wrapToolInputSchema. destruct (store !! r) as [d|]; simpl.
  - split; [reflexivity|]. split; [apply length_insert|].
    intros j Hj. apply list_lookup_insert_ne. congruence.
  - repeat split.
Qed.

(** Wrapping in place: the definition object is the same object, with
    the envelope around its former schema. *)
Lemma wrapToolInputSchema_at (pre post : list ToolDefinition) d :
  wrapToolInputSchema (length pre) (pre ++ d :: post)
  = (length pre, pre ++ wrap_definition d :: post).
Proof.
  unfold wrapToolInputSchema.
  rewrite list_lookup_middle by reflexivity.
  f_equal. rewrite insert_app_r_alt by lia.
  rewrite Nat.sub_diag. reflexivity.
Qed.

Lemma map_wrap_fresh (pre ds : list ToolDefinition) :
  map_wrap (seq (length pre) (length ds)) (pre ++ ds)
  = (seq (length pre) (length ds), pre ++ map wrap_definition ds).
Proof.
  revert pre. induction ds as [|d ds IH]; intros pre; simpl; [reflexivity|].
  rewrite wrapToolInputSchema_at.
  replace (pre ++ wrap_definition d :: ds) with ((pre ++ [wrap_definition d]) ++ ds)
    by (rewrite <- app_assoc; reflexivity).
  replace (S (length pre)) with (length (pre ++ [wrap_definition d]))
    by (rewrite length_app; simpl; lia).
  rewrite IH. rewrite <- app_assoc. simpl.
  rewrite length_app. simpl. rewrite Nat.add_1_r. reflexivity.
Qed.

Lemma omap_lookup_fresh (pre ds : list ToolDefinition) :
  omap (fun r => (pre ++ ds) !! r) (seq (length pre) (length ds)) = ds.
Proof.
  revert pre. induction ds as [|d ds IH]; intros pre; simpl; [reflexivity|].
  rewrite list_lookup_middle by reflexivity. f_equal.
  replace (pre ++ d :: ds) with ((pre ++ [d]) ++ ds)
    by (rewrite <- app_assoc; reflexivity).
  replace (S (length pre)) with (length (pre ++ [d]))
    by (rewrite length_app; simpl; lia).
  apply IH.
Qed.

Lemma omap_lookup_old (refs : list nat) (store extra : list ToolDefinition) :
  Forall (fun r => r < length store) refs ->
  omap (fun r => (store ++ extra) !! r) refs = omap (fun r => store !! r) refs.
Proof.
  induction 1 as [|r refs Hr _ IH]; simpl; [reflexivity|].
  rewrite lookup_app_l by exact Hr. unfold omap in IH. rewrite IH. reflexivity.
Qed.

(** Lines 97-98 as a whole: the store is extended by the wrapped
    copies and the copy of the parameters refers to them. *)
Lemma make_params_copy_spec (params : LLMParameters) store :
  exists copies,
    copies = map (fun d => wrap_definition (clone_definition d))
                 (default [] (resolve_tools params store)) /\
    snd (make_params_copy params store)
    = store ++ (match params_tools params with Some _ => copies | None => [] end) /\
    resolve_tools (fst (make_params_copy params store)) (snd (make_params_copy params store))
    = (match params_tools params with Some _ => Some copies | None => None end).
Proof.
  eexists. split; [reflexivity|].
  unfold make_params_copy, deep_copy_params, resolve_tools.
  destruct (params_tools params) as [refs|]; simpl.
  - rewrite length_map.
    set (ds := omap (fun r => store !! r) refs).
    replace (length ds) with (length (map clone_definition ds)) by apply length_map.
    rewrite map_wrap_fresh. simpl. rewrite map_map. split; [reflexivity|].
    f_equal.
    replace (length (map clone_definition ds))
      with (length (map (fun d => wrap_definition (clone_definition d)) ds))
      by (rewrite !length_map; reflexivity).
    apply omap_lookup_fresh.
  - rewrite app_nil_r. split; reflexivity.
Qed.

End StoreFacts.

(** ** The loop of [execute]: proofs *)

Lemma count_app (f : Event -> bool) (a b : list Event) :
  count f (a ++ b) = count f a + count f b.
Proof. unfold count. rewrite List.filter_app, length_app. reflexivity. Qed.

Lemma count_inside (f : Event -> bool) (evs : list Event) :
  (forall e, f e = true -> inside_round e = false) ->
  Forall (fun e => inside_round e = true) evs -> count f evs = 0.
Proof. intros Hf H. unfold count. rewrite (filter_inside f evs Hf H). reflexivity. Qed.

Lemma is_round_outside e : is_round e = true -> inside_round e = false.
Proof. destruct e; simpl; congruence. Qed.

Lemma is_regular_outside e : is_regular e = true -> inside_round e = false.
Proof. destruct e as [[|] ? ? ?| | | | | |]; simpl; congruence. Qed.

Lemma is_finish_only_outside e : is_finish_only e = true -> inside_round e = false.
Proof. destruct e as [[|] ? ? ?| | | | | |]; simpl; congruence. Qed.

Lemma is_commit_outside e : is_commit e = true -> inside_round e = false.
Proof. destruct e; simpl; congruence. Qed.

Lemma count_regular_counts (evs : list Event) :
  count is_regular evs = length (regular_counts evs).
Proof.
  unfold count. induction evs as [|e evs IH]; simpl; [reflexivity|].
  destruct e as [[|] ? ? ?| | | | | |]; simpl; rewrite ?IH; reflexivity.
Qed.

Lemma count_round_split (evs : list Event) :
  count is_round evs = count is_regular evs + count is_finish_only evs.
Proof.
  unfold count. induction evs as [|e evs IH]; simpl; [reflexivity|].
  destruct e as [[|] ? ? ?| | | | | |]; simpl; rewrite ?IH; lia.
Qed.

Section LoopFacts.
Context {W : Type}.
Implicit Types (st : State W).

Lemma executeSingleRound_advances fuel (this : ActionImpl W) callback messages params
      toolMap st out messages' st' :
  executeSingleRound fuel this callback messages params toolMap st
  = (out, messages', st') ->
  exists evs, advances evs st st' /\ Forall (fun e => inside_round e = true) evs.
Proof.
  unfold executeSingleRound.
  destruct (make_params_copy params (defs st)) as [params_copy store].
  intros H. apply round_loop_advances in H as (_ & evs & Ha & Hf).
  exists evs. split; [|exact Hf].
  destruct Ha as (T & R & S). repeat split; assumption.
Qed.

(** The history a round hands back is the history it was given,
    possibly after the pruning pass. *)
Lemma round_loop_history fuel (this : ActionImpl W) callback params_copy toolMap resp has
      messages st out messages' st' :
  round_loop fuel this callback params_copy toolMap resp has messages st
  = (out, messages', st') ->
  messages' = messages \/ messages' = handleHistoryImageMessages messages.
Proof.
  revert resp has messages st.
  induction fuel as [|fuel IH]; intros resp has messages st H; simpl in H.
  { inversion H; subst. left. reflexivity. }
  destruct (aborted st); [inversion H; subst; left; reflexivity|].
  destruct (llmProvider this) as [provider|];
    [|inversion H; subst; right; reflexivity].
  destruct (generateStream provider _ _ _ _) as [attempt w].
  assert (Hretry : forall r h s,
            round_loop fuel this callback params_copy toolMap r h
              (handleHistoryImageMessages messages) s = (out, messages', st') ->
            messages' = messages \/ messages' = handleHistoryImageMessages messages).
  { intros r h s Heq. apply IH in Heq as [->| ->]; right; [reflexivity|].
    apply handleHistoryImageMessages_idem. }
  destruct (invocation attempt) as [toolCall|].
  2:{ destruct (stream_error attempt); [eapply Hretry; exact H|].
      inversion H; subst. right. reflexivity. }
  destruct (JsMap.get (tc_name toolCall) toolMap) as [tool|].
  2:{ destruct (awaits_handler attempt); [eapply Hretry; exact H|].
      destruct (stream_error attempt); [eapply Hretry; exact H|].
      inversion H; subst. right. reflexivity. }
  destruct (stream_error attempt && in_flight attempt); [eapply Hretry; exact H|].
  destruct (run_tool callback tool toolCall _) as [toolResultMessage st2].
  destruct (stream_error attempt); [eapply Hretry; exact H|].
  inversion H; subst. right. reflexivity.
Qed.

Lemma offered_names_finish_only (returnTool : Tool W) (settings : JsValue)
      (store : list ToolDefinition) st' :
  defs st' = store ++ [definition_of returnTool] ->
  offered_names
    (mkParams settings (Some (seq (length store) (length [definition_of returnTool]))))
    st'
  = [tool_name returnTool].
Proof.
  intros Hd. unfold offered_names, resolve_tools. simpl. rewrite Hd.
  pose proof (omap_lookup_fresh store [definition_of returnTool]) as H.
  simpl in H. unfold omap in H. rewrite H. reflexivity.
Qed.

(** The steps of a finish-only round: the instruction, the call with
    the finish tool alone on offer and alone in the registry, the
    steps inside the round and, if the round returns, its commit. *)
Lemma finish_only_round_steps fuel (this : ActionImpl W) callback returnTool params
      roundCount instruction messages st out st' :
  finish_only_round fuel this callback returnTool params roundCount instruction
    messages st = (out, st') ->
  exists inner tail,
    advances
      (EvInstruction instruction
       :: EvRound FinishOnly roundCount [tool_name returnTool] [tool_name returnTool]
       :: inner ++ tail) st st' /\
    Forall (fun e => inside_round e = true) inner /\
    match out with
    | Returned history =>
        exists final before,
          tail = [EvCommit final] /\
          history = before ++ roundMessages final /\
          (before = messages ++ [mkMessage user (CStr instruction)] \/
           before = handleHistoryImageMessages
                      (messages ++ [mkMessage user (CStr instruction)]))
    | _ => tail = []
    end.
Proof.
  unfold finish_only_round, alloc_definitions. cbv beta iota zeta.
  erewrite offered_names_finish_only by reflexivity.
  change (JsMap.keys (JsMap.set (tool_name returnTool) returnTool JsMap.empty))
    with [tool_name returnTool].
  set (st0 := record (EvRound FinishOnly roundCount [tool_name returnTool]
                        [tool_name returnTool]) _).
  destruct (executeSingleRound _ _ _ _ _ _ st0) as [[o messages1] st1] eqn:E.
  assert (Hh : messages1 = messages ++ [mkMessage user (CStr instruction)] \/
               messages1 = handleHistoryImageMessages
                             (messages ++ [mkMessage user (CStr instruction)])).
  { unfold executeSingleRound in E.
    destruct (make_params_copy _ _) as [pc store].
    exact (round_loop_history _ _ _ _ _ _ _ _ _ _ _ _ E). }
  apply executeSingleRound_advances in E as (inner & Ha & Hf).
  assert (A0 : advances
                 [EvInstruction instruction;
                  EvRound FinishOnly roundCount [tool_name returnTool]
                    [tool_name returnTool]] st st0).
  { split; [unfold st0; simpl; rewrite <- app_assoc; reflexivity|].
    split; [reflexivity|constructor]. }
  pose proof (advances_trans _ _ _ _ _ A0 Ha) as A1. simpl in A1.
  intros H. destruct o as [final|e|]; inversion H; subst.
  - exists inner, [EvCommit final]. split; [|split; [exact Hf|]].
    + pose proof (advances_trans _ _ _ _ _ A1
                    (advances_record (EvCommit final) st1 eq_refl)) as A2.
      simpl in A2. exact A2.
    + exists final, messages1. split; [reflexivity|split; [reflexivity|exact Hh]].
  - exists inner, []. rewrite app_nil_r. split; [exact A1|split; [exact Hf|reflexivity]].
  - exists inner, []. rewrite app_nil_r. split; [exact A1|split; [exact Hf|reflexivity]].
Qed.

Lemma loop_shape_nil max n : loop_shape max n [].
Proof.
  split; [exists 0; split; [reflexivity|lia]|].
  split; [unfold count; simpl; lia|].
  split; [unfold count; simpl; lia|reflexivity].
Qed.

(** A regular round and what follows it, when no further regular
    round follows. *)
Lemma loop_shape_last max n o r (inner rest : list Event) :
  n < max ->
  Forall (fun e => inside_round e = true) inner ->
  regular_counts rest = [] ->
  count is_finish_only rest <= 1 ->
  count is_commit rest <= count is_round rest + 1 ->
  loop_shape max n (EvRound Regular (S n) o r :: inner ++ rest).
Proof.
  intros Hn Hin Hreg Hfin Hcom.
  change (EvRound Regular (S n) o r :: inner ++ rest)
    with ([EvRound Regular (S n) o r] ++ inner ++ rest).
  split; [|split; [|split]].
  - exists 1. rewrite !regular_counts_app, (regular_counts_inside _ Hin), Hreg.
    split; [reflexivity|lia].
  - rewrite !count_app, (count_inside _ _ is_finish_only_outside Hin).
    unfold count at 1. simpl. lia.
  - rewrite !count_app, (count_inside _ _ is_commit_outside Hin),
      (count_inside _ _ is_round_outside Hin).
    unfold count at 1 3. simpl. lia.
  - lia.
Qed.

Lemma loop_shape_cons max n o r (inner : list Event) round (rest : list Event) :
  n < max ->
  Forall (fun e => inside_round e = true) inner ->
  loop_shape max (S n) rest ->
  loop_shape max n (EvRound Regular (S n) o r :: inner ++ EvCommit round :: rest).
Proof.
  intros Hn Hin ((j & Hj & Hle) & Hfin & Hcom & _).
  change (EvRound Regular (S n) o r :: inner ++ EvCommit round :: rest)
    with ([EvRound Regular (S n) o r] ++ inner ++ [EvCommit round] ++ rest).
  split; [|split; [|split]].
  - exists (S j). rewrite !regular_counts_app, (regular_counts_inside _ Hin), Hj.
    split; [reflexivity|lia].
  - rewrite !count_app, (count_inside _ _ is_finish_only_outside Hin).
    unfold count at 1 2. simpl. lia.
  - rewrite !count_app, (count_inside _ _ is_commit_outside Hin),
      (count_inside _ _ is_round_outside Hin).
    unfold count at 1 2 4 5. simpl. lia.
  - lia.
Qed.

(** The counts of the steps of one finish-only round. *)
Lemma finish_only_counts instruction n o r (inner tail : list Event) :
  Forall (fun e => inside_round e = true) inner ->
  (tail = [] \/ exists final, tail = [EvCommit final]) ->
  let steps := EvInstruction instruction :: EvRound FinishOnly n o r :: inner ++ tail in
  regular_counts steps = [] /\ count is_finish_only steps = 1 /\
  count is_round steps = 1 /\ count is_commit steps <= 1.
Proof.
  intros Hin Htail steps. unfold steps.
  change (EvInstruction instruction :: EvRound FinishOnly n o r :: inner ++ tail)
    with ([EvInstruction instruction; EvRound FinishOnly n o r] ++ inner ++ tail).
  rewrite !regular_counts_app, !count_app, (regular_counts_inside _ Hin),
    (count_inside _ _ is_finish_only_outside Hin),
    (count_inside _ _ is_commit_outside Hin),
    (count_inside _ _ is_round_outside Hin).
  destruct Htail as [->|(final & ->)]; unfold count; simpl; repeat split; lia.
Qed.

Lemma finish_only_tail {A : Type} (out : Outcome A) (tail : list Event)
      (P : A -> Event -> Prop) :
  match out with
  | Returned history => exists final, tail = [EvCommit final] /\ P history (EvCommit final)
  | _ => tail = []
  end ->
  tail = [] \/ exists final, tail = [EvCommit final].
Proof.
  destruct out as [a|e|]; [|left; assumption|left; assumption].
  intros (final & -> & _). right. exists final. reflexivity.
Qed.

(** The steps of the loop of [execute], from any iteration on. *)
Lemma execute_loop_steps budget fuel (this : ActionImpl W) callback returnTool params
      toolMap n messages st out st' :
  execute_loop budget fuel this callback returnTool params toolMap n messages st
  = (out, st') ->
  exists evs, advances evs st st' /\ loop_shape (maxRounds this) n evs /\
              loop_head budget this params toolMap n st evs.
Proof.
  revert n messages st.
  induction budget as [|budget IH]; intros n messages st H; cbn [execute_loop] in H.
  { inversion H; subst. exists [].
    split; [apply advances_refl|split; [apply loop_shape_nil|left; reflexivity]]. }
  destruct (Nat.ltb_spec n (maxRounds this)) as [Hlt|Hge]; cbn [negb] in H.
  2:{ inversion H; subst. exists [].
      split; [apply advances_refl|split; [apply loop_shape_nil|right; left; exact Hge]]. }
  destruct (aborted st) eqn:Hab.
  { inversion H; subst. exists [].
    split; [apply advances_refl|split; [apply loop_shape_nil|right; right; exact Hab]]. }
  set (o := offered_names params st) in *.
  set (r := JsMap.keys toolMap) in *.
  set (st0 := record (EvRound Regular (S n) o r) st) in *.
  assert (A0 : advances [EvRound Regular (S n) o r] st st0)
    by (apply advances_record; reflexivity).
  destruct (executeSingleRound fuel this callback messages params toolMap st0)
    as [[ro messages1] st1] eqn:E.
  apply executeSingleRound_advances in E as (inner & A1 & Hin).
  pose proof (advances_trans _ _ _ _ _ A0 A1) as A01. simpl in A01.
  destruct ro as [round|e|].
  2,3: inversion H; subst; exists (EvRound Regular (S n) o r :: inner ++ []);
    (split; [rewrite app_nil_r; exact A01|]);
    (split; [|reflexivity]);
    apply loop_shape_last; [exact Hlt|exact Hin|reflexivity| | ];
    unfold count; simpl; lia.
  set (st2 := record (EvCommit round) st1) in *.
  assert (A2 : advances (EvRound Regular (S n) o r :: inner ++ [EvCommit round]) st st2).
  { exact (advances_trans _ _ _ _ _ A01 (advances_record (EvCommit round) st1 eq_refl)). }
  destruct (negb (hasToolUse round) && bool_decide (is_Some (response round))).
  { apply finish_only_round_steps in H as (inner2 & tail & A3 & Hin2 & Htail).
    pose proof (advances_trans _ _ _ _ _ A2 A3) as A. simpl in A.
    rewrite <- app_assoc in A. simpl in A.
    eexists. split; [exact A|]. split; [|reflexivity].
    assert (Ht : tail = [] \/ exists final, tail = [EvCommit final]).
    { destruct out as [a|e|]; [|left; assumption|left; assumption].
      destruct Htail as (final & before & -> & _). right. exists final. reflexivity. }
    destruct (finish_only_counts finishInstruction (S n) [tool_name returnTool]
                [tool_name returnTool] inner2 tail Hin2 Ht) as (R1 & R2 & R3 & R4).
    apply loop_shape_last; [exact Hlt|exact Hin| | | ].
    - simpl. exact R1.
    - change (EvCommit round :: ?x) with ([EvCommit round] ++ x).
      rewrite count_app. unfold count at 1. simpl. lia.
    - change (EvCommit round :: ?x) with ([EvCommit round] ++ x).
      rewrite !count_app. unfold count at 1 3. simpl. lia. }
  destruct (calls_return_output (response round)).
  { inversion H; subst. eexists. split; [exact A2|]. split; [|reflexivity].
    apply loop_shape_last; [exact Hlt|exact Hin|reflexivity| | ];
      unfold count; simpl; lia. }
  destruct (Nat.eqb_spec (S n) (maxRounds this)) as [Hmax|Hnmax].
  - destruct (finish_only_round _ _ _ _ _ _ _ _ _) as [fo st3] eqn:F.
    apply finish_only_round_steps in F as (inner2 & tail & A3 & Hin2 & Htail).
    pose proof (advances_trans _ _ _ _ _ A2 A3) as A. simpl in A.
    rewrite <- app_assoc in A. simpl in A.
    assert (Ht : tail = [] \/ exists final, tail = [EvCommit final]).
    { destruct fo as [a|e|]; [|left; assumption|left; assumption].
      destruct Htail as (final & before & -> & _). right. exists final. reflexivity. }
    destruct (finish_only_counts maxRoundsInstruction (S n) [tool_name returnTool]
                [tool_name returnTool] inner2 tail Hin2 Ht) as (R1 & R2 & R3 & R4).
    assert (Hshape : loop_shape (maxRounds this) n
              (EvRound Regular (S n) o r
               :: inner ++ EvCommit round
               :: EvInstruction maxRoundsInstruction
               :: EvRound FinishOnly (S n) [tool_name returnTool] [tool_name returnTool]
               :: inner2 ++ tail)).
    { apply loop_shape_last; [exact Hlt|exact Hin| | | ].
      - simpl. exact R1.
      - change (EvCommit round :: ?x) with ([EvCommit round] ++ x).
        rewrite count_app. unfold count at 1. simpl. lia.
      - change (EvCommit round :: ?x) with ([EvCommit round] ++ x).
        rewrite !count_app. unfold count at 1 3. simpl. lia. }
    destruct fo as [history|e|].
    + apply IH in H as (evs' & A' & (_ & _ & _ & Hnil) & _).
      rewrite (Hnil ltac:(lia)) in A'.
      pose proof (advances_trans _ _ _ _ _ A A') as AA. rewrite app_nil_r in AA.
      eexists. split; [exact AA|split; [exact Hshape|reflexivity]].
    + inversion H; subst. eexists. split; [exact A|split; [exact Hshape|reflexivity]].
    + inversion H; subst. eexists. split; [exact A|split; [exact Hshape|reflexivity]].
  - apply IH in H as (evs' & A' & Hshape' & _).
    pose proof (advances_trans _ _ _ _ _ A2 A') as AA. simpl in AA.
    rewrite <- app_assoc in AA. simpl in AA.
    eexists. split; [exact AA|]. split; [|reflexivity].
    apply loop_shape_cons; [exact Hlt|exact Hin|exact Hshape'].
Qed.

End LoopFacts.

(** * The properties of the specification *)

(** ** Image pruning *)

(** C6. Image pruning is idempotent; the most recent user-role message
    and everything after it are returned as they are; every earlier
    user-role message with an array content has each of its
    [tool_result] items with an array content rewritten: all image
    blocks are removed, and a content that had blocks and is left with
    none becomes the single text block [ok]. Everything else is
    untouched. *)
Theorem image_pruning_idempotent_keeps_newest_user_turn :
  (forall messages,
      handleHistoryImageMessages (handleHistoryImageMessages messages)
      = handleHistoryImageMessages messages)
  /\ (forall earlier m later,
         is_user m = true ->
         Forall (fun x => is_user x = false) later ->
         handleHistoryImageMessages (earlier ++ m :: later)
         = map prune_earlier earlier ++ m :: later)
  /\ (forall messages,
         Forall (fun x => is_user x = false) messages ->
         handleHistoryImageMessages messages = messages)
  /\ (forall m, is_user m = false -> prune_earlier m = m)
  /\ (forall m s, content m = CStr s -> prune_earlier m = m)
  /\ (forall m items,
         is_user m = true -> content m = CArr items ->
         prune_earlier m = mkMessage (role m) (CArr (map strip_item items)))
  /\ (forall id c e,
         strip_item (BToolResult id (CArr c) e) = BToolResult id (CArr (strip_content c)) e
         /\ Forall (fun x => is_image x = false) (strip_content c)
         /\ (List.filter (fun x => negb (is_image x)) c <> [] ->
             strip_content c = List.filter (fun x => negb (is_image x)) c)
         /\ (c <> [] -> List.filter (fun x => negb (is_image x)) c = [] ->
             strip_content c = [BText (VStr "ok")]))
  /\ (forall item,
         (forall id c e, item <> BToolResult id (CArr c) e) -> strip_item item = item).
Proof.
  split; [exact handleHistoryImageMessages_idem|].
  split; [intros; apply handleHistoryImageMessages_split; assumption|].
  split; [exact handleHistoryImageMessages_no_user|].
  split; [intros m Hm; unfold prune_earlier; rewrite Hm; reflexivity|].
  split.
  { intros m s Hc. unfold prune_earlier, strip_message. rewrite Hc.
    destruct (is_user m); reflexivity. }
  split.
  { intros m items Hm Hc. unfold prune_earlier, strip_message. rewrite Hm, Hc. reflexivity. }
  split.
  { intros id c e. split; [reflexivity|].
    destruct c as [|x c]; [split; [constructor|split; [intros H; reflexivity|congruence]]|].
    unfold strip_content.
    pose proof (filter_no_image_clean (x :: c)) as Hclean.
    destruct (List.filter (fun x0 => negb (is_image x0)) (x :: c)) as [|y c'].
    - split; [repeat constructor|]. split; [congruence|reflexivity].
    - split; [exact Hclean|]. split; [reflexivity|discriminate]. }
  intros item Hne. destruct item as [t|s|i n inp|id [s|c] e]; try reflexivity.
  exfalso. exact (Hne id c e eq_refl).
Qed.

(** Three user turns with one image each: the newest keeps its image,
    the two older results are reduced to [ok]. *)
Lemma image_pruning_three_turns :
  handleHistoryImageMessages (two_older_turns ++ screenshot "3" :: [])
  = [mkMessage system (CStr "system prompt");
     mkMessage user (CArr [BToolResult "1" (CArr [BText (VStr "ok")]) false]);
     use_of "2";
     mkMessage user (CArr [BToolResult "2" (CArr [BText (VStr "ok")]) false]);
     use_of "3";
     screenshot "3"].
Proof.
  rewrite (proj1 (proj2 image_pruning_idempotent_keeps_newest_user_turn)
             two_older_turns (screenshot "3") []).
  - reflexivity.
  - reflexivity.
  - constructor.
Defined.

(** ** The envelope adapter pair *)

(** C9. From an invocation whose input object carries the four envelope
    fields, [unwrapToolCall] returns exactly the three wrapper fields
    and an inner invocation with the same id and name whose input is
    the value under [toolCall]; in particular it inverts the envelope a
    model builds by following the wrapped schema, and the wrapped schema
    keeps the tool's own schema under [properties.toolCall]. *)
Theorem envelope_round_trip :
  (forall toolCall fields observation thinking userSidePrompt inner,
      tc_input toolCall = VObj fields ->
      assoc_get "observation" fields = Some observation ->
      assoc_get "thinking" fields = Some thinking ->
      assoc_get "userSidePrompt" fields = Some userSidePrompt ->
      assoc_get "toolCall" fields = Some inner ->
      unwrapToolCall toolCall
      = inr (mkUnwrapped observation thinking userSidePrompt
               (mkToolCall (tc_id toolCall) (tc_name toolCall) inner)))
  /\ (forall id name observation thinking userSidePrompt inner,
         unwrapToolCall
           (mkToolCall id name (envelope_input observation thinking userSidePrompt inner))
         = inr (mkUnwrapped observation thinking userSidePrompt (mkToolCall id name inner)))
  /\ (forall d,
         def_name (wrap_definition d) = def_name d /\
         def_description (wrap_definition d) = def_description d /\
         and_then (get_prop (def_input_schema (wrap_definition d)) "properties")
                  (fun properties => get_prop properties "toolCall")
         = inr (def_input_schema d)).
Proof.
  split.
  { intros toolCall fields o t u inner Hin Ho Ht Hu Hi.
    unfold unwrapToolCall. rewrite Hin. simpl. rewrite Ho, Ht, Hu, Hi. reflexivity. }
  split; [reflexivity|].
  intros d. repeat split.
Qed.

Lemma envelope_round_trip_echo :
  unwrapToolCall (invoke "call_1" "echo" (VStr "A"))
  = inr (mkUnwrapped (VStr "In the previous step, I've ...") (VStr "thinking")
           (VStr "working") (mkToolCall "call_1" "echo" (VStr "A"))).
Proof.
  apply (proj1 envelope_round_trip (invoke "call_1" "echo" (VStr "A"))
           [("observation", VStr "In the previous step, I've ...");
            ("thinking", VStr "thinking");
            ("userSidePrompt", VStr "working");
            ("toolCall", VStr "A")]); reflexivity.
Defined.

(** ** The finish tool *)

Section FinishTool.
Context {W : Type}.

Lemma outputKey_not_isSuccessful (actionName : string) :
  outputKey actionName <> "__isSuccessful__".
Proof. unfold outputKey. simpl. discriminate. Qed.

(** C4 (as the code has it). Executing the finish tool stores the
    payload under [__action_<name>_output] and, when the payload is an
    object, its [isSuccessful] field under the fixed key
    [__isSuccessful__]; every other key of the variable store, the
    flags of the context and the external world are left as they
    were. When the payload is [null] or [undefined] the first write
    has happened and reading [isSuccessful] throws. *)
Theorem finish_tool_writes_output_and_success_flag
  (actionName : string) (params : JsValue) (ctx : ExecutionContext W) (w : W) :
  let '(r, ctx', w') := return_execute actionName params ctx w in
  w' = w /\ __skip ctx' = __skip ctx /\ __abort ctx' = __abort ctx /\
  signal ctx' = signal ctx /\
  variables ctx' !! outputKey actionName = Some params /\
  (forall k, k <> outputKey actionName -> k <> "__isSuccessful__" ->
             variables ctx' !! k = variables ctx !! k) /\
  match get_prop params "isSuccessful" with
  | inr isSuccessful =>
      r = inr (VObj [("success", VBool true)]) /\
      variables ctx' !! "__isSuccessful__" = Some isSuccessful
  | inl e =>
      r = inl e /\
      variables ctx' !! "__isSuccessful__" = variables ctx !! "__isSuccessful__"
  end.
Proof.
  unfold return_execute.
  pose proof (outputKey_not_isSuccessful actionName) as Hne.
  destruct (get_prop params "isSuccessful") as [e|isSuccessful]; simpl.
  - repeat split.
    + apply lookup_insert_eq.
    + intros k Hk _. apply lookup_insert_ne. congruence.
    + apply lookup_insert_ne. exact Hne.
  - repeat split.
    + rewrite lookup_insert_ne by congruence. apply lookup_insert_eq.
    + intros k Hk Hk'. rewrite !lookup_insert_ne by congruence. reflexivity.
    + apply lookup_insert_eq.
Qed.

End FinishTool.

(** The finish tool of the action [demo], run on a payload: both keys
    are present afterwards. *)
Lemma finish_tool_demo :
  let ctx' := snd (fst (return_execute "demo" (finish_payload false (VStr "v"))
                          fresh_context ([] : Script))) in
  variables ctx' !! "__action_demo_output" = Some (finish_payload false (VStr "v")) /\
  variables ctx' !! "__isSuccessful__" = Some (VBool true).
Proof.
  pose proof (finish_tool_writes_output_and_success_flag "demo"
                (finish_payload false (VStr "v")) fresh_context ([] : Script)) as H.
  simpl in H. destruct H as (_ & _ & _ & _ & H1 & _ & _ & H2).
  split; [exact H1|exact H2].
Defined.

(** C4 as stated fails: a key other than [__action_<name>_output] is written. *)
Lemma finish_tool_writes_another_key :
  ~ (forall (actionName : string) (params : JsValue) (ctx : ExecutionContext Script)
            (w : Script) (k : string),
        k <> outputKey actionName ->
        variables (snd (fst (return_execute actionName params ctx w))) !! k
        = variables ctx !! k).
Proof.
  intros H.
  specialize (H "demo" (finish_payload false (VStr "v")) fresh_context []
                "__isSuccessful__").
  assert (Hk : "__isSuccessful__" <> outputKey "demo") by (vm_compute; discriminate).
  specialize (H Hk). vm_compute in H. discriminate.
Qed.

(** ** The caller's parameters *)

Section CallerParams.
Context {W : Type}.

(** C10. A call of [executeSingleRound] leaves every definition object
    that existed before the call as it was, so the caller's
    [params.tools] still read as the unwrapped definitions; the
    envelope is applied to new copies only, and those are what the
    parameters handed to the transport refer to. *)
Theorem executeSingleRound_leaves_caller_params
  (fuel : nat) (this : ActionImpl W) (callback : option (Hooks W))
  (messages : list Message) (params : LLMParameters) (toolMap : JsMap.t (Tool W))
  (st : State W) :
  let '(_, _, st') := executeSingleRound fuel this callback messages params toolMap st in
  (forall r, r < length (defs st) -> defs st' !! r = defs st !! r) /\
  (forall refs, params_tools params = Some refs ->
                Forall (fun r => r < length (defs st)) refs ->
                resolve_tools params (defs st') = resolve_tools params (defs st)) /\
  defs st' = snd (make_params_copy params (defs st)) /\
  resolve_tools (fst (make_params_copy params (defs st))) (defs st')
  = match params_tools params with
    | Some _ =>
        Some (map (fun d => wrap_definition (clone_definition d))
                (default [] (resolve_tools params (defs st))))
    | None => None
    end.
Proof.
  unfold executeSingleRound.
  destruct (make_params_copy_spec params (defs st)) as (copies & Hc & Hs & Hr).
  destruct (make_params_copy params (defs st)) as [params_copy store] eqn:E.
  simpl in Hs, Hr.
  destruct (round_loop _ _ _ _ _ _ _ _ _) as [[out messages'] st'] eqn:L.
  apply round_loop_advances in L as (Hd & _). simpl in Hd.
  assert (Hold : forall r, r < length (defs st) -> defs st' !! r = defs st !! r).
  { intros r Hlt. rewrite Hd, Hs. apply lookup_app_l. exact Hlt. }
  split; [exact Hold|]. split.
  - intros refs Hrefs Hall. unfold resolve_tools. rewrite Hrefs. f_equal.
    rewrite Hd, Hs. apply omap_lookup_old. exact Hall.
  - split; [exact Hd|]. simpl. rewrite Hd, Hr, Hc. reflexivity.
Qed.

End CallerParams.

(** One round over parameters that refer to the definition of [echo]:
    afterwards the caller's definition still has its own schema. *)
Lemma caller_params_after_round :
  let '(_, _, st') :=
    executeSingleRound 3 (demo 3) None [] echo_params
      [("echo", echo)] (echo_state [text_only "hello"]) in
  resolve_tools echo_params (defs st') = Some echo_store.
Proof.
  pose proof (executeSingleRound_leaves_caller_params 3 (demo 3) None [] echo_params
                [("echo", echo)] (echo_state [text_only "hello"])) as H.
  destruct (executeSingleRound _ _ _ _ _ _ _) as [[out messages'] st'].
  destruct H as (_ & H & _). rewrite (H [0]).
  - reflexivity.
  - reflexivity.
  - repeat constructor.
Defined.

(** ** The loop of [execute] *)

Section LoopClaims.
Context {W : Type}.
Implicit Types (st : State W).

Lemma finalize_steps (this : ActionImpl W) messages st :
  let payload := default VUndefined (variables (context st) !! outputKey (name this)) in
  let '(result, st') := finalize this messages st in
  advances [EvFinalize payload] st st' /\
  snd result = messages /\
  fst result
  = if negb (truthy payload) then VObj []
    else
      let outputValue :=
        if truthy (result_prop payload "use_tool_result")
        then default VUndefined (array_pop (JsMap.values (toolResults st)))
        else result_prop payload "value" in
      if is_undefined outputValue then VObj [] else outputValue.
Proof.
  unfold finalize. cbv zeta.
  set (payload := default VUndefined (variables (context st) !! outputKey (name this))).
  assert (A : forall s, same_run_data (record (EvFinalize payload) st) s ->
                        advances [EvFinalize payload] st s).
  { intros s Hs. eapply advances_same; [exact Hs|].
    apply advances_record. reflexivity. }
  destruct (negb (truthy payload)).
  - split; [apply A, same_run_data_refl|]. split; reflexivity.
  - simpl toolResults.
    destruct (is_undefined _); (split; [apply A; repeat split|split; reflexivity]).
Qed.

(** C1. In every run of [execute], whatever its outcome, the calls of
    [executeSingleRound] number at most [maxRounds + 1]: at most
    [maxRounds] regular rounds, which announce the counter values
    1, 2, 3, ... in this order, and at most one finish-only round; and
    a round's messages are committed only after its call. *)
Theorem rounds_bounded_by_maxRounds_plus_one
  (fuel : nat) (this : ActionImpl W) (callback : option (Hooks W))
  (context_tools : option (list (Tool W))) (systemPrompt userPrompt : string)
  (outputDescription : string) (outputSchema : JsValue) st :
  let '(_, st') := execute fuel this callback context_tools systemPrompt userPrompt
                     outputDescription outputSchema st in
  exists evs,
    trace st' = trace st ++ evs /\
    regular_counts evs = seq 1 (count is_regular evs) /\
    count is_regular evs <= maxRounds this /\
    count is_finish_only evs <= 1 /\
    count is_round evs <= maxRounds this + 1 /\
    count is_commit evs <= count is_round evs.
Proof.
  unfold execute, alloc_definitions. cbv beta iota zeta.
  destruct (query_tabs st) as [[e|u] st0] eqn:Q;
    apply keeps_query_tabs in Q as (_ & _ & Ht).
  { exists []. rewrite app_nil_r. split; [exact Ht|]. unfold count. simpl.
    repeat split; lia. }
  destruct (execute_loop _ _ _ _ _ _ _ _ _ _) as [out st1] eqn:E.
  apply execute_loop_steps in E
    as (evs & (T & _ & _) & ((j & Hj & Hle) & Hfin & Hcom & _) & _).
  simpl in T. rewrite Ht in T.
  assert (Hreg : count is_regular evs = j).
  { rewrite count_regular_counts, Hj. apply length_seq. }
  assert (Hbody : regular_counts evs = seq 1 (count is_regular evs) /\
                  count is_regular evs <= maxRounds this /\
                  count is_finish_only evs <= 1 /\
                  count is_round evs <= maxRounds this + 1 /\
                  count is_commit evs <= count is_round evs).
  { rewrite Hreg. split; [exact Hj|]. split; [lia|]. split; [exact Hfin|].
    split; [rewrite count_round_split, Hreg; lia|exact Hcom]. }
  destruct out as [messages|e|]; [|exists evs; split; assumption..].
  pose proof (finalize_steps this messages st1) as F.
  destruct (finalize this messages st1) as [result st2].
  destruct F as ((T2 & _ & _) & _).
  exists (evs ++ [EvFinalize
                    (default VUndefined
                       (variables (context st1) !! outputKey (name this)))]).
  split; [rewrite T2, T, <- app_assoc; reflexivity|].
  rewrite regular_counts_app, !count_app. simpl regular_counts.
  unfold count at 2 4 6 8 10 12. simpl. rewrite app_nil_r, !Nat.add_0_r.
  exact Hbody.
Qed.





(** One iteration of the loop whose round returns. *)
Lemma execute_loop_round budget fuel (this : ActionImpl W) callback returnTool params
      toolMap n messages st round messages1 st1 :
  n < maxRounds this ->
  aborted st = false ->
  executeSingleRound fuel this callback messages params toolMap
    (record (EvRound Regular (S n) (offered_names params st) (JsMap.keys toolMap)) st)
  = (Returned round, messages1, st1) ->
  execute_loop (S budget) fuel this callback returnTool params toolMap n messages st
  = (let history := messages1 ++ roundMessages round in
     let st2 := record (EvCommit round) st1 in
     if negb (hasToolUse round) && bool_decide (is_Some (response round)) then
       finish_only_round fuel this callback returnTool params (S n)
         finishInstruction history st2
     else if calls_return_output (response round) then (Returned history, st2)
     else if Nat.eqb (S n) (maxRounds this) then
       match finish_only_round fuel this callback returnTool params (S n)
               maxRoundsInstruction history st2 with
       | (Returned history', st3) =>
           execute_loop budget fuel this callback returnTool params toolMap
             (S n) history' st3
       | failed => failed
       end
     else
       execute_loop budget fuel this callback returnTool params toolMap
         (S n) history st2).
Proof.
  intros Hlt Hab E. cbn [execute_loop].
  apply Nat.ltb_lt in Hlt. rewrite Hlt, Hab. cbn [negb]. rewrite E. reflexivity.
Qed.

(** C8. Whenever a regular round returns a model response without a
    tool invocation, the rest of the run's loop is this: the round's
    messages are committed, the instruction that demands a call of
    the finish tool is appended to the history, and
    [executeSingleRound] is called once more, on that history, with
    the definition of [return_output] alone on offer and
    [return_output] alone in the registry. What the loop returns is
    what this call makes of it: the history the call hands back
    followed by the messages of its round, which are committed, when
    it returns; what it throws when it throws. Nothing follows,
    whether the finish-only round returns, throws or is still
    retrying when the observation ends. *)
Theorem text_only_round_forces_one_finish_round
  (budget fuel : nat) (this : ActionImpl W) (callback : option (Hooks W))
  (actionName outputDescription : string) (outputSchema : JsValue)
  (params : LLMParameters) (toolMap : JsMap.t (Tool W)) (n : nat)
  (messages : list Message) st (round : RoundResult) (messages1 : list Message) st1
  (out : Outcome (list Message)) st' :
  let returnTool := createReturnTool actionName outputDescription outputSchema in
  let history := (messages1 ++ roundMessages round)
                 ++ [mkMessage user (CStr finishInstruction)] in
  let returnOnlyParams := mkParams (llm_settings params) (Some [length (defs st1)]) in
  let registry := [("return_output", returnTool)] in
  let st2 := record (EvRound FinishOnly (S n) ["return_output"] ["return_output"])
               (record (EvInstruction finishInstruction)
                  (with_defs (defs st1 ++ [definition_of returnTool])
                     (record (EvCommit round) st1))) in
  n < maxRounds this ->
  aborted st = false ->
  executeSingleRound fuel this callback messages params toolMap
    (record (EvRound Regular (S n) (offered_names params st) (JsMap.keys toolMap)) st)
  = (Returned round, messages1, st1) ->
  hasToolUse round = false ->
  is_Some (response round) ->
  execute_loop (S budget) fuel this callback returnTool
    params toolMap n messages st = (out, st') ->
  resolve_tools returnOnlyParams (defs st2) = Some [definition_of returnTool] /\
  (out, st')
  = match executeSingleRound fuel this callback history returnOnlyParams registry st2 with
    | (Returned final, before, st3) =>
        (Returned (before ++ roundMessages final), record (EvCommit final) st3)
    | (Threw e, _, st3) => (Threw e, st3)
    | (Diverged, _, st3) => (Diverged, st3)
    end /\
  exists inner tail,
    trace st'
    = trace st1
      ++ EvCommit round
      :: EvInstruction finishInstruction
      :: EvRound FinishOnly (S n) ["return_output"] ["return_output"]
      :: inner ++ tail /\
    Forall (fun e => inside_round e = true) inner /\
    match out with
    | Returned history' =>
        exists final before,
          tail = [EvCommit final] /\
          history' = before ++ roundMessages final /\
          (before = history \/ before = handleHistoryImageMessages history)
    | _ => tail = []
    end.
Proof.
  intros returnTool history returnOnlyParams registry st2 Hlt Hab E Hno Hsome H.
  rewrite (execute_loop_round _ _ _ _ _ _ _ _ _ _ _ _ _ Hlt Hab E) in H.
  cbv zeta in H. rewrite Hno in H.
  rewrite (bool_decide_eq_true_2 _ Hsome) in H. cbn [negb andb] in H.
  assert (Hoffer : resolve_tools returnOnlyParams (defs st2)
                   = Some [definition_of returnTool]).
  { unfold resolve_tools, returnOnlyParams, st2. simpl.
    pose proof (omap_lookup_fresh (defs st1) [definition_of returnTool]) as Ho.
    simpl in Ho. unfold omap in Ho. rewrite Ho. reflexivity. }
  split; [exact Hoffer|]. split.
  - rewrite <- H. unfold finish_only_round, alloc_definitions. cbv beta iota zeta.
    erewrite offered_names_finish_only by reflexivity.
    change (JsMap.keys (JsMap.set (tool_name returnTool) returnTool JsMap.empty))
      with ["return_output"].
    change (JsMap.set (tool_name returnTool) returnTool JsMap.empty) with registry.
    change (tool_name returnTool) with "return_output".
    change (defs (record (EvCommit round) st1)) with (defs st1).
    change (seq (length (defs st1)) (length [definition_of returnTool]))
      with [length (defs st1)].
    fold returnOnlyParams. fold history. fold st2.
    destruct (executeSingleRound fuel this callback history returnOnlyParams registry st2)
      as [[[final|e|] before] st3]; reflexivity.
  - apply finish_only_round_steps in H as (inner & tail & (T & _ & _) & Hin & Htail).
    exists inner, tail. split; [|split; [exact Hin|exact Htail]].
    rewrite T. simpl. rewrite <- app_assoc. reflexivity.
Qed.

End LoopClaims.

(** ** One round *)

Section RoundClaims.
Context {W : Type}.
Implicit Types (st : State W).

(** The first stream attempt of a call of [executeSingleRound]. *)
Lemma executeSingleRound_first_attempt fuel (this : ActionImpl W) callback messages
      params toolMap st provider attempt w :
  aborted st = false ->
  llmProvider this = Some provider ->
  generateStream provider (handleHistoryImageMessages messages)
    (llm_settings (fst (make_params_copy params (defs st))))
    (resolve_tools (fst (make_params_copy params (defs st)))
       (snd (make_params_copy params (defs st))))
    (world st) = (attempt, w) ->
  executeSingleRound (S fuel) this callback messages params toolMap st
  = (let params_copy := fst (make_params_copy params (defs st)) in
     let messages := handleHistoryImageMessages messages in
     let st := attempt_state st (snd (make_params_copy params (defs st))) attempt w in
     let text := accumulate_text (chunks attempt) in
     match invocation attempt with
     | None =>
         if stream_error attempt then
           round_loop fuel this callback params_copy toolMap
             (completion attempt) false messages st
         else (finish_round text None None (completion attempt) false st, messages, st)
     | Some toolCall =>
         match JsMap.get (tc_name toolCall) toolMap with
         | None =>
             if awaits_handler attempt then
               round_loop fuel this callback params_copy toolMap None true messages st
             else if stream_error attempt then
               round_loop fuel this callback params_copy toolMap
                 (completion attempt) true messages st
             else
               (finish_round text
                  (Some (toolUseMessage_of (tc_id toolCall) (tc_name toolCall)
                           (tc_input toolCall)))
                  (Some (notFoundMessage toolCall))
                  (completion attempt) true st,
                messages, st)
         | Some tool =>
             if stream_error attempt && in_flight attempt then
               round_loop fuel this callback params_copy toolMap
                 (completion attempt) true messages (abandon callback tool toolCall st)
             else
               let '(toolResultMessage, st) := run_tool callback tool toolCall st in
               let st := settle (settled_late attempt) st in
               if stream_error attempt then
                 round_loop fuel this callback params_copy toolMap
                   (completion attempt) true messages st
               else
                 (finish_round text
                    (Some (toolUseMessage_of (tc_id toolCall) (tool_name tool)
                             (tc_input toolCall)))
                    (Some toolResultMessage)
                    (completion attempt) true st,
                  messages, st)
         end
     end).
Proof.
  intros Hab Hp Hg. unfold executeSingleRound, attempt_state.
  destruct (make_params_copy params (defs st)) as [params_copy store].
  simpl fst in *. simpl snd in *.
  cbn [round_loop].
  change (aborted (with_defs store st)) with (aborted st). rewrite Hab, Hp.
  change (defs (with_defs store st)) with store.
  change (world (with_defs store st)) with (world st).
  rewrite Hg. reflexivity.
Qed.

(** What is thrown in the course of an invocation is what the [try]
    block throws. *)
Lemma throws_in_invocation_tool_try callback (tool : Tool W) (toolCall : ToolCall) st
      (e : Thrown) st2 :
  throws_in_invocation callback tool toolCall st e st2 ->
  tool_try callback tool toolCall st = (inl e, st2).
Proof.
  assert (Hprefix : forall input st3,
             reaches_execute callback tool toolCall st input st3 ->
             forall r st', 
               (result <- await (tool_execute tool input) ;;
                result <- run_afterToolUse callback tool result ;;
                ret result) st3 = (inl r, st') ->
               tool_try callback tool toolCall st = (inl r, st')).
  { intros input st3 (modified & st1 & unwrapped & st2' & Hb & Hs & Hu & -> & Hn1 & Hn2)
           r st' Hk.
    unfold tool_try. unfold bind at 1. unfold update at 1.
    unfold bind at 1. rewrite Hb. unfold bind at 1. unfold get_state at 1.
    rewrite Hs. unfold bind at 1. unfold of_result at 1. rewrite Hu.
    unfold bind at 1. rewrite Hn1. unfold bind at 1.
    cbn [tc_name tc_id tc_input]. rewrite Hn2.
    unfold bind in Hk |- *.
    destruct (await (tool_execute tool (tc_input (u_toolCall unwrapped))) st3)
      as [[e1|result] st4]; [inversion Hk; subst; reflexivity|].
    destruct (run_afterToolUse callback tool result st4) as [[e2|result2] st5];
      [inversion Hk; subst; reflexivity|]. unfold ret in Hk. discriminate. }
  intros H. destruct H as [hooks hook ctx w -> Hh He
                          |input st3 ctx w Hr He
                          |input st3 result ctx w hooks hook ctx' w' Hr He -> Hh Ha].
  - unfold tool_try, bind, update, run_beforeToolUse. rewrite Hh.
    unfold bind, await. cbn [context world with_context]. rewrite He. reflexivity.
  - apply (Hprefix input st3 Hr). unfold bind, await. rewrite He. reflexivity.
  - apply (Hprefix input st3 Hr). unfold bind at 1. unfold await at 1. rewrite He.
    unfold run_afterToolUse. rewrite Hh. unfold bind, await. rewrite Ha. reflexivity.
Qed.

(** C3 (as the code has it). In a round whose stream completes and
    invokes a registered tool, if the hook before the tool, the
    tool's [execute] or the hook after it throws [e], and
    cancellation has not been flagged, then the round returns: its
    messages end with the [tool_result] that has [is_error = true]
    and the text [Error: m], where [m] is the message of [e], and
    [hasToolUse] is set. The loop of [execute] commits this round.
    When the response lists a call of the finish tool, which is so
    when the tool that threw is the finish tool, the run ends there
    without another round. Otherwise it goes on to the next round:
    the regular round with the next counter value, or the finish-only
    round when the counter has reached the maximum; it stops before
    that round only if the caller has cancelled in the meantime. *)
Theorem capability_error_is_reported
  (budget fuel : nat) (this : ActionImpl W) (callback : option (Hooks W))
  (returnTool : Tool W) (params : LLMParameters) (toolMap : JsMap.t (Tool W))
  (n : nat) (messages : list Message) st (provider : LLMProvider W)
  (attempt : StreamAttempt) (w : W) (toolCall : ToolCall) (tool : Tool W)
  (e : Thrown) st2 (out : Outcome (list Message)) st' :
  let st0 := record (EvRound Regular (S n) (offered_names params st)
                       (JsMap.keys toolMap)) st in
  let store := snd (make_params_copy params (defs st)) in
  let params_copy := fst (make_params_copy params (defs st)) in
  let st3 := settle (settled_late attempt) st2 in
  n < maxRounds this ->
  maxRounds this <= n + S budget ->
  aborted st = false ->
  llmProvider this = Some provider ->
  generateStream provider (handleHistoryImageMessages messages)
    (llm_settings params_copy) (resolve_tools params_copy store) (world st)
  = (attempt, w) ->
  invocation attempt = Some toolCall ->
  stream_error attempt = false ->
  JsMap.get (tc_name toolCall) toolMap = Some tool ->
  throws_in_invocation callback tool toolCall (attempt_state st0 store attempt w) e st2 ->
  __abort (context st3) = false ->
  execute_loop (S budget) (S fuel) this callback returnTool params toolMap n messages st
  = (out, st') ->
  exists round,
    executeSingleRound (S fuel) this callback messages params toolMap st0
    = (Returned round, handleHistoryImageMessages messages, st3) /\
    hasToolUse round = true /\
    response round = completion attempt /\
    roundMessages round
    = assemble (accumulate_text (chunks attempt))
        (Some (toolUseMessage_of (tc_id toolCall) (tool_name tool) (tc_input toolCall)))
        (Some (mkMessage user
                 (CArr [BToolResult (tc_id toolCall)
                          (CArr [BText (VStr ("Error: " +:+ errorMessage e))]) true]))) /\
    exists rest,
      trace st' = trace st3 ++ EvCommit round :: rest /\
      if calls_return_output (completion attempt) then
        rest = [] /\
        out = Returned (handleHistoryImageMessages messages ++ roundMessages round)
      else
        (S n < maxRounds this /\
         exists offered registry rest',
           rest = EvRound Regular (S (S n)) offered registry :: rest')
        \/ (S n = maxRounds this /\
            exists rest',
              rest = EvInstruction maxRoundsInstruction
                     :: EvRound FinishOnly (S n) [tool_name returnTool]
                          [tool_name returnTool]
                     :: rest')
        \/ (rest = [] /\ aborted st3 = true /\
            out = Threw (ThrowError "Workflow cancelled")).
Proof.
  intros st0 store params_copy st3 Hlt Hbud Hab Hp Hg Hinv Herr Hget Hthrow Habort H.
  apply throws_in_invocation_tool_try in Hthrow as Htry.
  pose proof (executeSingleRound_first_attempt fuel this callback messages params
                toolMap st0 provider attempt w Hab Hp Hg) as E.
  cbv zeta in E. rewrite Hinv, Hget, Herr in E. cbn [andb] in E.
  change (defs st0) with (defs st) in E. fold store in E.
  unfold run_tool in E. rewrite Htry in E. fold st3 in E.
  unfold finish_round in E. rewrite Habort in E.
  eexists. split; [exact E|]. split; [reflexivity|]. split; [reflexivity|].
  split; [reflexivity|].
  rewrite (execute_loop_round _ _ _ _ _ _ _ _ _ _ _ _ _ Hlt Hab E) in H.
  cbv zeta in H. cbn [hasToolUse response roundMessages negb andb] in H.
  destruct (calls_return_output (completion attempt)).
  { inversion H; subst. exists []. split; [reflexivity|]. split; reflexivity. }
  destruct (Nat.eqb_spec (S n) (maxRounds this)) as [Hmax|Hnmax].
  - destruct (finish_only_round _ _ _ _ _ _ _ _ _) as [fo st4] eqn:F.
    apply finish_only_round_steps in F as (inner & tail & (T & _ & _) & _ & _).
    assert (Hst : trace st' = trace st4).
    { destruct fo as [history|e0|]; [|inversion H; reflexivity..].
      apply execute_loop_steps in H as (evs & (T' & _ & _) & (_ & _ & _ & Hnil) & _).
      rewrite (Hnil ltac:(lia)), app_nil_r in T'. exact T'. }
    eexists. split.
    + rewrite Hst, T. simpl. rewrite <- app_assoc. reflexivity.
    + right. left. split; [exact Hmax|]. eexists. reflexivity.
  - assert (Hlt2 : S n < maxRounds this) by lia.
    destruct (aborted st3) eqn:Ha.
    + destruct budget as [|budget]; [lia|]. cbn [execute_loop] in H.
      apply Nat.ltb_lt in Hlt2. rewrite Hlt2 in H. cbn [negb] in H.
      change (aborted (record ?e st3)) with (aborted st3) in H. rewrite Ha in H.
      inversion H; subst. exists []. split; [reflexivity|].
      right. right. repeat split.
    + apply execute_loop_steps in H as (evs & (T' & _ & _) & _ & Hhead).
      simpl in T'. rewrite <- app_assoc in T'. simpl in T'.
      exists evs. split; [exact T'|].
      destruct evs as [|e0 evs]; simpl in Hhead.
      * exfalso. destruct Hhead as [Hb|[Hm|Hx]]; [lia|lia|].
        change (aborted (record ?e st3)) with (aborted st3) in Hx. congruence.
      * left. split; [exact Hlt2|]. subst e0. eexists _, _, _. reflexivity.
Qed.

(** C5 (as the code has it). An invocation either writes nothing to
    the cache (it was skipped, or something threw), or it has a
    result with a serialization [text]; then the log line carries the
    result itself when [text] is shorter than 1000 characters and
    otherwise the first 1000 characters of [text] followed by
    [...(truncated)], while the cache, unless the tool is the finish
    tool, receives under the invocation id the full text of the
    result, whatever its length. The finish tool never writes to the
    cache. *)
Theorem cache_holds_full_text_log_is_truncated
  (callback : option (Hooks W)) (tool : Tool W) (toolCall : ToolCall) st
  (r : Thrown + Message) st' :
  tool_try callback tool toolCall st = (r, st') ->
  (toolResults st' = toolResults st /\ trace st' = trace st /\
   (r = inr (skipMessage toolCall) \/ exists e, r = inl e))
  \/
  (exists result text,
      JSON_stringify result = Some text /\
      r = inr (mkMessage user (CArr [resultContent (tc_id toolCall) result])) /\
      (result_has_image result = false -> resultContentText result = VStr text) /\
      let logged :=
        if Nat.ltb (String.length text) 1000 then result
        else VStr (slice0 1000 text +:+ "...(truncated)") in
      if String.eqb (tool_name tool) "return_output"
      then toolResults st' = toolResults st /\
           trace st' = trace st ++ [EvToolDone (tool_name tool) logged]
      else toolResults st'
           = JsMap.set (tc_id toolCall) (resultContentText result) (toolResults st) /\
           JsMap.get (tc_id toolCall) (toolResults st')
           = Some (resultContentText result) /\
           trace st' = trace st ++ [EvToolDone (tool_name tool) logged;
                                    EvCached (tc_id toolCall) (resultContentText result)]).
Proof.
  intros H. apply tool_try_spec in H as (_ & [H|(result & logged & Ht & Hr & Hc)]).
  { left. exact H. }
  right. unfold truncate in Ht.
  destruct (JSON_stringify result) as [text|] eqn:Hs; [|discriminate].
  exists result, text. split; [exact Hs|]. split; [exact Hr|]. split.
  { intros Hi. unfold resultContentText, stringified. rewrite Hi, Hs. reflexivity. }
  cbv zeta.
  assert (Hl : logged = if Nat.ltb (String.length text) 1000 then result
                        else VStr (slice0 1000 text +:+ "...(truncated)")).
  { destruct (Nat.ltb (String.length text) 1000); inversion Ht; reflexivity. }
  rewrite <- Hl.
  destruct (String.eqb (tool_name tool) "return_output"); [exact Hc|].
  destruct Hc as (Hc & Htr). split; [exact Hc|]. split; [|exact Htr].
  rewrite Hc. apply get_set_same.
Qed.

(** C7 (what the code does when the rejection escapes). When the
    stream invokes a tool name that the registry does not hold and the
    transport lets the rejection of [onToolUse] escape from
    [generateStream], the two messages built for the unknown tool are
    dropped with the attempt: the round starts over with the next
    stream, and all that remains of the attempt is the record of the
    stream. *)
Theorem unknown_tool_attempt_is_discarded_when_rejection_escapes
  (fuel : nat) (this : ActionImpl W) (callback : option (Hooks W))
  (messages : list Message) (params : LLMParameters) (toolMap : JsMap.t (Tool W)) st
  (provider : LLMProvider W) (attempt : StreamAttempt) (w : W) (toolCall : ToolCall) :
  let store := snd (make_params_copy params (defs st)) in
  let params_copy := fst (make_params_copy params (defs st)) in
  aborted st = false ->
  llmProvider this = Some provider ->
  generateStream provider (handleHistoryImageMessages messages)
    (llm_settings params_copy) (resolve_tools params_copy store) (world st)
  = (attempt, w) ->
  invocation attempt = Some toolCall ->
  JsMap.get (tc_name toolCall) toolMap = None ->
  awaits_handler attempt = true ->
  executeSingleRound (S fuel) this callback messages params toolMap st
  = round_loop fuel this callback params_copy toolMap None true
      (handleHistoryImageMessages messages) (attempt_state st store attempt w).
Proof.
  intros store params_copy Hab Hp Hg Hinv Hget Haw.
  rewrite (executeSingleRound_first_attempt fuel this callback messages params
             toolMap st provider attempt w Hab Hp Hg).
  cbv zeta. rewrite Hinv, Hget, Haw. reflexivity.
Qed.

(** The same invocation over a transport that does not let the
    rejection escape: the round returns with both messages. *)
Lemma unknown_tool_messages_when_rejection_is_dropped
  (fuel : nat) (this : ActionImpl W) (callback : option (Hooks W))
  (messages : list Message) (params : LLMParameters) (toolMap : JsMap.t (Tool W)) st
  (provider : LLMProvider W) (attempt : StreamAttempt) (w : W) (toolCall : ToolCall) :
  let store := snd (make_params_copy params (defs st)) in
  let params_copy := fst (make_params_copy params (defs st)) in
  aborted st = false ->
  llmProvider this = Some provider ->
  generateStream provider (handleHistoryImageMessages messages)
    (llm_settings params_copy) (resolve_tools params_copy store) (world st)
  = (attempt, w) ->
  invocation attempt = Some toolCall ->
  JsMap.get (tc_name toolCall) toolMap = None ->
  awaits_handler attempt = false ->
  stream_error attempt = false ->
  __abort (context (attempt_state st store attempt w)) = false ->
  executeSingleRound (S fuel) this callback messages params toolMap st
  = (Returned (mkRound (completion attempt) true
                 (assemble (accumulate_text (chunks attempt))
                    (Some (toolUseMessage_of (tc_id toolCall) (tc_name toolCall)
                             (tc_input toolCall)))
                    (Some (notFoundMessage toolCall)))),
     handleHistoryImageMessages messages,
     attempt_state st store attempt w).
Proof.
  intros store params_copy Hab Hp Hg Hinv Hget Haw Herr Habort.
  rewrite (executeSingleRound_first_attempt fuel this callback messages params
             toolMap st provider attempt w Hab Hp Hg).
  cbv zeta. rewrite Hinv, Hget, Haw, Herr. unfold finish_round.
  fold store. rewrite Habort. reflexivity.
Qed.

End RoundClaims.

(** * The properties on concrete runs *)



(** Nor is the order of the cache the order of the invocations: the
    result of an abandoned invocation lands when its promise settles.
    Here [A] is invoked before [B], lands after it, and is returned. *)
Lemma abandoned_result_lands_later :
  let run := run_demo 3 script_abandoned in
  toolResults (snd run) = [("2", VStr (json_quote "B")); ("1", VStr (json_quote "A"))] /\
  fst (returned (VUndefined, []) (fst run)) = VStr (json_quote "A").
Proof. intros run. split; vm_compute; reflexivity. Qed.

(** The tool [write_file] throws [disk full]: the round reports it and
    the run goes on with round 2. *)
Lemma disk_full_is_reported :
  let st0 := record (EvRound Regular 1 [] ["echo"; "write_file"]) (start script_disk_full) in
  let loop := execute_loop 3 2 (demo 3) None
                (createReturnTool "demo" "the answer" VUndefined)
                no_tools demo_registry 0 [] (start script_disk_full) in
  exists round,
    fst (fst (executeSingleRound 2 (demo 3) None [] no_tools demo_registry st0))
    = Returned round /\
    last (roundMessages round)
    = Some (mkMessage user
              (CArr [BToolResult "1" (CArr [BText (VStr "Error: disk full")]) true])) /\
    exists before offered registry rest,
      trace (snd loop)
      = before ++ EvCommit round :: EvRound Regular 2 offered registry :: rest.
Proof.
  intros st0 loop.
  pose (call := invoke "1" "write_file" (VStr "notes")).
  pose (rest := [text_only "done";
                 stream_of (invoke "3" "return_output" (finish_payload false (VStr "v")))]).
  pose (st1 := attempt_state st0 [] (stream_of call) rest).
  pose (st2 := with_context (set_skip false (context st1)) st1).
  destruct (capability_error_is_reported 2 1 (demo 3) None
              (createReturnTool "demo" "the answer" VUndefined)
              no_tools demo_registry 0 [] (start script_disk_full) scripted
              (stream_of call) rest call full_disk (ThrowError "disk full")
              (abort_listener (with_world (world st2) (with_context (context st2) st2)))
              (fst loop) (snd loop))
    as (round & E & _ & _ & Hm & tail & T & Hnext).
  - simpl. lia.
  - simpl. lia.
  - reflexivity.
  - reflexivity.
  - reflexivity.
  - reflexivity.
  - reflexivity.
  - reflexivity.
  - apply (execute_throws None full_disk call st1 (ThrowError "disk full")
             (VStr "notes") st2 (context st2) (world st2)); [|reflexivity].
    eexists _, _, _, _. repeat split; reflexivity.
  - vm_compute. reflexivity.
  - vm_compute. reflexivity.
  - exists round. split; [exact (f_equal (fun x => fst (fst x)) E)|].
    split; [rewrite Hm; reflexivity|].
    change (calls_return_output (completion (stream_of call))) with false in Hnext.
    destruct Hnext as [(_ & offered & registry & rest' & ->)|[(Hmax & _)|(_ & Hab & _)]].
    + eexists _, offered, registry, rest'. exact T.
    + simpl in Hmax. discriminate.
    + vm_compute in Hab. discriminate.
Defined.

(** C3 as stated fails: the finish tool throws on the payload [null].
    The round reports the error, and the run ends with the empty
    object after this one round: the stream that would have come
    next is never asked for. *)
Lemma finish_tool_error_ends_the_run :
  let run := run_demo 3 script_finish_null in
  exists history,
    fst run = Returned (VObj [], history) /\
    last history
    = Some (mkMessage user
              (CArr [BToolResult "1"
                       (CArr [BText (VStr "Error: Cannot read properties of null (reading 'isSuccessful')")])
                       true])) /\
    count is_round (trace (snd run)) = 1 /\
    world (snd run) = [text_only "more"].
Proof.
  intros run. eexists. split; [vm_compute; reflexivity|].
  split; [reflexivity|]. split; vm_compute; reflexivity.
Qed.

(** The model answers with text only: one instruction, one
    finish-only round, and the loop is over. *)
Lemma text_only_then_finish :
  let st0 := record (EvRound Regular 1 [] ["echo"; "write_file"]) (start script_text_only) in
  let first := executeSingleRound 5 (demo 3) None [] no_tools demo_registry st0 in
  let loop := execute_loop 3 5 (demo 3) None
                (createReturnTool "demo" "the answer" VUndefined)
                no_tools demo_registry 0 [] (start script_text_only) in
  fst loop
  = Returned [mkMessage assistant (CStr "hello");
              mkMessage user (CStr finishInstruction);
              toolUseMessage_of "2" "return_output"
                (tc_input (invoke "2" "return_output" (finish_payload false (VStr "v"))));
              mkMessage user
                (CArr [BToolResult "2"
                         (CArr [BText (stringified (VObj [("success", VBool true)]))])
                         false])] /\
  exists inner tail,
    trace (snd loop)
    = trace (snd first)
      ++ EvCommit (returned (mkRound None false []) (fst (fst first)))
      :: EvInstruction finishInstruction
      :: EvRound FinishOnly 1 ["return_output"] ["return_output"]
      :: inner ++ tail /\
    Forall (fun e => inside_round e = true) inner /\
    exists final, tail = [EvCommit final].
Proof.
  intros st0 first loop.
  destruct (text_only_round_forces_one_finish_round 2 5 (demo 3) None
              "demo" "the answer" VUndefined no_tools demo_registry 0 []
              (start script_text_only)
              (returned (mkRound None false []) (fst (fst first)))
              (snd (fst first)) (snd first) (fst loop) (snd loop))
    as (_ & Hcall & inner & tail & T & Hin & Htail).
  - simpl. lia.
  - reflexivity.
  - vm_compute. reflexivity.
  - reflexivity.
  - vm_compute. eexists. reflexivity.
  - vm_compute. reflexivity.
  - split; [vm_compute; reflexivity|].
    exists inner, tail. split; [exact T|]. split; [exact Hin|].
    assert (Hout : exists history, fst loop = Returned history)
      by (vm_compute; eexists; reflexivity).
    destruct Hout as (history & Hout). rewrite Hout in Htail.
    destruct Htail as (final & _ & -> & _). exists final. reflexivity.
Defined.

(** A short result of [echo]: logged as it is and cached in full. *)
Lemma echo_result_is_cached :
  let call := invoke "call_1" "echo" (VStr "A") in
  let st' := snd (tool_try None echo call (start [])) in
  JsMap.get "call_1" (toolResults st') = Some (VStr (json_quote "A")) /\
  trace st' = [EvToolDone "echo" (VStr "A"); EvCached "call_1" (VStr (json_quote "A"))].
Proof.
  intros call st'.
  destruct (cache_holds_full_text_log_is_truncated None echo call (start [])
              (fst (tool_try None echo call (start []))) st')
    as [(_ & _ & [Hr|(e & Hr)])|(result & text & Hs & Hr & Hi & Hc)].
  - vm_compute. reflexivity.
  - vm_compute in Hr. discriminate.
  - vm_compute in Hr. discriminate.
  - vm_compute. split; reflexivity.
Defined.

(** C5 as stated fails: a result whose serialization has 1202
    characters is cached in full, not cut to 1000 characters plus the
    suffix. *)
Lemma cache_entry_is_not_truncated :
  let call := invoke "call_1" "echo" (VStr long_text) in
  let st' := snd (run_tool None echo call (start [])) in
  exists text,
    JSON_stringify (VStr long_text) = Some text /\
    String.length text = 1202 /\
    JsMap.get "call_1" (toolResults st') = Some (VStr text) /\
    VStr text <> VStr (slice0 1000 text +:+ "...(truncated)").
Proof.
  intros call st'. eexists. split; [reflexivity|].
  split; [vm_compute; reflexivity|]. split; [vm_compute; reflexivity|].
  intros H.
  apply (f_equal (fun v => match v with VStr s => String.length s | _ => 0 end)) in H.
  vm_compute in H. discriminate.
Qed.

(** The unknown tool [nope] over a transport that awaits the handler:
    the attempt is dropped, and the round that returns is the one of
    the next stream, without any [tool_result] for [nope]. *)
Lemma unknown_tool_round_is_retried :
  fst (fst (executeSingleRound 2 (demo 3) None [] no_tools demo_registry
              (start script_unknown_tool)))
  = Returned (mkRound (Some (mkResponse "sorry" [])) false
                [mkMessage assistant (CStr "sorry")]).
Proof.
  rewrite (unknown_tool_attempt_is_discarded_when_rejection_escapes 1 (demo 3) None []
             no_tools demo_registry (start script_unknown_tool) scripted
             unknown_invocation [text_only "sorry"] (invoke "1" "nope" (VStr "A"))).
  - vm_compute. reflexivity.
  - reflexivity.
  - reflexivity.
  - reflexivity.
  - reflexivity.
  - reflexivity.
  - reflexivity.
Defined.

(** * Further properties *)

(** ** Strings *)

Lemma length_append (a b : string) :
  String.length (a +:+ b) = String.length a + String.length b.
Proof.
  induction a as [|c a IH]; [reflexivity|].
  change (S (String.length (a +:+ b)) = S (String.length a + String.length b)).
  rewrite IH. reflexivity.
Qed.

Lemma append_assoc (a b c : string) : (a +:+ b) +:+ c = a +:+ (b +:+ c).
Proof.
  induction a as [|x a IH]; [reflexivity|].
  change (String x ((a +:+ b) +:+ c) = String x (a +:+ (b +:+ c))).
  rewrite IH. reflexivity.
Qed.

Lemma append_nil_r (a : string) : a +:+ "" = a.
Proof.
  induction a as [|x a IH]; [reflexivity|].
  change (String x (a +:+ "") = String x a). rewrite IH. reflexivity.
Qed.

Lemma length_slice0 (n : nat) (s : string) :
  String.length (slice0 n s) = Nat.min n (String.length s).
Proof.
  revert s. induction n as [|n IH]; intros [|c s]; simpl; try reflexivity.
  rewrite IH. reflexivity.
Qed.

Lemma slice0_append (n : nat) (s t : string) :
  n <= String.length s -> slice0 n (s +:+ t) = slice0 n s.
Proof.
  revert s. induction n as [|n IH]; intros [|c s] H; simpl in H; try reflexivity; [lia|].
  change (String c (slice0 n (s +:+ t)) = String c (slice0 n s)).
  rewrite IH by lia. reflexivity.
Qed.

Lemma slice0_slice0 (n : nat) (s : string) : slice0 n (slice0 n s) = slice0 n s.
Proof.
  revert s. induction n as [|n IH]; intros [|c s]; simpl; try reflexivity.
  rewrite IH. reflexivity.
Qed.

Lemma JSON_stringify_None (v : JsValue) : JSON_stringify v = None <-> v = VUndefined.
Proof.
  split; [|intros ->; reflexivity].
  destruct v as [| |[|]| | | |]; simpl; congruence.
Qed.

(** ** Image pruning, continued *)

Lemma list_sum_rev (l : list nat) : list_sum (rev l) = list_sum l.
Proof.
  induction l as [|x l IH]; simpl; [reflexivity|].
  rewrite list_sum_app, IH. simpl. lia.
Qed.

Lemma countImages_as_sum (messages : list Message) :
  countImages messages = list_sum (map countImages_message messages).
Proof. reflexivity. Qed.

Lemma filter_image_clean (l : list Block) :
  Forall (fun x => is_image x = false) l -> List.filter is_image l = [].
Proof.
  induction 1 as [|z l Hz _ IH]; simpl; [reflexivity|]. rewrite Hz. exact IH.
Qed.

Lemma filter_image_strip (c : list Block) :
  List.filter is_image (strip_content c) = [].
Proof.
  pose proof (filter_no_image_clean c) as H.
  destruct c as [|x c]; [reflexivity|]. unfold strip_content.
  destruct (List.filter (fun x0 => negb (is_image x0)) (x :: c)) as [|y c'];
    [reflexivity|].
  apply filter_image_clean. exact H.
Qed.

Lemma countImages_item_strip (item : Block) : countImages_item (strip_item item) = 0.
Proof.
  destruct item as [t|s|i n inp|id [s|c] e]; try reflexivity.
  simpl. rewrite filter_image_strip. reflexivity.
Qed.

Lemma countImages_message_strip (m : Message) :
  is_string_content (content m) = false ->
  countImages_message (strip_message m) = 0.
Proof.
  destruct m as [r [s|items]]; [discriminate|]. intros _.
  unfold strip_message, countImages_message. simpl.
  induction items as [|x items IH]; simpl; [reflexivity|].
  rewrite countImages_item_strip, IH. reflexivity.
Qed.

Lemma countImages_message_strip_any (m : Message) :
  countImages_message (strip_message m) = 0 \/ strip_message m = m.
Proof.
  destruct (is_string_content (content m)) eqn:E.
  - right. destruct m as [r [s|items]]; [reflexivity|discriminate].
  - left. apply countImages_message_strip. exact E.
Qed.

Lemma countImages_prune_backward (b : bool) (l : list Message) :
  list_sum (map countImages_message (prune_backward b l))
  <= list_sum (map countImages_message l).
Proof.
  revert b. induction l as [|m l IH]; intros b; simpl; [lia|].
  destruct (is_user m); [destruct b|]; simpl.
  - specialize (IH true).
    destruct (countImages_message_strip_any m) as [H|H]; rewrite H; lia.
  - specialize (IH true). lia.
  - specialize (IH b). lia.
Qed.

Lemma countImages_app (a b : list Message) :
  countImages (a ++ b) = countImages a + countImages b.
Proof. rewrite !countImages_as_sum, map_app, list_sum_app. reflexivity. Qed.

Lemma countImages_prune_earlier (l : list Message) :
  countImages (map prune_earlier l)
  = countImages (List.filter (fun m => negb (is_user m)) l)
    + countImages (List.filter (fun m => is_user m && is_string_content (content m)) l).
Proof.
  rewrite !countImages_as_sum.
  induction l as [|m l IH]; simpl; [reflexivity|].
  unfold prune_earlier at 1. destruct (is_user m) eqn:U; simpl.
  - destruct (is_string_content (content m)) eqn:S; simpl.
    + destruct m as [r [s|items]]; [|discriminate]. simpl. rewrite IH. reflexivity.
    + rewrite (countImages_message_strip m S), IH. reflexivity.
  - rewrite IH. lia.
Qed.

(** X1. Pruning never adds an image to what [countImages] counts; and
    when the history has a user-role message, what is left is exactly
    the images of the newest user-role message and of the messages
    after it, plus those of the earlier messages that are not
    user-role (a user-role message with a string content has none). *)
Theorem pruning_leaves_only_the_newest_images :
  (forall messages,
      countImages (handleHistoryImageMessages messages) <= countImages messages)
  /\ (forall earlier m later,
         is_user m = true ->
         Forall (fun x => is_user x = false) later ->
         countImages (handleHistoryImageMessages (earlier ++ m :: later))
         = countImages (List.filter (fun x => negb (is_user x)) earlier)
           + countImages (m :: later)).
Proof.
  split.
  - intros messages. unfold handleHistoryImageMessages.
    rewrite !countImages_as_sum, map_rev, list_sum_rev.
    etransitivity; [apply countImages_prune_backward|].
    rewrite map_rev, list_sum_rev. lia.
  - intros earlier m later Hm Hl.
    rewrite handleHistoryImageMessages_split by assumption.
    rewrite countImages_app, countImages_prune_earlier.
    assert (H0 : countImages
                   (List.filter (fun x => is_user x && is_string_content (content x))
                      earlier) = 0).
    { rewrite countImages_as_sum.
      induction earlier as [|x earlier IH]; simpl; [reflexivity|].
      destruct (is_user x && is_string_content (content x)) eqn:E; [|exact IH].
      simpl. rewrite IH. apply andb_prop in E as [_ E].
      destruct x as [r [s|items]]; [reflexivity|discriminate]. }
    rewrite H0. lia.
Qed.

Lemma pruning_three_turns_leaves_one_image :
  countImages (handleHistoryImageMessages (two_older_turns ++ screenshot "3" :: []))
  = 0 + 1.
Proof.
  apply (proj2 pruning_leaves_only_the_newest_images two_older_turns (screenshot "3") []).
  - reflexivity.
  - constructor.
Defined.

Lemma strip_content_nil_iff (c : list Block) : strip_content c = [] <-> c = [].
Proof.
  split; [|intros ->; reflexivity].
  destruct c as [|x c]; [reflexivity|]. unfold strip_content.
  destruct (List.filter _ (x :: c)); discriminate.
Qed.

Lemma outline_strip_message (m : Message) : outline (strip_message m) = outline m.
Proof.
  destruct m as [r [s|items]]; [reflexivity|].
  unfold strip_message, outline. simpl. f_equal. f_equal.
  rewrite map_map. apply map_ext.
  intros [t|s|i n inp|id [s|c] e]; reflexivity.
Qed.

Lemma outline_prune_backward (b : bool) (l : list Message) :
  map outline (prune_backward b l) = map outline l.
Proof.
  revert b. induction l as [|m l IH]; intros b; simpl; [reflexivity|].
  destruct (is_user m); [destruct b|]; simpl; rewrite ?outline_strip_message, IH;
    reflexivity.
Qed.

(** X2. Pruning keeps the outline of the history: the number of
    messages, their roles, string contents, and for every block its
    type, the id that pairs [tool_use] with [tool_result], and the
    error flag; and a [tool_result] content is empty afterwards only if
    it was empty before. *)
Theorem pruning_keeps_the_outline :
  (forall messages,
      map outline (handleHistoryImageMessages messages) = map outline messages)
  /\ (forall messages,
         length (handleHistoryImageMessages messages) = length messages)
  /\ (forall c, strip_content c = [] <-> c = []).
Proof.
  assert (H : forall messages,
             map outline (handleHistoryImageMessages messages) = map outline messages).
  { intros messages. unfold handleHistoryImageMessages.
    rewrite map_rev, outline_prune_backward, <- map_rev, rev_involutive. reflexivity. }
  split; [exact H|]. split; [|exact strip_content_nil_iff].
  intros messages. rewrite <- (length_map outline), H. apply length_map.
Qed.

(** ** [truncate] *)

(** X3. [truncate] throws exactly on [undefined]; it returns its
    argument when the serialization has fewer than 1000 characters; and
    otherwise it returns a string of exactly 1014 characters that
    starts with the first 1000 characters of the serialization and
    ends with [...(truncated)]. *)
Theorem truncate_bounds (x : JsValue) :
  ((exists e, truncate x = inl e) <-> x = VUndefined)
  /\ (forall s, JSON_stringify x = Some s -> String.length s < 1000 ->
                truncate x = inr x)
  /\ (forall s, JSON_stringify x = Some s -> 1000 <= String.length s ->
                exists t, truncate x = inr (VStr t) /\
                          String.length t = 1014 /\
                          slice0 1000 t = slice0 1000 s /\
                          t = slice0 1000 s +:+ "...(truncated)").
Proof.
  unfold truncate. split; [|split].
  - rewrite <- JSON_stringify_None. destruct (JSON_stringify x) as [s|].
    + split; [|discriminate]. intros (e & H).
      destruct (Nat.ltb _ _); discriminate.
    + split; [reflexivity|]. intros _. eexists. reflexivity.
  - intros s -> Hlt. apply Nat.ltb_lt in Hlt. rewrite Hlt. reflexivity.
  - intros s -> Hge. apply Nat.ltb_ge in Hge. rewrite Hge.
    eexists. split; [reflexivity|]. apply Nat.ltb_ge in Hge.
    split; [|split; [|reflexivity]].
    + rewrite length_append, length_slice0.
      change (String.length "...(truncated)") with 14. lia.
    + rewrite slice0_append; [apply slice0_slice0|].
      rewrite length_slice0. lia.
Qed.

Lemma truncate_long_text :
  exists t, truncate (VStr long_text) = inr (VStr t) /\ String.length t = 1014.
Proof.
  destruct (proj2 (proj2 (truncate_bounds (VStr long_text)))
              (json_quote long_text) eq_refl) as (t & H & Hl & _).
  - apply Nat.leb_le. vm_compute. reflexivity.
  - exists t. split; assumption.
Defined.

(** ** [onContent] *)

Lemma concat_empty_cons (c : string) (l : list string) :
  String.concat "" (c :: l) = c +:+ String.concat "" l.
Proof. destruct l; simpl; [rewrite append_nil_r|]; reflexivity. Qed.

Lemma accumulate_from (acc : string) (contents : list string) :
  fold_left (fun acc content =>
               if negb (String.eqb content "") && has_non_whitespace content
               then acc +:+ content else acc) contents acc
  = acc +:+ String.concat "" (List.filter has_non_whitespace contents).
Proof.
  revert acc. induction contents as [|c contents IH]; intros acc.
  - simpl. symmetry. apply append_nil_r.
  - cbn [fold_left List.filter]. rewrite IH. destruct (has_non_whitespace c) eqn:E.
    + assert (Hne : String.eqb c "" = false) by (destruct c; [discriminate|reflexivity]).
      rewrite Hne. cbn [negb andb]. rewrite concat_empty_cons, append_assoc. reflexivity.
    + rewrite andb_false_r. reflexivity.
Qed.

Lemma is_whitespace_codes (c : ascii) :
  is_whitespace c = true <-> In (nat_of_ascii c) [9; 10; 11; 12; 13; 32; 160].
Proof.
  unfold is_whitespace. cbv zeta.
  rewrite !orb_true_iff, andb_true_iff, !Nat.eqb_eq, !Nat.leb_le. simpl. lia.
Qed.

(** X4. The text of a round is the concatenation, in order, of the
    chunks that [trim] does not empty; a chunk made only of characters
    that [trim] strips (tab, line feed, vertical tab, form feed,
    carriage return, space, no-break space) is dropped whole, also
    between words, and a stream of such chunks alone yields no
    assistant text message. *)
Theorem blank_chunks_are_dropped :
  (forall contents,
      accumulate_text contents
      = String.concat "" (List.filter has_non_whitespace contents))
  /\ (forall contents toolUseMessage toolResultMessage,
         Forall (fun c => has_non_whitespace c = false) contents ->
         assemble (accumulate_text contents) toolUseMessage toolResultMessage
         = option_list toolUseMessage ++ option_list toolResultMessage)
  /\ (forall s,
         has_non_whitespace s = false <->
         Forall (fun c => In (nat_of_ascii c) [9; 10; 11; 12; 13; 32; 160])
           (String.list_ascii_of_string s)).
Proof.
  assert (H : forall contents,
             accumulate_text contents
             = String.concat "" (List.filter has_non_whitespace contents)).
  { intros contents. unfold accumulate_text. rewrite accumulate_from. reflexivity. }
  split; [exact H|]. split.
  - intros contents u r Hall. rewrite H.
    assert (Hf : List.filter has_non_whitespace contents = []).
    { induction Hall as [|c l Hc _ IH]; simpl; [reflexivity|]. rewrite Hc. exact IH. }
    rewrite Hf. reflexivity.
  - induction s as [|c s IH]; cbn [has_non_whitespace String.list_ascii_of_string].
    + split; [constructor|reflexivity].
    + rewrite orb_false_iff, negb_false_iff, IH, is_whitespace_codes. split.
      * intros [Hc Hs]. constructor; assumption.
      * intros Hall. inversion Hall; subst. split; assumption.
Qed.

Lemma blank_between_words_is_dropped :
  accumulate_text ["Hello"; " "; String (ascii_of_nat 160) ""; "world"] = "Helloworld"
  /\ assemble (accumulate_text [" "; newline; String (ascii_of_nat 160) ""]) None None
     = [].
Proof.
  split.
  - rewrite (proj1 blank_chunks_are_dropped). reflexivity.
  - apply (proj1 (proj2 blank_chunks_are_dropped)
             [" "; newline; String (ascii_of_nat 160) ""] None None).
    repeat constructor.
Defined.

(** ** The summarizing compressor *)

Lemma is_nullish_json_clone (v : JsValue) : is_nullish (json_clone v) = is_nullish v.
Proof. destruct v; reflexivity. Qed.

Lemma role_clone_message (m : Message) : role (clone_message m) = role m.
Proof. destruct m as [r [s|items]]; reflexivity. Qed.

Lemma is_string_content_clone (m : Message) :
  is_string_content (content (clone_message m)) = is_string_content (content m).
Proof. destruct m as [r [s|items]]; reflexivity. Qed.

Lemma summarizable_clone (m : Message) : summarizable (clone_message m) = summarizable m.
Proof.
  destruct m as [r [s|items]]; [reflexivity|].
  destruct items as [|[t|src|i n inp|id c e] items]; try reflexivity.
  - unfold summarizable. simpl. apply f_equal, is_nullish_json_clone.
  - destruct c; reflexivity.
Qed.

Lemma first_input_prop_summarizable (m : Message) (k : string) :
  summarizable m = true -> exists v, first_input_prop (content m) k = inr v.
Proof.
  unfold summarizable, first_input_prop.
  destruct (first_input (content m)) as [e|input]; [discriminate|].
  intros H. simpl. destruct input; try discriminate; eexists; reflexivity.
Qed.

Lemma first_input_prop_not_summarizable (m : Message) (k : string) :
  summarizable m = false -> exists e, first_input_prop (content m) k = inl e.
Proof.
  unfold summarizable, first_input_prop.
  destruct (first_input (content m)) as [e|input]; [intros _; eexists; reflexivity|].
  intros H. simpl. destruct input; try discriminate; eexists; reflexivity.
Qed.

(** The compressor works index by index. *)
Lemma SimpleQA_loop_spec (len idx : nat) (rest out : list Message) :
  SimpleQA_loop len idx rest = inr out ->
  length out = length rest /\
  forall i msg, rest !! i = Some msg ->
    exists pushed,
      SimpleQA_step len (idx + i) msg (rest !! S i) = inr pushed /\
      out !! i = Some pushed.
Proof.
  revert idx out. induction rest as [|m rest IH]; intros idx out H; simpl in H.
  { inversion H; subst. split; [reflexivity|]. intros i msg Hi. discriminate. }
  destruct (SimpleQA_step len idx m (head rest)) as [e|pushed] eqn:E; [discriminate|].
  simpl in H.
  destruct (SimpleQA_loop len (S idx) rest) as [e|tail] eqn:L; [discriminate|].
  simpl in H. inversion H; subst out. clear H.
  destruct (IH _ _ L) as (Hlen & Hrest). split; [simpl; rewrite Hlen; reflexivity|].
  intros [|i] msg Hi.
  - inversion Hi; subst msg. exists pushed. rewrite Nat.add_0_r.
    split; [|reflexivity]. rewrite <- E. f_equal. destruct rest; reflexivity.
  - destruct (Hrest i msg Hi) as (p & Hp & Ho). exists p.
    replace (idx + S i) with (S idx + i) by lia. split; assumption.
Qed.

Lemma SimpleQA_loop_throws (len idx : nat) (rest : list Message) (e : Thrown) :
  SimpleQA_loop len idx rest = inl e ->
  exists i msg e', rest !! i = Some msg /\
                   SimpleQA_step len (idx + i) msg (rest !! S i) = inl e'.
Proof.
  revert idx. induction rest as [|m rest IH]; intros idx H; simpl in H; [discriminate|].
  destruct (SimpleQA_step len idx m (head rest)) as [e1|pushed] eqn:E.
  - exists 0, m, e1. split; [reflexivity|]. rewrite Nat.add_0_r, <- E.
    f_equal. destruct rest; reflexivity.
  - simpl in H.
    destruct (SimpleQA_loop len (S idx) rest) as [e2|tail] eqn:L; [|discriminate].
    simpl in H. inversion H; subst e2.
    destruct (IH _ L) as (i & msg & e' & Hi & Hs).
    exists (S i), msg, e'. split; [exact Hi|].
    replace (idx + S i) with (S idx + i) by lia. exact Hs.
Qed.

Lemma SimpleQA_loop_returns (len idx : nat) (rest : list Message) :
  (forall i msg, rest !! i = Some msg ->
                 exists pushed, SimpleQA_step len (idx + i) msg (rest !! S i) = inr pushed) ->
  exists out, SimpleQA_loop len idx rest = inr out.
Proof.
  intros H. destruct (SimpleQA_loop len idx rest) as [e|out] eqn:L; [|eexists; reflexivity].
  apply SimpleQA_loop_throws in L as (i & msg & e' & Hi & Hs).
  destruct (H i msg Hi) as (p & Hp). congruence.
Qed.

Lemma SimpleQA_step_user_returns (len idx : nat) (msg : Message) (next : option Message) :
  role msg <> assistant -> exists pushed, SimpleQA_step len idx msg next = inr pushed.
Proof.
  intros Hr. unfold SimpleQA_step. destruct (role msg); [eexists; reflexivity|congruence|].
  destruct (Nat.eqb (S idx) len); [eexists; reflexivity|].
  destruct next as [msg'|]; [|eexists; reflexivity].
  destruct (first_input_prop _ _); eexists; reflexivity.
Qed.

(** X5. When the summarizing compressor returns, it returns as many
    messages as it was given; a system message, a user message in the
    last position, and an assistant message that is second to last or
    has a string content come out as copies of themselves; every other
    assistant message comes out as an assistant message with a string
    content. *)
Theorem SimpleQA_keeps_length_and_passes_through
  (messages out : list Message) (i : nat) (msg : Message) :
  SimpleQA_comporess messages = inr out ->
  messages !! i = Some msg ->
  length out = length messages /\
  (role msg = system \/
   (role msg = user /\ S i = length messages) \/
   (role msg = assistant /\
    (S (S i) = length messages \/ is_string_content (content msg) = true)) ->
   out !! i = Some (clone_message msg)) /\
  (role msg = assistant -> S (S i) <> length messages ->
   is_string_content (content msg) = false ->
   exists text, out !! i = Some (mkMessage assistant (CStr text))).
Proof.
  unfold SimpleQA_comporess. intros H Hi.
  apply SimpleQA_loop_spec in H as (Hlen & Hspec).
  rewrite length_map in *. split; [exact Hlen|].
  destruct (Hspec i (clone_message msg)) as (pushed & Hstep & Hout).
  { rewrite list_lookup_fmap, Hi. reflexivity. }
  simpl in Hstep. unfold SimpleQA_step in Hstep.
  rewrite role_clone_message, is_string_content_clone in Hstep.
  split.
  - intros [Hr|[(Hr & Hl)|(Hr & Hc)]]; rewrite Hr in Hstep.
    + inversion Hstep; subst. exact Hout.
    + apply Nat.eqb_eq in Hl. rewrite Hl in Hstep. inversion Hstep; subst. exact Hout.
    + assert (Hb : Nat.eqb (S (S i)) (length messages)
                   || is_string_content (content msg) = true).
      { destruct Hc as [Hc|Hc]; [apply Nat.eqb_eq in Hc|]; rewrite Hc;
          [reflexivity|apply orb_true_r]. }
      rewrite Hb in Hstep. inversion Hstep; subst. exact Hout.
  - intros Hr Hl Hc. rewrite Hr, Hc in Hstep.
    apply Nat.eqb_neq in Hl. rewrite Hl in Hstep. simpl in Hstep.
    destruct (first_input_prop _ "userSidePrompt") as [e|task]; [discriminate|].
    simpl in Hstep.
    destruct (first_input_prop _ "thinking") as [e|details]; [discriminate|].
    simpl in Hstep. inversion Hstep; subst. eexists. exact Hout.
Qed.

Lemma SimpleQA_two_rounds_first_turn :
  exists text, returned_list (SimpleQA_comporess two_rounds) !! 2
               = Some (mkMessage assistant (CStr text)).
Proof.
  destruct (SimpleQA_keeps_length_and_passes_through two_rounds
              (returned_list (SimpleQA_comporess two_rounds)) 2
              (tool_turn "1" (envelope_input (VStr "nothing yet") (VStr "look")
                                (VStr "Looking") VNull)))
    as (_ & _ & H).
  - vm_compute. reflexivity.
  - reflexivity.
  - apply H; [reflexivity|simpl; lia|reflexivity].
Defined.

(** X6. The summarizing compressor throws exactly when some assistant
    message that is not second to last and has an array content cannot
    be summarized: the array is empty, or its first block is not a
    [tool_use], or the input of that [tool_use] is [null] or
    [undefined]. User and system messages never make it throw; on the
    empty history it returns the empty history. *)
Theorem SimpleQA_throws_on_unsummarizable_assistant_turn (messages : list Message) :
  ((exists e, SimpleQA_comporess messages = inl e) <->
   (exists i msg, messages !! i = Some msg /\ role msg = assistant /\
                  S (S i) <> length messages /\
                  is_string_content (content msg) = false /\
                  summarizable msg = false))
  /\ SimpleQA_comporess [] = inr [].
Proof.
  split; [|reflexivity]. unfold SimpleQA_comporess. split.
  - intros (e & H). apply SimpleQA_loop_throws in H as (i & m & e' & Hi & Hs).
    rewrite list_lookup_fmap in Hi.
    destruct (messages !! i) as [msg|] eqn:Hm; [|discriminate].
    inversion Hi; subst m. clear Hi. exists i, msg. split; [exact Hm|].
    rewrite length_map in Hs. simpl in Hs.
    destruct (role msg) eqn:Hr.
    + destruct (SimpleQA_step_user_returns (length messages) i (clone_message msg)
                  (map clone_message messages !! S i)) as (p & Hp);
        [rewrite role_clone_message; congruence|congruence].
    + unfold SimpleQA_step in Hs.
      rewrite role_clone_message, Hr, is_string_content_clone in Hs.
      destruct (Nat.eqb_spec (S (S i)) (length messages)) as [Hl|Hl]; [discriminate|].
      destruct (is_string_content (content msg)) eqn:Hc; [discriminate|].
      simpl in Hs. split; [reflexivity|]. split; [exact Hl|]. split; [reflexivity|].
      rewrite <- summarizable_clone.
      destruct (summarizable (clone_message msg)) eqn:Hsum; [|reflexivity].
      destruct (first_input_prop_summarizable _ "userSidePrompt" Hsum) as (v1 & H1).
      destruct (first_input_prop_summarizable _ "thinking" Hsum) as (v2 & H2).
      rewrite H1 in Hs. simpl in Hs. rewrite H2 in Hs. discriminate.
    + destruct (SimpleQA_step_user_returns (length messages) i (clone_message msg)
                  (map clone_message messages !! S i)) as (p & Hp);
        [rewrite role_clone_message; congruence|congruence].
  - intros (i & msg & Hi & Hr & Hl & Hc & Hsum).
    destruct (SimpleQA_loop _ 0 _) as [e|out] eqn:L; [eexists; reflexivity|].
    exfalso. apply SimpleQA_loop_spec in L as (_ & Hspec).
    destruct (Hspec i (clone_message msg)) as (pushed & Hstep & _).
    { rewrite list_lookup_fmap, Hi. reflexivity. }
    simpl in Hstep. unfold SimpleQA_step in Hstep.
    rewrite role_clone_message, Hr, is_string_content_clone, Hc, length_map in Hstep.
    apply Nat.eqb_neq in Hl. rewrite Hl in Hstep. simpl in Hstep.
    rewrite <- summarizable_clone in Hsum.
    destruct (first_input_prop_not_summarizable _ "userSidePrompt" Hsum) as (e & He).
    rewrite He in Hstep. discriminate.
Qed.

(** X7. A user message that is not in the last position is replaced by
    what the next message says: when the first block of the next
    message is a [tool_use] with an input that can be read, by the user
    message [<result>observation</result>] with that input's
    [observation]; otherwise by a copy of the next message itself, not
    of the user message. *)
Theorem SimpleQA_user_turn_is_read_off_the_next_message
  (messages out : list Message) (i : nat) (msg next : Message) :
  SimpleQA_comporess messages = inr out ->
  messages !! i = Some msg ->
  messages !! S i = Some next ->
  role msg = user ->
  out !! i
  = Some (match first_input_prop (content (clone_message next)) "observation" with
          | inr result =>
              mkMessage user (CStr ("<result>" +:+ js_to_string result +:+ "</result>"))
          | inl _ => clone_message next
          end).
Proof.
  unfold SimpleQA_comporess. intros H Hi Hn Hr.
  apply SimpleQA_loop_spec in H as (_ & Hspec).
  destruct (Hspec i (clone_message msg)) as (pushed & Hstep & Hout).
  { rewrite list_lookup_fmap, Hi. reflexivity. }
  simpl in Hstep. unfold SimpleQA_step in Hstep.
  rewrite role_clone_message, Hr, length_map in Hstep.
  assert (Hlt : S i < length messages) by (apply lookup_lt_Some in Hn; exact Hn).
  destruct (Nat.eqb_spec (S i) (length messages)) as [Hl|Hl]; [lia|].
  rewrite list_lookup_fmap, Hn in Hstep. simpl in Hstep.
  rewrite Hout. f_equal.
  destruct (first_input_prop _ _); inversion Hstep; reflexivity.
Qed.

Lemma SimpleQA_prompt_turn_reads_first_call :
  returned_list (SimpleQA_comporess two_rounds) !! 1
  = Some (mkMessage user (CStr "<result>nothing yet</result>"))
  /\ returned_list (SimpleQA_comporess (firstn 4 two_rounds ++ [screenshot "2"])) !! 3
     = Some (screenshot "2").
Proof.
  split.
  - rewrite (SimpleQA_user_turn_is_read_off_the_next_message two_rounds
               (returned_list (SimpleQA_comporess two_rounds)) 1
               (mkMessage user (CStr "user prompt"))
               (tool_turn "1" (envelope_input (VStr "nothing yet") (VStr "look")
                                 (VStr "Looking") VNull))).
    + reflexivity.
    + vm_compute. reflexivity.
    + reflexivity.
    + reflexivity.
    + reflexivity.
  - rewrite (SimpleQA_user_turn_is_read_off_the_next_message
               (firstn 4 two_rounds ++ [screenshot "2"])
               (returned_list (SimpleQA_comporess (firstn 4 two_rounds ++ [screenshot "2"])))
               3 (screenshot "1") (screenshot "2")).
    + reflexivity.
    + vm_compute. reflexivity.
    + reflexivity.
    + reflexivity.
    + reflexivity.
Defined.

(** ** [BrowserUse] *)

Lemma includes_In (k : string) (l : list string) : includes k l = true <-> In k l.
Proof.
  unfold includes. rewrite existsb_exists. split.
  - intros (x & Hx & He). apply String.eqb_eq in He. subst. exact Hx.
  - intros H. exists k. split; [exact H|apply String.eqb_refl].
Qed.

(** X8. For required keys among [index] and [text] and parameters
    that are an object, [checkParams] returns exactly when every
    required key is a key of the object, whatever the value under it;
    otherwise it throws the message that names the first required key
    that is missing. For parameters that are [undefined] or [null] it
    throws as soon as one key is required. *)
Theorem checkParams_names_first_missing_key
  (required : list string) (fields : list (string * JsValue)) :
  Forall (fun key => In key BrowserUse_keys) required ->
  (checkParams required (VObj fields) = inr tt <->
   Forall (fun key => is_Some (assoc_get key fields)) required)
  /\ (forall present key rest,
         required = present ++ key :: rest ->
         Forall (fun k => is_Some (assoc_get k fields)) present ->
         assoc_get key fields = None ->
         checkParams required (VObj fields)
         = inl (ThrowError ("'" +:+ key +:+ "' parameter is missing but required")))
  /\ (forall params,
         is_nullish params = true -> required <> [] ->
         exists message, checkParams required params = inl (ThrowError message)).
Proof.
  intros _. split; [|split].
  - induction required as [|key rest IH]; simpl.
    + split; [constructor|reflexivity].
    + destruct (assoc_get key fields) as [v|] eqn:E.
      * rewrite bool_decide_eq_true_2 by (eexists; reflexivity). rewrite IH.
        split; [intros H; constructor; [rewrite E; eexists; reflexivity|exact H]|].
        intros H. inversion H; assumption.
      * rewrite bool_decide_eq_false_2 by (intros [x Hx]; discriminate).
        split; [discriminate|]. intros H. inversion H as [|? ? [x Hx] _]; subst.
        rewrite E in Hx. discriminate.
  - intros present key rest -> Hp Hk.
    induction Hp as [|k present [v Hv] _ IH]; simpl.
    + rewrite Hk. rewrite bool_decide_eq_false_2 by (intros [x Hx]; discriminate).
      reflexivity.
    + rewrite Hv. rewrite bool_decide_eq_true_2 by (eexists; reflexivity). exact IH.
  - intros params Hn Hne. destruct required as [|key rest]; [congruence|].
    destruct params; try discriminate; eexists; reflexivity.
Qed.

Lemma checkParams_input_text_without_text :
  (checkParams InputText_required (VObj [("index", VNum 3)]) = inr tt <->
   Forall (fun key => is_Some (assoc_get key [("index", VNum 3)])) InputText_required)
  /\ (forall present key rest,
         InputText_required = present ++ key :: rest ->
         Forall (fun k => is_Some (assoc_get k [("index", VNum 3)])) present ->
         assoc_get key [("index", VNum 3)] = None ->
         checkParams InputText_required (VObj [("index", VNum 3)])
         = inl (ThrowError ("'" +:+ key +:+ "' parameter is missing but required")))
  /\ (forall params,
         is_nullish params = true -> InputText_required <> [] ->
         exists message, checkParams InputText_required params = inl (ThrowError message)).
Proof.
  apply (checkParams_names_first_missing_key InputText_required [("index", VNum 3)]).
  constructor; [left; reflexivity|].
  constructor; [right; left; reflexivity|]. constructor.
Defined.

(** X9. The schema built by the constructor declares a property only
    for a required key, and only for the keys [index] and [text]: a
    required key of another name is listed under [required] without a
    declaration. *)
Theorem browser_schema_declares_required_index_and_text
  (required : list string) (k : string) :
  is_Some (assoc_get k (browser_properties required)) <->
  (k = "index" \/ k = "text") /\ In k required.
Proof.
  unfold browser_properties.
  destruct (includes "index" required) eqn:Ei, (includes "text" required) eqn:Et;
    cbn [app assoc_get].
  - apply includes_In in Ei. apply includes_In in Et.
    destruct (String.eqb_spec "index" k) as [<-|Hi].
    + split; [intros _; split; [left; reflexivity|exact Ei]|intros _; eexists; reflexivity].
    + destruct (String.eqb_spec "text" k) as [<-|Ht].
      * split; [intros _; split; [right; reflexivity|exact Et]|
                intros _; eexists; reflexivity].
      * split; [intros [x Hx]; discriminate|]. intros ([H|H] & _); congruence.
  - apply includes_In in Ei.
    destruct (String.eqb_spec "index" k) as [<-|Hi].
    + split; [intros _; split; [left; reflexivity|exact Ei]|intros _; eexists; reflexivity].
    + split; [intros [x Hx]; discriminate|]. intros ([H|H] & Hin); [congruence|].
      subst k. apply includes_In in Hin. congruence.
  - apply includes_In in Et.
    destruct (String.eqb_spec "text" k) as [<-|Ht].
    + split; [intros _; split; [right; reflexivity|exact Et]|
              intros _; eexists; reflexivity].
    + split; [intros [x Hx]; discriminate|]. intros ([H|H] & Hin); [|congruence].
      subst k. apply includes_In in Hin. congruence.
  - split; [intros [x Hx]; discriminate|].
    intros ([H|H] & Hin); subst k; apply includes_In in Hin; congruence.
Qed.

(** X10. Parameters that pass [checkParams] of [select_dropdown_option]
    can still be rejected by its [executeWithArgs]: for an object that
    has both keys, the two checks pass exactly when neither value is
    [null] or [undefined], and the [index] is checked first. *)
Theorem select_dropdown_rejects_null_values
  (fields : list (string * JsValue)) (index text : JsValue) :
  assoc_get "index" fields = Some index ->
  assoc_get "text" fields = Some text ->
  checkParams SelectDropdownOption_required (VObj fields) = inr tt /\
  SelectDropdownOption_guard (VObj fields)
  = if is_nullish index then inl (ThrowError "index parameter is required")
    else if is_nullish text then inl (ThrowError "text parameter is required")
    else inr tt.
Proof.
  intros Hi Ht. split.
  - simpl. rewrite Hi, Ht. rewrite !bool_decide_eq_true_2 by (eexists; reflexivity).
    reflexivity.
  - unfold SelectDropdownOption_guard, loosely_null. simpl. rewrite Hi, Ht. simpl.
    destruct (is_nullish index); [reflexivity|]. simpl.
    destruct (is_nullish text); reflexivity.
Qed.

Lemma select_dropdown_null_index :
  checkParams SelectDropdownOption_required
    (VObj [("index", VNull); ("text", VStr "Paris")]) = inr tt /\
  SelectDropdownOption_guard (VObj [("index", VNull); ("text", VStr "Paris")])
  = inl (ThrowError "index parameter is required").
Proof.
  apply (select_dropdown_rejects_null_values
           [("index", VNull); ("text", VStr "Paris")] VNull (VStr "Paris"));
    reflexivity.
Defined.

(** ** [Eko] *)

Lemma keeps_tool_false (hooks : HumanHooks) (name : string) :
  keeps_tool hooks name = false <->
  (name = "human_input_text" /\ onHumanInputText hooks = false) \/
  (name = "human_input_single_choice" /\ onHumanInputSingleChoice hooks = false) \/
  (name = "human_input_multiple_choice" /\ onHumanInputMultipleChoice hooks = false) \/
  (name = "human_operate" /\ onHumanOperate hooks = false).
Proof.
  unfold keeps_tool, tool2isHookExists. cbn [assoc_get].
  destruct (String.eqb_spec "human_input_text" name) as [<-|H1].
  { split; [intros H; left; split; [reflexivity|exact H]|].
    intros [(_ & H)|[(H & _)|[(H & _)|(H & _)]]]; [exact H|discriminate..]. }
  destruct (String.eqb_spec "human_input_single_choice" name) as [<-|H2].
  { split; [intros H; right; left; split; [reflexivity|exact H]|].
    intros [(H & _)|[(_ & H)|[(H & _)|(H & _)]]]; [discriminate|exact H|discriminate..]. }
  destruct (String.eqb_spec "human_input_multiple_choice" name) as [<-|H3].
  { split; [intros H; right; right; left; split; [reflexivity|exact H]|].
    intros [(H & _)|[(H & _)|[(_ & H)|(H & _)]]];
      [discriminate|discriminate|exact H|discriminate]. }
  destruct (String.eqb_spec "human_operate" name) as [<-|H4].
  { split; [intros H; right; right; right; split; [reflexivity|exact H]|].
    intros [(H & _)|[(H & _)|[(H & _)|(_ & H)]]]; [discriminate..|exact H]. }
  split; [intros H; discriminate H|].
  intros [(H & _)|[(H & _)|[(H & _)|(H & _)]]]; congruence.
Qed.

Section EkoTools.
Context {W : Type}.

(** X11. [registerTools] registers the static tools in their order and
    leaves out exactly the human tools whose hook the callback lacks:
    a tool of any other name is always registered, and without a
    callback every tool is. *)
Theorem registerTools_drops_human_tools_without_hook
  (static_tools : JsMap.t (Tool W)) (hooks : HumanHooks) :
  registerTools static_tools None = JsMap.values static_tools /\
  registerTools static_tools (Some hooks)
  = List.filter (fun tool => keeps_tool hooks (tool_name tool)) (JsMap.values static_tools) /\
  (forall tool,
      In tool (registerTools static_tools (Some hooks)) <->
      In tool (JsMap.values static_tools) /\
      ~ ((tool_name tool = "human_input_text" /\ onHumanInputText hooks = false) \/
         (tool_name tool = "human_input_single_choice" /\
          onHumanInputSingleChoice hooks = false) \/
         (tool_name tool = "human_input_multiple_choice" /\
          onHumanInputMultipleChoice hooks = false) \/
         (tool_name tool = "human_operate" /\ onHumanOperate hooks = false))) /\
  (onHumanInputText hooks = true -> onHumanInputSingleChoice hooks = true ->
   onHumanInputMultipleChoice hooks = true -> onHumanOperate hooks = true ->
   registerTools static_tools (Some hooks) = JsMap.values static_tools).
Proof.
  split; [reflexivity|]. split; [reflexivity|]. split.
  - intros tool. unfold registerTools. rewrite filter_In, <- keeps_tool_false.
    destruct (keeps_tool hooks (tool_name tool)); split; intros [H1 H2];
      (split; [exact H1|]); congruence.
  - intros H1 H2 H3 H4. unfold registerTools.
    induction (JsMap.values static_tools) as [|t l IH]; simpl; [reflexivity|].
    assert (Hk : keeps_tool hooks (tool_name t) = true).
    { destruct (keeps_tool hooks (tool_name t)) eqn:E; [reflexivity|].
      apply keeps_tool_false in E. destruct E as [(_ & E)|[(_ & E)|[(_ & E)|(_ & E)]]];
        congruence. }
    rewrite Hk, IH. reflexivity.
Qed.

End EkoTools.

Lemma assoc_get_set_same {V : Type} (k : string) (v : V) (m : list (string * V)) :
  assoc_get k (JsMap.set k v m) = Some v.
Proof. exact (get_set_same k v m). Qed.

Lemma assoc_get_fold_set (entries target : list (string * JsValue)) (k : string) :
  NoDup (map fst entries) ->
  assoc_get k (fold_left (fun acc kv => JsMap.set (fst kv) (snd kv) acc) entries target)
  = match assoc_get k entries with
    | Some v => Some v
    | None => assoc_get k target
    end.
Proof.
  revert target. induction entries as [|[k' v'] entries IH]; intros target Hnd; simpl.
  - reflexivity.
  - apply NoDup_cons in Hnd as [Hnotin Hnd]. rewrite IH by exact Hnd.
    destruct (String.eqb_spec k' k) as [->|Hne].
    + assert (Hn : assoc_get k entries = None).
      { apply assoc_get_None_notin. intros Hin. apply Hnotin.
        apply list_elem_of_In. exact Hin. }
      rewrite Hn. apply (get_set_same k v' target).
    + destruct (assoc_get k entries); [reflexivity|].
      apply (get_set_other k' k v' target Hne).
Qed.

Lemma keys_fold_set_prefix {V : Type} (entries target : list (string * V)) :
  exists added,
    JsMap.keys (fold_left (fun acc kv => JsMap.set (fst kv) (snd kv) acc) entries target)
    = JsMap.keys target ++ added.
Proof.
  revert target. induction entries as [|[k v] entries IH]; intros target; simpl.
  - exists []. rewrite app_nil_r. reflexivity.
  - destruct (IH (JsMap.set k v target)) as (added & Ha). rewrite Ha.
    destruct (in_dec String.string_dec k (JsMap.keys target)) as [Hin|Hnin].
    + rewrite set_keys_present by exact Hin. exists added. reflexivity.
    + rewrite set_fresh by exact Hnin. unfold JsMap.keys. rewrite map_app. simpl.
      exists (k :: added). rewrite <- app_assoc. reflexivity.
Qed.

(** X12. In the configuration [buildEkoConfig] returns, a key that
    the caller's object has holds the caller's value, also when that
    value is [undefined]; any other key is as in the defaults. *)
Theorem buildEkoConfig_caller_keys_override_defaults
  (chrome : JsValue) (fields : list (string * JsValue)) :
  NoDup (map fst fields) ->
  exists own,
    buildEkoConfig chrome (VObj fields) = VObj own /\
    forall k,
      assoc_get k own
      = match assoc_get k fields with
        | Some v => Some v
        | None => assoc_get k (defaultEkoConfig chrome)
        end.
Proof.
  intros Hnd. eexists. split; [reflexivity|].
  intros k. unfold object_spread. simpl spread_entries.
  apply assoc_get_fold_set. exact Hnd.
Qed.

Lemma buildEkoConfig_undefined_url :
  exists own,
    buildEkoConfig VNull (VObj [("patchServerUrl", VUndefined)]) = VObj own /\
    forall k,
      assoc_get k own
      = match assoc_get k [("patchServerUrl", VUndefined)] with
        | Some v => Some v
        | None => assoc_get k (defaultEkoConfig VNull)
        end.
Proof.
  apply (buildEkoConfig_caller_keys_override_defaults VNull
           [("patchServerUrl", VUndefined)]).
  apply (bool_decide_unpack _). vm_compute. exact I.
Defined.

(** X13. Without a caller's object ([undefined] or [null])
    [buildEkoConfig] returns the defaults, and the defaults are what a
    caller's empty object gives. *)
Theorem buildEkoConfig_without_caller_object (chrome ekoConfig : JsValue) :
  is_nullish ekoConfig = true \/ ekoConfig = VObj [] ->
  buildEkoConfig chrome ekoConfig = VObj (defaultEkoConfig chrome).
Proof.
  intros [H| ->]; [|reflexivity]. destruct ekoConfig; try discriminate; reflexivity.
Qed.

Lemma buildEkoConfig_null :
  buildEkoConfig (VObj []) VNull = VObj (defaultEkoConfig (VObj [])).
Proof.
  apply (buildEkoConfig_without_caller_object (VObj []) VNull). left. reflexivity.
Defined.

(** ** [initWebFeatures] *)

Lemma initWebFeatures_step (options : JsValue) (w : Window) (r : option Window) :
  initWebFeatures options (Some w) = inr r ->
  exists w', r = Some w' /\
    has_requestIdleCallback w' = has_requestIdleCallback w /\
    ((w' = w) \/
     (truthy (__formProtectionInitialized w) = false /\
      truthy (__formProtectionInitialized w') = true /\
      scheduled w' = scheduled w ++ [if has_requestIdleCallback w then WhenIdle
                                     else AfterTimeout 1000])).
Proof.
  unfold initWebFeatures.
  destruct (get_prop _ "enableFormProtection") as [e|v]; [discriminate|]. simpl.
  destruct ((if is_undefined v then true else truthy v)
            && negb (truthy (__formProtectionInitialized w))) eqn:E;
    intros H; inversion H; subst; eexists; (split; [reflexivity|]).
  - split; [reflexivity|]. right. apply andb_prop in E as [_ E].
    apply negb_true_iff in E. repeat split. exact E.
  - split; [reflexivity|]. left. reflexivity.
Qed.

(** X14. However often and with whatever options [initWebFeatures] is
    called, [protect_form_fields] is scheduled at most once in the
    life of a window, and not at all once the flag
    [__formProtectionInitialized] is set; it is scheduled through
    [requestIdleCallback] where that exists and otherwise through a
    timeout of 1000 ms. Without a window nothing happens. *)
Theorem form_protection_is_scheduled_at_most_once
  (calls : list JsValue) (w w' : Window) :
  initWebFeatures_all calls (Some w) = inr (Some w') ->
  exists added,
    scheduled w' = scheduled w ++ added /\
    (added = [] \/
     added = [if has_requestIdleCallback w then WhenIdle else AfterTimeout 1000]) /\
    (truthy (__formProtectionInitialized w) = true -> w' = w) /\
    (added <> [] -> truthy (__formProtectionInitialized w') = true).
Proof.
  revert w. induction calls as [|options calls IH]; intros w H; simpl in H.
  - inversion H; subst. exists []. rewrite app_nil_r.
    repeat split; [left; reflexivity|congruence].
  - destruct (initWebFeatures options (Some w)) as [e|r] eqn:E; [discriminate|].
    simpl in H. apply initWebFeatures_step in E as (w1 & -> & Hidle & [->|(Hf & Hf1 & Hs)]).
    + apply IH. exact H.
    + destruct (IH _ H) as (added & Ha & _ & Hset & _).
      rewrite (Hset Hf1). exists [if has_requestIdleCallback w then WhenIdle
                                  else AfterTimeout 1000].
      split; [exact Hs|]. split; [right; reflexivity|].
      split; [congruence|]. intros _. exact Hf1.
Qed.

Lemma form_protection_three_calls :
  exists added,
    [WhenIdle] = scheduled clean_window ++ added /\
    (added = [] \/
     added = [if has_requestIdleCallback clean_window then WhenIdle else AfterTimeout 1000]) /\
    (truthy (__formProtectionInitialized clean_window) = true ->
     mkWindow (VBool true) true [WhenIdle] = clean_window) /\
    (added <> [] -> truthy (VBool true) = true).
Proof.
  apply (form_protection_is_scheduled_at_most_once
           [VUndefined; VObj []; VObj [("enableFormProtection", VBool true)]]
           clean_window (mkWindow (VBool true) true [WhenIdle])).
  reflexivity.
Defined.

(** * Histories *)

Lemma resultContent_shape (id : string) (result : JsValue) :
  exists c, resultContent id result = BToolResult id c false.
Proof.
  unfold resultContent. destruct (result_has_image result);
    [destruct (truthy _)|]; eexists; reflexivity.
Qed.

Lemma Forall2_rev_local {A B : Type} (R : A -> B -> Prop) (l : list A) (k : list B) :
  Forall2 R l k -> Forall2 R (rev l) (rev k).
Proof.
  induction 1 as [|x y l k Hxy _ IH]; simpl; [constructor|].
  apply Forall2_app; [exact IH|]. constructor; [exact Hxy|constructor].
Qed.

Lemma pruned_from_prune_backward (b : bool) (l : list Message) :
  Forall2 pruned_from l (prune_backward b l).
Proof.
  revert b. induction l as [|m l IH]; intros b; simpl; [constructor|].
  destruct (is_user m) eqn:E; [destruct b|]; constructor; try apply IH.
  - right. split; [exact E|reflexivity].
  - left. reflexivity.
  - left. reflexivity.
Qed.

Lemma pruned_from_history (messages : list Message) :
  Forall2 pruned_from messages (handleHistoryImageMessages messages).
Proof.
  unfold handleHistoryImageMessages.
  rewrite <- (rev_involutive messages) at 1.
  apply Forall2_rev_local, pruned_from_prune_backward.
Qed.

Lemma pruned_from_role (m m' : Message) : pruned_from m m' -> role m' = role m.
Proof.
  intros [->|(_ & ->)]; [reflexivity|].
  unfold strip_message. destruct (content m); reflexivity.
Qed.

Lemma pruned_from_not_user (m m' : Message) :
  is_user m = false -> pruned_from m m' -> m' = m.
Proof. intros H [->|(Hu & _)]; [reflexivity|congruence]. Qed.

Lemma pruned_from_string (m m' : Message) (r : Role) (s : string) :
  m = mkMessage r (CStr s) -> pruned_from m m' -> m' = m.
Proof. intros -> [->|(_ & ->)]; reflexivity. Qed.

Lemma pruned_from_result (id : string) (m m' : Message) :
  is_result_for id m -> pruned_from m m' -> is_result_for id m'.
Proof.
  intros (c & e & ->) [->|(_ & ->)]; [exists c, e; reflexivity|].
  unfold strip_message. simpl. destruct c; eexists _, _; reflexivity.
Qed.

Lemma strip_item_tool_use (item : Block) (id name : string) (input : JsValue) :
  strip_item item = BToolUse id name input -> item = BToolUse id name input.
Proof.
  destruct item as [| | |i c e]; simpl; try congruence. destruct c; discriminate.
Qed.

Lemma blocks_strip_message (m : Message) :
  blocks (strip_message m) = map strip_item (blocks m).
Proof.
  unfold strip_message, blocks. destruct (content m) eqn:E; simpl; [rewrite E|];
    reflexivity.
Qed.

Lemma strip_item_tool_result (item : Block) (id : string) (c : Content Block) (e : bool) :
  strip_item item = BToolResult id c e -> exists c0, item = BToolResult id c0 e.
Proof.
  destruct item as [| | |i c0 e0]; simpl; try discriminate.
  destruct c0; intros H; inversion H; subst; eexists; reflexivity.
Qed.

(** ** Pairing is kept by the steps that build a history *)

Lemma paired_pruned (msgs msgs' : list Message) :
  Forall2 pruned_from msgs msgs' -> paired msgs -> paired msgs'.
Proof.
  intros F [Hu Hr]. split.
  - intros i m' id name input Hm' Hin.
    destruct (Forall2_lookup_r _ _ _ _ _ F Hm') as (m & Hm & Hp).
    assert (Hin0 : In (BToolUse id name input) (blocks m)).
    { destruct Hp as [->|(_ & ->)]; [exact Hin|].
      rewrite blocks_strip_message in Hin. apply in_map_iff in Hin as (y & Hy & Hin).
      apply strip_item_tool_use in Hy. subst y. exact Hin. }
    destruct (Hu i m id name input Hm Hin0) as (-> & r & Hr1 & Hres).
    split; [apply (pruned_from_not_user (toolUseMessage_of id name input) m' eq_refl Hp)|].
    destruct (Forall2_lookup_l _ _ _ _ _ F Hr1) as (r' & Hr' & Hp').
    exists r'. split; [exact Hr'|]. exact (pruned_from_result _ _ _ Hres Hp').
  - intros i m' id c e Hm' Hin.
    destruct (Forall2_lookup_r _ _ _ _ _ F Hm') as (m & Hm & Hp).
    assert (Hin0 : exists c0, In (BToolResult id c0 e) (blocks m)).
    { destruct Hp as [->|(_ & ->)]; [exists c; exact Hin|].
      rewrite blocks_strip_message in Hin. apply in_map_iff in Hin as (y & Hy & Hin).
      destruct (strip_item_tool_result _ _ _ _ Hy) as (c0 & ->). exists c0. exact Hin. }
    destruct Hin0 as (c0 & Hin0).
    destruct (Hr i m id c0 e Hm Hin0) as (-> & j & name & input & -> & Hj).
    split.
    + destruct Hp as [->|(_ & ->)].
      * simpl in Hin. destruct Hin as [Hin|[]]. rewrite Hin. reflexivity.
      * rewrite blocks_strip_message in Hin. simpl in Hin. destruct Hin as [Hin|[]].
        unfold strip_message. simpl. rewrite Hin. reflexivity.
    + exists j, name, input. split; [reflexivity|].
      destruct (Forall2_lookup_l _ _ _ _ _ F Hj) as (u' & Hu' & Hpu).
      rewrite Hu'. f_equal.
      apply (pruned_from_not_user (toolUseMessage_of id name input) u' eq_refl Hpu).
Qed.

Lemma paired_app (a b : list Message) : paired a -> paired b -> paired (a ++ b).
Proof.
  intros [Hau Har] [Hbu Hbr]. split.
  - intros i m id name input Hm Hin. rewrite lookup_app in Hm.
    destruct (a !! i) as [x|] eqn:Ea.
    + inversion Hm; subst x.
      destruct (Hau i m id name input Ea Hin) as (-> & r & Hr1 & Hres).
      split; [reflexivity|]. exists r. split; [|exact Hres].
      apply lookup_app_l_Some. exact Hr1.
    + apply lookup_ge_None in Ea.
      destruct (Hbu _ m id name input Hm Hin) as (-> & r & Hr1 & Hres).
      split; [reflexivity|]. exists r. split; [|exact Hres].
      rewrite lookup_app_r by lia. replace (S i - length a) with (S (i - length a)) by lia.
      exact Hr1.
  - intros i m id c e Hm Hin. rewrite lookup_app in Hm.
    destruct (a !! i) as [x|] eqn:Ea.
    + inversion Hm; subst x.
      destruct (Har i m id c e Ea Hin) as (-> & j & name & input & -> & Hj).
      split; [reflexivity|]. exists j, name, input. split; [reflexivity|].
      apply lookup_app_l_Some. exact Hj.
    + apply lookup_ge_None in Ea.
      destruct (Hbr _ m id c e Hm Hin) as (-> & j & name & input & Hi & Hj).
      split; [reflexivity|]. exists (length a + j), name, input. split; [lia|].
      rewrite lookup_app_r by lia. replace (length a + j - length a) with j by lia.
      exact Hj.
Qed.

Lemma paired_no_blocks (msgs : list Message) :
  Forall (fun m => blocks m = []) msgs -> paired msgs.
Proof.
  intros F. split.
  - intros i m id name input Hm Hin. exfalso.
    assert (Hb : blocks m = []).
    { revert i Hm. induction F as [|x l Hx _ IH]; intros [|i] Hm; try discriminate.
      - inversion Hm; subst. exact Hx.
      - exact (IH i Hm). }
    rewrite Hb in Hin. exact Hin.
  - intros i m id c e Hm Hin. exfalso.
    assert (Hb : blocks m = []).
    { revert i Hm. induction F as [|x l Hx _ IH]; intros [|i] Hm; try discriminate.
      - inversion Hm; subst. exact Hx.
      - exact (IH i Hm). }
    rewrite Hb in Hin. exact Hin.
Qed.

Lemma paired_pair (id name : string) (input : JsValue) (result : Message) :
  is_result_for id result -> paired [toolUseMessage_of id name input; result].
Proof.
  intros (c & e & ->). split.
  - intros [|[|i]] m id' name' input' Hm Hin; inversion Hm; subst; simpl in Hin.
    + destruct Hin as [Hin|[]]. inversion Hin; subst. split; [reflexivity|].
      eexists. split; [reflexivity|]. exists c, e. reflexivity.
    + destruct Hin as [Hin|[]]. discriminate.
  - intros [|[|i]] m id' c' e' Hm Hin; inversion Hm; subst; simpl in Hin.
    + destruct Hin as [Hin|[]]. discriminate.
    + destruct Hin as [Hin|[]]. inversion Hin; subst. split; [reflexivity|].
      exists 0, name, input. split; reflexivity.
Qed.

Lemma paired_round (r : list Message) : round_shape r -> paired r.
Proof.
  intros (text & tail & -> & Ht). apply paired_app.
  - apply paired_no_blocks. destruct (String.eqb text ""); repeat constructor.
  - destruct Ht as [->|(id & name & input & result & -> & Hres)].
    + apply paired_no_blocks. constructor.
    + apply paired_pair. exact Hres.
Qed.

Section Histories.
Context {W : Type}.
Implicit Types (st : State W).

Lemma run_tool_result callback (tool : Tool W) (toolCall : ToolCall) st m st' :
  run_tool callback tool toolCall st = (m, st') -> is_result_for (tc_id toolCall) m.
Proof.
  unfold run_tool. destruct (tool_try callback tool toolCall st) as [[e|r] st1] eqn:E;
    intros H; inversion H; subst.
  - eexists _, _. reflexivity.
  - apply tool_try_spec in E as (_ & [(_ & _ & [Hr|(e & Hr)])|(result & logged & _ & Hr & _)]).
    + inversion Hr; subst. eexists _, _. reflexivity.
    + discriminate.
    + inversion Hr; subst.
      destruct (resultContent_shape (tc_id toolCall) result) as (c & ->).
      eexists _, _. reflexivity.
Qed.

Lemma finish_round_shape text (toolUseMessage toolResultMessage : option Message)
      resp has st round :
  finish_round text toolUseMessage toolResultMessage resp has st = Returned round ->
  roundMessages round = assemble text toolUseMessage toolResultMessage /\
  hasToolUse round = has /\ response round = resp.
Proof.
  unfold finish_round. destruct (__abort (context st)); intros H; inversion H; subst.
  repeat split.
Qed.

Lemma round_loop_shape fuel (this : ActionImpl W) callback params_copy toolMap resp has
      messages st round messages' st' :
  round_loop fuel this callback params_copy toolMap resp has messages st
  = (Returned round, messages', st') ->
  round_shape (roundMessages round) /\
  (hasToolUse round = false -> Forall (fun m => blocks m = []) (roundMessages round)).
Proof.
  revert resp has messages st.
  induction fuel as [|fuel IH]; intros resp has messages st H; simpl in H.
  { inversion H. }
  destruct (aborted st).
  { inversion H; subst. simpl. split; [|constructor].
    exists "", []. split; [reflexivity|left; reflexivity]. }
  destruct (llmProvider this) as [provider|]; [|inversion H].
  destruct (generateStream provider _ _ _ _) as [attempt w].
  destruct (invocation attempt) as [toolCall|].
  2:{ destruct (stream_error attempt); [eapply IH; exact H|].
      inversion H as [[Hf Hm Hs]]. apply finish_round_shape in Hf as (-> & Hh & _).
      unfold assemble. simpl. rewrite app_nil_r. split.
      - eexists _, []. rewrite app_nil_r. split; [reflexivity|left; reflexivity].
      - intros _. destruct (String.eqb _ ""); repeat constructor. }
  destruct (JsMap.get (tc_name toolCall) toolMap) as [tool|].
  2:{ destruct (awaits_handler attempt); [eapply IH; exact H|].
      destruct (stream_error attempt); [eapply IH; exact H|].
      inversion H as [[Hf Hm Hs]]. apply finish_round_shape in Hf as (-> & Hh & _).
      split; [|intros Hfalse; congruence].
      eexists _, _. split; [reflexivity|]. right.
      eexists _, _, _, _. split; [reflexivity|]. eexists _, _. reflexivity. }
  destruct (stream_error attempt && in_flight attempt); [eapply IH; exact H|].
  destruct (run_tool callback tool toolCall _) as [toolResultMessage st2] eqn:R.
  apply run_tool_result in R.
  destruct (stream_error attempt); [eapply IH; exact H|].
  inversion H as [[Hf Hm Hs]]. apply finish_round_shape in Hf as (-> & Hh & _).
  split; [|intros Hfalse; congruence].
  eexists _, _. split; [reflexivity|]. right.
  eexists _, _, _, _. split; [reflexivity|]. exact R.
Qed.

Lemma executeSingleRound_shape fuel (this : ActionImpl W) callback messages params toolMap
      st round messages' st' :
  executeSingleRound fuel this callback messages params toolMap st
  = (Returned round, messages', st') ->
  round_shape (roundMessages round) /\
  (hasToolUse round = false -> Forall (fun m => blocks m = []) (roundMessages round)) /\
  Forall2 pruned_from messages messages'.
Proof.
  unfold executeSingleRound.
  destruct (make_params_copy params (defs st)) as [params_copy store]. intros H.
  destruct (round_loop_shape _ _ _ _ _ _ _ _ _ _ _ _ H) as (Hs & Hh).
  split; [exact Hs|]. split; [exact Hh|].
  apply round_loop_history in H as [->| ->].
  - clear. induction messages; constructor; [left; reflexivity|assumption].
  - apply pruned_from_history.
Qed.

(** ** Properties of the history that every step of [execute] keeps *)

Section Invariant.
Variable P : list Message -> Prop.
Hypothesis P_pruned : forall msgs msgs', Forall2 pruned_from msgs msgs' -> P msgs -> P msgs'.
Hypothesis P_round : forall msgs r, P msgs -> round_shape r -> P (msgs ++ r).
Hypothesis P_instruction :
  forall msgs text, P msgs -> P (msgs ++ [mkMessage user (CStr text)]).

Lemma finish_only_round_invariant fuel (this : ActionImpl W) callback returnTool params
      roundCount instruction messages st history st' :
  finish_only_round fuel this callback returnTool params roundCount instruction
    messages st = (Returned history, st') ->
  P messages -> P history.
Proof using Type*.
  unfold finish_only_round, alloc_definitions. cbv beta iota zeta.
  destruct (executeSingleRound _ _ _ _ _ _ _) as [[o messages1] st1] eqn:E.
  intros H HP. destruct o as [final|e|]; inversion H; subst.
  apply executeSingleRound_shape in E as (Hs & _ & Hp).
  apply P_round; [|exact Hs]. eapply P_pruned; [exact Hp|].
  apply P_instruction. exact HP.
Qed.

Lemma execute_loop_invariant budget fuel (this : ActionImpl W) callback returnTool params
      toolMap n messages st history st' :
  execute_loop budget fuel this callback returnTool params toolMap n messages st
  = (Returned history, st') ->
  P messages -> P history.
Proof using Type*.
  revert n messages st.
  induction budget as [|budget IH]; intros n messages st H HP; cbn [execute_loop] in H.
  { inversion H; subst. exact HP. }
  destruct (negb (Nat.ltb n (maxRounds this))); [inversion H; subst; exact HP|].
  destruct (aborted st); [inversion H|].
  destruct (executeSingleRound _ _ _ _ _ _ _) as [[o messages1] st1] eqn:E.
  destruct o as [round|e|]; [|inversion H|inversion H].
  apply executeSingleRound_shape in E as (Hs & _ & Hp).
  assert (HP1 : P (messages1 ++ roundMessages round)).
  { apply P_round; [|exact Hs]. eapply P_pruned; [exact Hp|exact HP]. }
  destruct (negb (hasToolUse round) && bool_decide (is_Some (response round))).
  { eapply finish_only_round_invariant; [exact H|exact HP1]. }
  destruct (calls_return_output (response round)); [inversion H; subst; exact HP1|].
  destruct (Nat.eqb (S n) (maxRounds this)).
  - destruct (finish_only_round _ _ _ _ _ _ _ _ _) as [o2 st2] eqn:F.
    destruct o2 as [messages2|e|]; [|inversion H|inversion H].
    eapply IH; [exact H|]. eapply finish_only_round_invariant; [exact F|exact HP1].
  - eapply IH; [exact H|exact HP1].
Qed.

Lemma execute_invariant fuel (this : ActionImpl W) callback context_tools
      systemPrompt userPrompt outputDescription outputSchema st value history st' :
  execute fuel this callback context_tools systemPrompt userPrompt outputDescription
    outputSchema st = (Returned (value, history), st') ->
  P [mkMessage system (CStr systemPrompt); mkMessage user (CStr userPrompt)] ->
  P history.
Proof using Type*.
  unfold execute, alloc_definitions. cbv beta iota zeta.
  destruct (query_tabs st) as [[e|u] st0]; [discriminate|].
  destruct (execute_loop _ _ _ _ _ _ _ _ _ _) as [o st1] eqn:E. intros H HP.
  destruct o as [messages|e|]; [|inversion H|inversion H].
  pose proof (finalize_steps this messages st1) as F. cbv zeta in F.
  destruct (finalize this messages st1) as [[v msgs] st2].
  destruct F as (_ & Hsnd & _). simpl in Hsnd. inversion H; subst.
  eapply execute_loop_invariant; [exact E|exact HP].
Qed.

End Invariant.

(** X15. The messages of a round that returns are the assistant's
    text, if there is any, followed by nothing or by one invocation
    and, right after it, the result with the id of that invocation:
    whether the tool returned, threw, was skipped or does not exist.
    A round without an invocation holds no block at all. *)
Theorem returned_round_pairs_invocation_with_result
  fuel (this : ActionImpl W) callback messages params toolMap st round messages' st' :
  executeSingleRound fuel this callback messages params toolMap st
  = (Returned round, messages', st') ->
  round_shape (roundMessages round) /\
  (hasToolUse round = false -> Forall (fun m => blocks m = []) (roundMessages round)) /\
  length (roundMessages round) <= 3.
Proof.
  intros H. apply executeSingleRound_shape in H as (Hs & Hh & _).
  split; [exact Hs|]. split; [exact Hh|].
  destruct Hs as (text & tail & -> & Ht). rewrite length_app.
  assert (length (if String.eqb text "" then [] else [mkMessage assistant (CStr text)]) <= 1)
    by (destruct (String.eqb text ""); simpl; lia).
  destruct Ht as [->|(id & name & input & result & -> & _)]; simpl; lia.
Qed.

(** X16. In the history that [execute] returns, invocations and
    results come in pairs: a [tool_use] block is the only block of an
    assistant message and the next message is the user's with the
    [tool_result] of the same id as its only block, and every
    [tool_result] block is preceded in this way by its invocation. The
    pruning of images does not break a pair. *)
Theorem returned_history_is_paired
  fuel (this : ActionImpl W) callback context_tools systemPrompt userPrompt
  outputDescription outputSchema st value history st' :
  execute fuel this callback context_tools systemPrompt userPrompt outputDescription
    outputSchema st = (Returned (value, history), st') ->
  paired history.
Proof.
  intros H. eapply (execute_invariant paired); [| | |exact H|].
  - exact paired_pruned.
  - intros msgs r Hp Hr. apply paired_app; [exact Hp|apply paired_round; exact Hr].
  - intros msgs text Hp. apply paired_app; [exact Hp|].
    apply paired_no_blocks. repeat constructor.
  - apply paired_no_blocks. repeat constructor.
Qed.

(** X17. The history that [execute] returns begins with the system
    prompt and the user prompt as they were built, and no later
    message has the role [system]. *)
Theorem returned_history_begins_with_the_prompts
  fuel (this : ActionImpl W) callback context_tools systemPrompt userPrompt
  outputDescription outputSchema st value history st' :
  execute fuel this callback context_tools systemPrompt userPrompt outputDescription
    outputSchema st = (Returned (value, history), st') ->
  exists rest,
    history = mkMessage system (CStr systemPrompt) :: mkMessage user (CStr userPrompt) :: rest
    /\ Forall (fun m => role m <> system) rest.
Proof.
  intros H.
  eapply (execute_invariant
            (fun msgs => exists rest,
                 msgs = mkMessage system (CStr systemPrompt)
                        :: mkMessage user (CStr userPrompt) :: rest
                 /\ Forall (fun m => role m <> system) rest)); [| | |exact H|].
  - intros msgs msgs' F (rest & -> & Hr).
    inversion F as [|a a' l l' Ha F1]; subst. inversion F1 as [|b b' k k' Hb F2]; subst.
    apply (pruned_from_string _ _ _ _ eq_refl) in Ha.
    apply (pruned_from_string _ _ _ _ eq_refl) in Hb. subst.
    exists k'. split; [reflexivity|].
    clear -F2 Hr. induction F2 as [|x y l k Hxy _ IH]; [constructor|].
    inversion Hr; subst. constructor; [|apply IH; assumption].
    rewrite (pruned_from_role _ _ Hxy). assumption.
  - intros msgs r (rest & -> & Hr) (text & tail & -> & Ht).
    eexists. split; [reflexivity|]. apply Forall_app_2; [exact Hr|].
    apply Forall_app_2.
    + destruct (String.eqb text ""); repeat constructor. discriminate.
    + destruct Ht as [->|(id & name & input & result & -> & c & e & ->)];
        repeat constructor; discriminate.
  - intros msgs text (rest & -> & Hr). eexists. split; [reflexivity|].
    apply Forall_app_2; [exact Hr|]. repeat constructor. discriminate.
  - exists []. split; [reflexivity|constructor].
Qed.

End Histories.

Lemma round_of_echo_is_paired :
  let run := executeSingleRound 2 (demo 3) None [] no_tools demo_registry
               (start [stream_of (invoke "1" "echo" (VStr "A"))]) in
  let round := returned (mkRound None false []) (fst (fst run)) in
  round_shape (roundMessages round) /\
  (hasToolUse round = false -> Forall (fun m => blocks m = []) (roundMessages round)) /\
  length (roundMessages round) <= 3.
Proof.
  intros run round.
  apply (returned_round_pairs_invocation_with_result 2 (demo 3) None [] no_tools
           demo_registry (start [stream_of (invoke "1" "echo" (VStr "A"))])
           round (snd (fst run)) (snd run)).
  vm_compute. reflexivity.
Defined.

Lemma history_of_A_then_B_is_paired :
  paired (snd (returned (VUndefined, []) (fst (run_demo 3 script_A_then_B)))).
Proof.
  apply (returned_history_is_paired 5 (demo 3) None None "system prompt" "user prompt"
           "the answer" VUndefined (start script_A_then_B)
           (fst (returned (VUndefined, []) (fst (run_demo 3 script_A_then_B))))
           (snd (returned (VUndefined, []) (fst (run_demo 3 script_A_then_B))))
           (snd (run_demo 3 script_A_then_B))).
  vm_compute. reflexivity.
Defined.

Lemma history_of_text_only_begins_with_the_prompts :
  exists rest,
    snd (returned (VUndefined, []) (fst (run_demo 3 script_text_only)))
    = mkMessage system (CStr "system prompt") :: mkMessage user (CStr "user prompt") :: rest
    /\ Forall (fun m => role m <> system) rest.
Proof.
  apply (returned_history_begins_with_the_prompts 5 (demo 3) None None
           "system prompt" "user prompt" "the answer" VUndefined (start script_text_only)
           (fst (returned (VUndefined, []) (fst (run_demo 3 script_text_only))))
           (snd (returned (VUndefined, []) (fst (run_demo 3 script_text_only))))
           (snd (run_demo 3 script_text_only))).
  vm_compute. reflexivity.
Defined.

(** * The registry, the finish tool and the ends of a run *)

Lemma find_app_local {A : Type} (f : A -> bool) (a b : list A) :
  find f (a ++ b) = match find f a with
                    | Some x => Some x
                    | None => find f b
                    end.
Proof.
  induction a as [|x a IH]; simpl; [reflexivity|]. destruct (f x); [reflexivity|exact IH].
Qed.

Lemma set_keys_NoDup {V : Type} (k : string) (v : V) (m : JsMap.t V) :
  NoDup (JsMap.keys m) -> NoDup (JsMap.keys (JsMap.set k v m)).
Proof.
  intros Hnd. destruct (in_dec String.string_dec k (JsMap.keys m)) as [Hin|Hnin].
  - rewrite set_keys_present by exact Hin. exact Hnd.
  - rewrite set_fresh by exact Hnin. unfold JsMap.keys in *. rewrite map_app. simpl.
    apply NoDup_app. split; [exact Hnd|]. split.
    + intros x Hx Hx'. apply list_elem_of_In in Hx. apply list_elem_of_In in Hx'.
      destruct Hx' as [<-|[]]. exact (Hnin Hx).
    + apply NoDup_singleton.
Qed.

Lemma set_Forall {V : Type} (P : string * V -> Prop) (k : string) (v : V) (m : JsMap.t V) :
  P (k, v) -> Forall P m -> Forall P (JsMap.set k v m).
Proof.
  intros Hkv. induction 1 as [|[k' v'] m Hx Hm IH]; simpl.
  - repeat constructor. exact Hkv.
  - destruct (String.eqb k' k); constructor; assumption.
Qed.

Section Registry.
Context {W : Type}.
Implicit Types (st : State W).

Lemma get_fold_tools (l : list (Tool W)) (m0 : JsMap.t (Tool W)) (n : string) :
  JsMap.get n (fold_left (fun m tool => JsMap.set (tool_name tool) tool m) l m0)
  = match find_tool n (rev l) with
    | Some tool => Some tool
    | None => JsMap.get n m0
    end.
Proof.
  revert m0. induction l as [|t l IH]; intros m0; simpl; [reflexivity|].
  rewrite IH. unfold find_tool. rewrite find_app_local.
  destruct (find _ (rev l)); [reflexivity|]. simpl.
  destruct (String.eqb_spec (tool_name t) n) as [<-|Hne].
  - apply get_set_same.
  - apply get_set_other. exact Hne.
Qed.

Lemma fold_tools_invariant (l : list (Tool W)) (m0 : JsMap.t (Tool W)) :
  NoDup (JsMap.keys m0) ->
  Forall (fun kv : string * Tool W => fst kv = tool_name (snd kv)) m0 ->
  let m := fold_left (fun m tool => JsMap.set (tool_name tool) tool m) l m0 in
  NoDup (JsMap.keys m) /\
  Forall (fun kv : string * Tool W => fst kv = tool_name (snd kv)) m.
Proof.
  revert m0. induction l as [|t l IH]; intros m0 Hnd Hf; simpl; [split; assumption|].
  apply IH.
  - apply set_keys_NoDup. exact Hnd.
  - apply set_Forall; [reflexivity|exact Hf].
Qed.

Lemma build_toolMap_fold (this : ActionImpl W) context_tools (returnTool : Tool W) :
  build_toolMap this context_tools returnTool
  = fold_left (fun m tool => JsMap.set (tool_name tool) tool m)
      (tools this ++ default [] context_tools ++ [returnTool]) JsMap.empty.
Proof. unfold build_toolMap. rewrite !fold_left_app. reflexivity. Qed.

(** X18. The registry that [execute] builds from the action's tools,
    the context's tools and the finish tool, in this order: under a
    name it holds the tool registered last with that name, so a tool of
    the context replaces a tool of the action and nothing replaces the
    finish tool; no name is registered twice, every tool is registered
    under its own name, and every name of the three lists is a key. *)
Theorem registry_holds_the_last_tool_of_each_name
  (this : ActionImpl W) (context_tools : option (list (Tool W))) (returnTool : Tool W) :
  let all := tools this ++ default [] context_tools ++ [returnTool] in
  let toolMap := build_toolMap this context_tools returnTool in
  (forall n, JsMap.get n toolMap = find_tool n (rev all)) /\
  JsMap.get (tool_name returnTool) toolMap = Some returnTool /\
  NoDup (JsMap.keys toolMap) /\
  map tool_name (JsMap.values toolMap) = JsMap.keys toolMap /\
  (forall tool, In tool all -> In (tool_name tool) (JsMap.keys toolMap)).
Proof.
  intros all toolMap.
  assert (Hget : forall n, JsMap.get n toolMap = find_tool n (rev all)).
  { intros n. unfold toolMap. rewrite build_toolMap_fold, get_fold_tools.
    destruct (find_tool n _); reflexivity. }
  pose proof (fold_tools_invariant all JsMap.empty (NoDup_nil_2) (Forall_nil_2 _)) as Hi.
  cbv zeta in Hi. unfold all in Hi. rewrite <- build_toolMap_fold in Hi.
  fold toolMap in Hi. destruct Hi as (Hnd & Hf).
  split; [exact Hget|]. split; [|split; [exact Hnd|split]].
  - unfold toolMap, build_toolMap. apply get_set_same.
  - unfold JsMap.values, JsMap.keys. clear -Hf.
    induction Hf as [|[k v] m Hx _ IH]; simpl; [reflexivity|].
    simpl in Hx. rewrite IH, Hx. reflexivity.
  - intros tool Hin.
    destruct (JsMap.get (tool_name tool) toolMap) as [t|] eqn:E.
    + destruct (in_dec String.string_dec (tool_name tool) (JsMap.keys toolMap))
        as [H|H]; [exact H|].
      apply assoc_get_None_notin in H. unfold JsMap.get in E. congruence.
    + exfalso. rewrite Hget in E. unfold find_tool in E.
      apply in_rev in Hin. pose proof (find_none _ _ E tool Hin) as Hx.
      simpl in Hx. rewrite String.eqb_refl in Hx. discriminate.
Qed.

(** X19. An action built by the constructor, for a number of rounds
    given as a natural number, runs at least one round and by default
    100, and its registry holds the tool for writing to the context
    that the constructor appends, unless a tool of the context or the
    finish tool has the same name, and then that one is registered
    under the name. *)
Theorem constructed_action_has_rounds_and_write_context_tool
  (writeContextTool : Tool W) (actionName actionDescription : string)
  (action_tools : list (Tool W)) (provider : option (LLMProvider W)) (llmConfig : JsValue)
  (config_maxRounds : option nat) (context_tools : option (list (Tool W)))
  (returnTool : Tool W) :
  let this := new_ActionImpl writeContextTool actionName actionDescription action_tools
                provider llmConfig config_maxRounds in
  let toolMap := build_toolMap this context_tools returnTool in
  1 <= maxRounds this /\
  (config_maxRounds = None \/ config_maxRounds = Some 0 -> maxRounds this = 100) /\
  maxRounds (createPromptAction writeContextTool actionName actionDescription action_tools
               provider llmConfig) = 100 /\
  In (tool_name writeContextTool) (JsMap.keys toolMap) /\
  (find_tool (tool_name writeContextTool) (returnTool :: rev (default [] context_tools))
   = None ->
   JsMap.get (tool_name writeContextTool) toolMap = Some writeContextTool).
Proof.
  intros this toolMap.
  split; [destruct config_maxRounds as [[|n]|]; simpl; lia|].
  split; [intros [->| ->]; reflexivity|]. split; [reflexivity|].
  assert (Hget : forall n, JsMap.get n toolMap
                           = find_tool n (rev (tools this ++ default [] context_tools
                                                  ++ [returnTool]))).
  { intros n. unfold toolMap. rewrite build_toolMap_fold, get_fold_tools.
    destruct (find_tool n _); reflexivity. }
  split.
  - destruct (JsMap.get (tool_name writeContextTool) toolMap) as [t|] eqn:E.
    + destruct (in_dec String.string_dec (tool_name writeContextTool) (JsMap.keys toolMap))
        as [H|H]; [exact H|].
      apply assoc_get_None_notin in H. unfold JsMap.get in E. congruence.
    + exfalso. rewrite Hget in E. unfold find_tool in E.
      assert (Hin : In writeContextTool
                       (rev (tools this ++ default [] context_tools ++ [returnTool]))).
      { apply in_rev. rewrite rev_involutive. simpl. rewrite in_app_iff. left.
        rewrite in_app_iff. right. left. reflexivity. }
      pose proof (find_none _ _ E writeContextTool Hin) as Hx.
      simpl in Hx. rewrite String.eqb_refl in Hx. discriminate.
  - intros Hnone. rewrite Hget. simpl tools.
    rewrite !rev_app_distr. simpl rev at 1.
    unfold find_tool in *. simpl in Hnone. simpl.
    destruct (String.eqb (tool_name returnTool) (tool_name writeContextTool));
      [discriminate|].
    rewrite find_app_local, Hnone. simpl. rewrite String.eqb_refl. reflexivity.
Qed.

End Registry.

(** * The ends of a run *)

Section Ends.
Context {W : Type}.
Implicit Types (st : State W).

Lemma get_prop_truthy (params : JsValue) (k : string) :
  truthy params = true -> get_prop params k = inr (result_prop params k).
Proof. destruct params; try discriminate; reflexivity. Qed.

Lemma finalize_context (this : ActionImpl W) (messages : list Message) st :
  let key := outputKey (name this) in
  let payload := default VUndefined (variables (context st) !! key) in
  let st' := snd (finalize this messages st) in
  variables (context st')
  = (if truthy payload then delete key (variables (context st))
     else variables (context st)) /\
  __skip (context st') = __skip (context st) /\
  __abort (context st') = __abort (context st) /\
  signal (context st') = signal (context st) /\
  defs st' = defs st /\ toolResults st' = toolResults st /\ world st' = world st /\
  trace st' = trace st ++ [EvFinalize payload] /\
  snd (fst (finalize this messages st)) = messages.
Proof.
  intros key payload st'. unfold st', finalize. fold key. fold payload.
  destruct (truthy payload); cbn [negb].
  - destruct (is_undefined _); repeat split.
  - repeat split.
Qed.

Lemma finalize_value (this : ActionImpl W) (messages : list Message) st :
  let payload := default VUndefined (variables (context st) !! outputKey (name this)) in
  fst (fst (finalize this messages st))
  = if truthy payload then
      let outputValue :=
        if truthy (result_prop payload "use_tool_result")
        then default VUndefined (array_pop (JsMap.values (toolResults st)))
        else result_prop payload "value" in
      if is_undefined outputValue then VObj [] else outputValue
    else VObj [].
Proof.
  intros payload. unfold finalize. fold payload.
  destruct (truthy payload); cbn [negb]; [|reflexivity].
  cbn [toolResults with_context record]. cbv zeta.
  destruct (is_undefined _) eqn:E; reflexivity.
Qed.

Lemma return_execute_output (actionName : string) (params : JsValue)
      (ctx : ExecutionContext W) (w : W) :
  let ran := return_execute actionName params ctx w in
  variables (snd (fst ran)) !! outputKey actionName = Some params /\
  snd ran = w /\
  (truthy params = true ->
   fst (fst ran) = inr (VObj [("success", VBool true)]) /\
   variables (snd (fst ran))
   = <["__isSuccessful__" := result_prop params "isSuccessful"]>
       (<[outputKey actionName := params]> (variables ctx))).
Proof.
  pose proof (outputKey_not_isSuccessful actionName) as Hne.
  unfold return_execute. split; [|split].
  - destruct (get_prop params "isSuccessful"); simpl.
    + apply lookup_insert_eq.
    + rewrite lookup_insert_ne by congruence. apply lookup_insert_eq.
  - destruct (get_prop params "isSuccessful"); reflexivity.
  - intros T. rewrite (get_prop_truthy _ _ T). split; reflexivity.
Qed.

(** X20. What the finish tool stores is read once at the end of the
    run. For a truthy payload the run returns the last cached result
    when [use_tool_result] is truthy and otherwise the payload's
    [value], and the empty object in place of [undefined]; the payload
    key is deleted while [__isSuccessful__] stays, so that reading the
    output a second time gives the empty object. A falsy payload gives
    the empty object and stays in the store. *)
Theorem finish_tool_output_is_read_once
  (this : ActionImpl W) (params : JsValue) (messages : list Message) st :
  let ran := return_execute (name this) params (context st) (world st) in
  let st1 := with_world (snd ran) (with_context (snd (fst ran)) st) in
  let first := finalize this messages st1 in
  let second := finalize this messages (snd first) in
  if truthy params then
    fst (fst ran) = inr (VObj [("success", VBool true)]) /\
    fst (fst first)
    = (let outputValue :=
         if truthy (result_prop params "use_tool_result")
         then default VUndefined (array_pop (JsMap.values (toolResults st)))
         else result_prop params "value" in
       if is_undefined outputValue then VObj [] else outputValue) /\
    variables (context (snd first))
    = <["__isSuccessful__" := result_prop params "isSuccessful"]>
        (delete (outputKey (name this)) (variables (context st))) /\
    fst (fst second) = VObj []
  else
    fst (fst first) = VObj [] /\
    variables (context (snd first)) !! outputKey (name this) = Some params.
Proof.
  intros ran st1 first second.
  pose proof (outputKey_not_isSuccessful (name this)) as Hne.
  destruct (return_execute_output (name this) params (context st) (world st))
    as (Hout & _ & Ht). fold ran in Hout, Ht.
  pose proof (finalize_value this messages st1) as Hv.
  pose proof (finalize_context this messages st1) as (Hc & _).
  fold first in Hv, Hc. cbv zeta in Hv, Hc.
  change (variables (context st1)) with (variables (snd (fst ran))) in Hv, Hc.
  rewrite Hout in Hv, Hc. cbn [default] in Hv, Hc.
  change (id params) with params in Hv, Hc.
  destruct (truthy params) eqn:T.
  - destruct (Ht eq_refl) as (Hr & Hvars).
    split; [exact Hr|]. split; [exact Hv|].
    assert (Hfinal : variables (context (snd first))
                     = <["__isSuccessful__" := result_prop params "isSuccessful"]>
                         (delete (outputKey (name this)) (variables (context st)))).
    { rewrite Hc, Hvars. rewrite delete_insert_ne by exact Hne.
      rewrite delete_insert_eq. reflexivity. }
    split; [exact Hfinal|].
    unfold second. rewrite finalize_value. rewrite Hfinal.
    rewrite lookup_insert_ne by congruence. rewrite lookup_delete_eq. reflexivity.
  - split; [exact Hv|]. rewrite Hc. exact Hout.
Qed.


(** X21. With the signal aborted once the tabs have been queried,
    [execute] throws [Workflow cancelled] before any round: nothing
    has happened but the query. And [executeSingleRound], entered
    with the signal aborted, returns an empty round without calling
    the transport: the history, the context, the cache, the world and
    the steps are as before. *)
Theorem cancelled_run_does_nothing
  fuel (this : ActionImpl W) callback context_tools systemPrompt userPrompt
  outputDescription outputSchema messages params toolMap st st0 :
  aborted st0 = true ->
  (query_tabs st = (inr tt, st0) -> 0 < maxRounds this ->
   exists store,
     execute fuel this callback context_tools systemPrompt userPrompt outputDescription
       outputSchema st
     = (Threw (ThrowError "Workflow cancelled"), with_defs store st0)) /\
  (0 < fuel ->
   exists store,
     executeSingleRound fuel this callback messages params toolMap st0
     = (Returned (mkRound None false []), messages, with_defs store st0)).
Proof.
  intros Hab. split.
  - intros Hq Hmax. unfold execute, alloc_definitions. cbv beta iota zeta. rewrite Hq.
    destruct (maxRounds this) as [|n] eqn:E; [lia|].
    cbn [execute_loop]. rewrite E. cbn [Nat.ltb Nat.leb negb].
    change (aborted (with_defs ?s st0)) with (aborted st0). rewrite Hab.
    eexists. reflexivity.
  - intros Hfuel. unfold executeSingleRound.
    destruct (make_params_copy params (defs st0)) as [params_copy store].
    destruct fuel as [|fuel]; [lia|]. simpl.
    change (aborted (with_defs store st0)) with (aborted st0). rewrite Hab.
    eexists. reflexivity.
Qed.

(** X22. An action without a provider, once the tabs have been
    queried, throws [LLM provider not set] in its first round: the
    round is entered, nothing is sent, and the context, the cache and
    the world are as the query left them. *)
Theorem run_without_provider_throws_in_round_one
  fuel (this : ActionImpl W) callback context_tools systemPrompt userPrompt
  outputDescription outputSchema st st0 :
  llmProvider this = None ->
  query_tabs st = (inr tt, st0) ->
  aborted st0 = false ->
  0 < maxRounds this -> 0 < fuel ->
  exists st' offered registry,
    execute fuel this callback context_tools systemPrompt userPrompt outputDescription
      outputSchema st
    = (Threw (ThrowError "LLM provider not set"), st') /\
    trace st' = trace st ++ [EvRound Regular 1 offered registry] /\
    world st' = world st0 /\ toolResults st' = toolResults st /\
    context st' = context st0.
Proof.
  intros Hp Hq Hab Hmax Hfuel.
  pose proof (keeps_query_tabs _ _ _ Hq) as (_ & Hr & Ht).
  unfold execute, alloc_definitions. cbv beta iota zeta. rewrite Hq.
  destruct (maxRounds this) as [|n] eqn:E; [lia|].
  cbn [execute_loop]. rewrite E. cbn [Nat.ltb Nat.leb negb].
  change (aborted (with_defs ?s st0)) with (aborted st0). rewrite Hab.
  unfold executeSingleRound.
  destruct (make_params_copy _ _) as [params_copy store].
  destruct fuel as [|fuel]; [lia|]. simpl.
  match goal with |- context [aborted ?s] => change (aborted s) with (aborted st0) end.
  rewrite Hab, Hp. eexists _, _, _. split; [reflexivity|]. simpl.
  rewrite Ht, Hr. repeat split.
Qed.

(** X23. When the [beforeToolUse] hook returns with [__skip] or
    [__abort] set, or with the signal aborted, the tool is not
    executed: the result of the invocation is the text [skip], the
    world is the one the hook left, and nothing is cached or logged. *)
Theorem skipped_invocation_does_not_run_the_tool
  (hooks : Hooks W) hook (tool : Tool W) (toolCall : ToolCall) st modified ctx1 w1 :
  beforeToolUse hooks = Some hook ->
  hook tool (tc_input toolCall) (set_skip false (context st)) (world st)
  = (inr modified, ctx1, w1) ->
  __skip ctx1 || __abort ctx1 || signal_aborted ctx1 w1 = true ->
  exists st',
    run_tool (Some hooks) tool toolCall st = (skipMessage toolCall, st') /\
    world st' = w1 /\ toolResults st' = toolResults st /\ trace st' = trace st /\
    variables (context st') = variables ctx1.
Proof.
  intros Hh Hhook Hskip. unfold run_tool, tool_try, bind, update, run_beforeToolUse.
  rewrite Hh. unfold bind, await, ret, get_state. cbn [context world with_context].
  rewrite Hhook.
  set (st2 := abort_listener _).
  assert (Hc : __skip (context st2) || __abort (context st2) || aborted st2 = true).
  { unfold st2, abort_listener, aborted. cbn [context world with_world with_context].
    destruct (signal_aborted ctx1 w1) eqn:Es.
    - cbn [context world with_context set_abort __skip __abort].
      destruct (__skip ctx1); reflexivity.
    - cbn [context world with_world with_context]. rewrite Es.
      rewrite orb_false_r in *. exact Hskip. }
  rewrite Hc. exists st2. split; [reflexivity|].
  clear Hc. unfold st2, abort_listener. destruct (aborted _); repeat split.
Qed.

Lemma replay_get (entries : list (string * JsValue)) (m : JsMap.t JsValue) k v :
  JsMap.get k (fold_left (fun acc kv => JsMap.set (fst kv) (snd kv) acc) entries m)
  = Some v ->
  JsMap.get k m = Some v \/ In (k, v) entries.
Proof.
  revert m. induction entries as [|[k' v'] entries IH]; intros m H; simpl in H.
  - left. exact H.
  - apply IH in H as [H|H]; [|right; right; exact H].
    destruct (String.eqb_spec k' k) as [->|Hne].
    + rewrite get_set_same in H. inversion H; subst. right. left. reflexivity.
    + rewrite get_set_other in H by exact Hne. left. exact H.
Qed.

Lemma execute_advances fuel (this : ActionImpl W) callback context_tools
      systemPrompt userPrompt outputDescription outputSchema st out st' :
  execute fuel this callback context_tools systemPrompt userPrompt outputDescription
    outputSchema st = (out, st') ->
  exists evs, trace st' = trace st ++ evs /\
              toolResults st' = replay evs (toolResults st) /\
              texts_are_strings evs.
Proof.
  unfold execute, alloc_definitions. cbv beta iota zeta.
  destruct (query_tabs st) as [[e|u] st0] eqn:Q;
    apply keeps_query_tabs in Q as (_ & Hr0 & Ht0).
  { intros H. inversion H; subst. exists []. rewrite app_nil_r.
    split; [exact Ht0|]. split; [exact Hr0|constructor]. }
  destruct (execute_loop _ _ _ _ _ _ _ _ _ _) as [o st1] eqn:E. intros H.
  apply execute_loop_steps in E as (evs & Ha & _).
  assert (Ha' : advances evs st st1).
  { destruct Ha as (T & R & S). simpl in T, R. rewrite Ht0 in T. rewrite Hr0 in R.
    repeat split; assumption. }
  clear Ha. rename Ha' into Ha.
  destruct o as [messages|e|].
  - pose proof (finalize_steps this messages st1) as F. cbv zeta in F.
    destruct (finalize this messages st1) as [result st2]. destruct F as (Hf & _).
    inversion H; subst.
    destruct (advances_trans _ _ _ _ _ Ha Hf) as (T & R & S).
    eexists. split; [exact T|]. split; [exact R|exact S].
  - inversion H; subst. destruct Ha as (T & R & S).
    exists evs. split; [exact T|]. split; [exact R|exact S].
  - inversion H; subst. destruct Ha as (T & R & S).
    exists evs. split; [exact T|]. split; [exact R|exact S].
Qed.

(** X24. A run never removes or reorders an entry of the cache of
    tool results: the keys before the run are a prefix of the keys
    after it, an entry the run wrote holds a string, and no key is held
    twice. *)
Theorem cache_only_grows
  fuel (this : ActionImpl W) callback context_tools systemPrompt userPrompt
  outputDescription outputSchema st out st' :
  execute fuel this callback context_tools systemPrompt userPrompt outputDescription
    outputSchema st = (out, st') ->
  (exists added, JsMap.keys (toolResults st') = JsMap.keys (toolResults st) ++ added) /\
  (forall k v, JsMap.get k (toolResults st') = Some v ->
               JsMap.get k (toolResults st) = Some v \/ exists s, v = VStr s) /\
  (NoDup (JsMap.keys (toolResults st)) -> NoDup (JsMap.keys (toolResults st'))).
Proof.
  intros H. apply execute_advances in H as (evs & _ & R & S). rewrite R. unfold replay.
  split; [apply keys_fold_set_prefix|]. split.
  - intros k v Hg. apply replay_get in Hg as [Hg|Hin]; [left; exact Hg|right].
    unfold texts_are_strings in S.
    exact (proj1 (List.Forall_forall _ _) S (k, v) Hin).
  - generalize (toolResults st). clear. induction (cached evs) as [|[k v] l IH]; intros m Hnd.
    + exact Hnd.
    + simpl. apply IH. apply set_keys_NoDup. exact Hnd.
Qed.

(** X25. The finish tool invoked with an object that lacks the
    [toolCall] field of the envelope, for instance with the payload
    itself, is executed with [undefined]: the invocation is answered
    by an error result, [undefined] is stored under the payload key,
    and the run returns the empty object. *)
Theorem finish_tool_without_envelope_reports_an_error
  (this : ActionImpl W) (outputDescription : string) (outputSchema : JsValue)
  (id : string) (fields : list (string * JsValue)) (messages : list Message) st :
  assoc_get "toolCall" fields = None ->
  __abort (context st) = false -> aborted st = false ->
  let run := run_tool None (createReturnTool (name this) outputDescription outputSchema)
               (mkToolCall id "return_output" (VObj fields)) st in
  fst run
  = errorResult id
      (ThrowError "Cannot read properties of undefined (reading 'isSuccessful')") /\
  variables (context (snd run)) !! outputKey (name this) = Some VUndefined /\
  fst (fst (finalize this messages (snd run))) = VObj [].
Proof.
  intros Hf Hab Hsig run.
  assert (E : run = (errorResult id
      (ThrowError "Cannot read properties of undefined (reading 'isSuccessful')"),
      with_context (set_variables (<[outputKey (name this) := VUndefined]>
                                     (variables (context st)))
                      (set_skip false (context st))) st)).
  { unfold run, run_tool, tool_try, bind, update, run_beforeToolUse, ret, get_state.
    cbn [context with_context __skip __abort set_skip].
    rewrite Hab.
    change (aborted (with_context (set_skip false (context st)) st)) with (aborted st).
    rewrite Hsig. cbn [orb].
    unfold of_result, unwrapToolCall. cbn [tc_input get_prop and_then].
    rewrite Hf. cbn [default].
    unfold notify_thinking, notify_userSidePrompt.
    destruct (truthy _); destruct (truthy _); unfold ret, await;
      cbn [u_toolCall tc_input tool_execute createReturnTool return_execute get_prop
           context world with_context with_world];
      unfold abort_listener;
      match goal with |- context [aborted ?s] => change (aborted s) with (aborted st) end;
      rewrite Hsig; reflexivity. }
  rewrite E. cbn [fst snd]. split; [reflexivity|]. split.
  - cbn [context with_context variables set_variables]. apply lookup_insert_eq.
  - rewrite finalize_value.
    cbn [context with_context variables set_variables]. rewrite lookup_insert_eq.
    reflexivity.
Qed.



(** ** How often the transport is asked *)

Lemma count_no_stream (evs : list Event) :
  Forall (fun e => is_stream e = false) evs -> count is_stream evs = 0.
Proof.
  unfold count. induction 1 as [|e evs He _ IH]; simpl; [reflexivity|].
  rewrite He. exact IH.
Qed.

Lemma run_tool_no_stream callback (tool : Tool W) (toolCall : ToolCall) st :
  exists evs,
    trace (snd (run_tool callback tool toolCall st)) = trace st ++ evs /\
    Forall (fun e => is_stream e = false) evs.
Proof.
  unfold run_tool. destruct (tool_try callback tool toolCall st) as [r st1] eqn:E.
  assert (Hst : snd (match r with
                     | inl err => (errorResult (tc_id toolCall) err, st1)
                     | inr toolResultMessage => (toolResultMessage, st1)
                     end) = st1) by (destruct r; reflexivity).
  rewrite Hst. clear Hst.
  apply tool_try_spec in E as (_ & [(_ & Ht & _)|(result & logged & _ & _ & Hc)]).
  - exists []. rewrite app_nil_r. split; [exact Ht|constructor].
  - destruct (String.eqb (tool_name tool) "return_output"); destruct Hc as (_ & Ht);
      eexists; (split; [exact Ht|repeat constructor]).
Qed.

Lemma settle_no_stream (which : list nat) st :
  exists evs,
    trace (settle which st) = trace st ++ evs /\
    Forall (fun e => is_stream e = false) evs.
Proof.
  unfold settle. revert st. induction which as [|i which IH]; intros st; simpl.
  - exists []. rewrite app_nil_r. split; [reflexivity|constructor].
  - destruct (IH (settle_one i st)) as (evs2 & T2 & F2).
    assert (H1 : exists evs1, trace (settle_one i st) = trace st ++ evs1 /\
                              Forall (fun e => is_stream e = false) evs1).
    { unfold settle_one.
      destruct (abandoned st !! i) as [[[callback tool] toolCall]|].
      - apply (run_tool_no_stream callback tool toolCall
                 (with_abandoned (delete i (abandoned st)) st)).
      - exists []. rewrite app_nil_r. split; [reflexivity|constructor]. }
    destruct H1 as (evs1 & T1 & F1). exists (evs1 ++ evs2).
    split; [rewrite T2, T1, <- app_assoc; reflexivity|].
    apply Forall_app. split; assumption.
Qed.

Lemma stream_state_one_stream (attempt : StreamAttempt) (w : W) st :
  exists evs,
    trace (stream_state attempt w st) = trace st ++ EvStream attempt :: evs /\
    Forall (fun e => is_stream e = false) evs.
Proof.
  unfold stream_state.
  destruct (settle_no_stream (settled_early attempt)
              (abort_listener (record (EvStream attempt) (with_world w st))))
    as (evs & T & F).
  exists evs. split; [|exact F]. rewrite T.
  unfold abort_listener. destruct (aborted _); simpl; rewrite <- app_assoc; reflexivity.
Qed.

(** Over a reliable transport a call of [executeSingleRound] asks the
    transport at most once. *)
Lemma round_loop_one_stream fuel (this : ActionImpl W) callback params_copy toolMap resp
      has messages st out messages' st' :
  (forall p, llmProvider this = Some p -> reliable p) ->
  round_loop fuel this callback params_copy toolMap resp has messages st
  = (out, messages', st') ->
  exists evs, trace st' = trace st ++ evs /\ count is_stream evs <= 1.
Proof.
  intros Hrel H.
  assert (Hnil : exists evs, trace st = trace st ++ evs /\ count is_stream evs <= 1).
  { exists []. rewrite app_nil_r. split; [reflexivity|unfold count; simpl; lia]. }
  destruct fuel as [|fuel]; simpl in H; [inversion H; subst; exact Hnil|].
  destruct (aborted st); [inversion H; subst; exact Hnil|].
  destruct (llmProvider this) as [provider|] eqn:Ep; [|inversion H; subst; exact Hnil].
  pose proof (Hrel provider eq_refl (handleHistoryImageMessages messages)
                (llm_settings params_copy) (resolve_tools params_copy (defs st))
                (world st)) as Hr.
  destruct (generateStream provider _ _ _ _) as [attempt w]. simpl in Hr.
  destruct Hr as (He & Ha). rewrite He in H. cbn [andb] in H.
  destruct (stream_state_one_stream attempt w st) as (evs1 & T1 & F1).
  assert (Hone : forall (s : State W) evs2,
             trace s = trace (stream_state attempt w st) ++ evs2 ->
             Forall (fun e => is_stream e = false) evs2 ->
             exists evs, trace s = trace st ++ evs /\ count is_stream evs <= 1).
  { intros s evs2 T2 F2. exists (EvStream attempt :: evs1 ++ evs2). split.
    - rewrite T2, T1, <- app_assoc. reflexivity.
    - change (S (count is_stream (evs1 ++ evs2)) <= 1).
      rewrite count_app, (count_no_stream _ F1), (count_no_stream _ F2). lia. }
  assert (Hhere : exists evs, trace (stream_state attempt w st) = trace st ++ evs /\
                              count is_stream evs <= 1).
  { apply (Hone _ []); [rewrite app_nil_r; reflexivity|constructor]. }
  destruct (invocation attempt) as [toolCall|]; [|inversion H; subst; exact Hhere].
  destruct (JsMap.get (tc_name toolCall) toolMap) as [tool|].
  2:{ rewrite Ha in H. inversion H; subst. exact Hhere. }
  destruct (run_tool_no_stream callback tool toolCall (stream_state attempt w st))
    as (evs2 & T2 & F2).
  destruct (run_tool callback tool toolCall _) as [toolResultMessage st2].
  simpl in T2.
  destruct (settle_no_stream (settled_late attempt) st2) as (evs3 & T3 & F3).
  inversion H; subst. apply (Hone _ (evs2 ++ evs3)).
  - rewrite T3, T2, <- app_assoc. reflexivity.
  - apply Forall_app. split; assumption.
Qed.

Lemma executeSingleRound_one_stream fuel (this : ActionImpl W) callback messages params
      toolMap st out messages' st' :
  (forall p, llmProvider this = Some p -> reliable p) ->
  executeSingleRound fuel this callback messages params toolMap st
  = (out, messages', st') ->
  exists evs, trace st' = trace st ++ evs /\ count is_stream evs <= 1.
Proof.
  intros Hrel. unfold executeSingleRound.
  destruct (make_params_copy params (defs st)) as [params_copy store]. intros H.
  exact (round_loop_one_stream _ _ _ _ _ _ _ _ _ _ _ _ Hrel H).
Qed.

Lemma finish_only_round_streams fuel (this : ActionImpl W) callback returnTool params
      roundCount instruction messages st out st' :
  (forall p, llmProvider this = Some p -> reliable p) ->
  finish_only_round fuel this callback returnTool params roundCount instruction
    messages st = (out, st') ->
  exists evs, trace st' = trace st ++ evs /\
              count is_stream evs <= count is_round evs.
Proof.
  intros Hrel. unfold finish_only_round, alloc_definitions. cbv beta iota zeta.
  destruct (executeSingleRound _ _ _ _ _ _ _) as [[o messages1] st1] eqn:E.
  apply (executeSingleRound_one_stream _ _ _ _ _ _ _ _ _ _ Hrel) in E
    as (evs & T & Hc).
  simpl in T. intros H.
  destruct o as [final|e|]; inversion H; subst.
  - eexists (_ :: _ :: evs ++ [EvCommit final]). split.
    + simpl. rewrite T, <- !app_assoc. reflexivity.
    + unfold count in *. simpl. rewrite !List.filter_app, !length_app. simpl. lia.
  - eexists (_ :: _ :: evs). split.
    + rewrite T, <- !app_assoc. reflexivity.
    + unfold count in *. simpl. lia.
  - eexists (_ :: _ :: evs). split.
    + rewrite T, <- !app_assoc. reflexivity.
    + unfold count in *. simpl. lia.
Qed.

Lemma execute_loop_streams budget fuel (this : ActionImpl W) callback returnTool params
      toolMap n messages st out st' :
  (forall p, llmProvider this = Some p -> reliable p) ->
  execute_loop budget fuel this callback returnTool params toolMap n messages st
  = (out, st') ->
  exists evs, trace st' = trace st ++ evs /\
              count is_stream evs <= count is_round evs.
Proof.
  intros Hrel. revert n messages st.
  assert (Hnil : forall s : State W,
             exists evs, trace s = trace s ++ evs /\
                         count is_stream evs <= count is_round evs).
  { intros s. exists []. rewrite app_nil_r. split; [reflexivity|unfold count; simpl; lia]. }
  assert (Hjoin : forall (s1 s2 s3 : State W) evs1 evs2,
             trace s2 = trace s1 ++ evs1 ->
             count is_stream evs1 <= count is_round evs1 ->
             trace s3 = trace s2 ++ evs2 ->
             count is_stream evs2 <= count is_round evs2 ->
             exists evs, trace s3 = trace s1 ++ evs /\
                         count is_stream evs <= count is_round evs).
  { intros s1 s2 s3 evs1 evs2 T1 C1 T2 C2. exists (evs1 ++ evs2).
    split; [rewrite T2, T1, <- app_assoc; reflexivity|]. rewrite !count_app. lia. }
  induction budget as [|budget IH]; intros n messages st H; cbn [execute_loop] in H.
  { inversion H; subst. apply Hnil. }
  destruct (negb (Nat.ltb n (maxRounds this))); [inversion H; subst; apply Hnil|].
  destruct (aborted st); [inversion H; subst; apply Hnil|].
  destruct (executeSingleRound _ _ _ _ _ _ _) as [[o messages1] st1] eqn:E.
  apply (executeSingleRound_one_stream _ _ _ _ _ _ _ _ _ _ Hrel) in E
    as (evs & T & Hc).
  simpl in T. rewrite <- app_assoc in T. simpl in T.
  assert (C1 : count is_stream (EvRound Regular (S n) (offered_names params st)
                                  (JsMap.keys toolMap) :: evs)
               <= count is_round (EvRound Regular (S n) (offered_names params st)
                                    (JsMap.keys toolMap) :: evs)).
  { unfold count in *. simpl. lia. }
  destruct o as [round|e|];
    [|inversion H; subst; eexists; split; [exact T|exact C1]..].
  set (st2 := record (EvCommit round) st1) in *.
  assert (T2 : trace st2 = trace st ++ (EvRound Regular (S n) (offered_names params st)
                                          (JsMap.keys toolMap) :: evs)
                           ++ [EvCommit round]).
  { unfold st2. simpl. rewrite T, <- app_assoc. reflexivity. }
  assert (C2 : count is_stream ((EvRound Regular (S n) (offered_names params st)
                                   (JsMap.keys toolMap) :: evs) ++ [EvCommit round])
               <= count is_round ((EvRound Regular (S n) (offered_names params st)
                                     (JsMap.keys toolMap) :: evs) ++ [EvCommit round])).
  { rewrite !count_app. unfold count in *. simpl in *. lia. }
  destruct (negb (hasToolUse round) && bool_decide (is_Some (response round))).
  { apply (finish_only_round_streams _ _ _ _ _ _ _ _ _ _ _ Hrel) in H
      as (evs3 & T3 & C3).
    exact (Hjoin _ _ _ _ _ T2 C2 T3 C3). }
  destruct (calls_return_output (response round)).
  { inversion H; subst. eexists. split; [exact T2|exact C2]. }
  destruct (Nat.eqb (S n) (maxRounds this)).
  - destruct (finish_only_round _ _ _ _ _ _ _ _ _) as [o2 st3] eqn:F.
    apply (finish_only_round_streams _ _ _ _ _ _ _ _ _ _ _ Hrel) in F
      as (evs3 & T3 & C3).
    destruct (Hjoin _ _ _ _ _ T2 C2 T3 C3) as (evs4 & T4 & C4).
    destruct o2 as [messages2|e|];
      [|inversion H; subst; eexists; split; [exact T4|exact C4]..].
    apply IH in H as (evs5 & T5 & C5). exact (Hjoin _ _ _ _ _ T4 C4 T5 C5).
  - apply IH in H as (evs5 & T5 & C5). exact (Hjoin _ _ _ _ _ T2 C2 T5 C5).
Qed.

(** X26. Over a transport that neither fails nor lets a rejection of
    the handler escape, no call of [executeSingleRound] asks the
    transport twice: among the steps of a run, whatever its outcome,
    the calls of [generateStream] are at most as many as the rounds. *)
Theorem reliable_transport_is_asked_once_per_round
  fuel (this : ActionImpl W) callback context_tools systemPrompt userPrompt
  outputDescription outputSchema st out st' :
  (forall p, llmProvider this = Some p -> reliable p) ->
  execute fuel this callback context_tools systemPrompt userPrompt outputDescription
    outputSchema st = (out, st') ->
  exists evs,
    trace st' = trace st ++ evs /\
    count is_stream evs <= count is_round evs.
Proof.
  intros Hrel H.
  { revert H. unfold execute, alloc_definitions. cbv beta iota zeta.
    destruct (query_tabs st) as [[e|u] st0] eqn:Q;
      apply keeps_query_tabs in Q as (_ & _ & Ht0).
    { intros H. inversion H; subst. exists []. rewrite app_nil_r.
      split; [exact Ht0|unfold count; simpl; lia]. }
    destruct (execute_loop _ _ _ _ _ _ _ _ _ _) as [o st1] eqn:E. intros H.
    apply (execute_loop_streams _ _ _ _ _ _ _ _ _ _ _ _ Hrel) in E as (evs & T & C).
    simpl in T. rewrite Ht0 in T.
    destruct o as [messages|e|];
      [|inversion H; subst; exists evs; split; assumption..].
    pose proof (finalize_steps this messages st1) as F. cbv zeta in F.
    destruct (finalize this messages st1) as [result st2].
    destruct F as ((T2 & _) & _). inversion H; subst.
    eexists (evs ++ [_]). split; [rewrite T2, T, <- app_assoc; reflexivity|].
    rewrite !count_app. unfold count in *. simpl. lia. }
Qed.

Lemma round_loop_failing fuel (this : ActionImpl W) callback params_copy toolMap resp has
      messages st provider :
  llmProvider this = Some provider -> always_failing provider ->
  signal (context st) = None -> abandoned st = [] ->
  fst (fst (round_loop fuel this callback params_copy toolMap resp has messages st))
  = Diverged.
Proof.
  intros Hp Hfail. revert resp has messages st.
  induction fuel as [|fuel IH]; intros resp has messages st Hsig Hnone; simpl;
    [reflexivity|].
  assert (Hab : forall s : State W, signal (context s) = None -> aborted s = false).
  { intros s Hs. unfold aborted, signal_aborted. rewrite Hs. reflexivity. }
  rewrite (Hab st Hsig), Hp.
  pose proof (Hfail (handleHistoryImageMessages messages)
                (llm_settings params_copy) (resolve_tools params_copy (defs st))
                (world st)) as Hr.
  destruct (generateStream provider _ _ _ _) as [attempt w]. simpl in Hr.
  destruct Hr as (He & Hi). rewrite Hi, He.
  assert (Hquiet : forall (which : list nat) (s : State W),
             abandoned s = [] -> settle which s = s).
  { unfold settle. induction which as [|i which IHw]; intros s Hs; simpl; [reflexivity|].
    assert (H1 : settle_one i s = s) by (unfold settle_one; rewrite Hs; reflexivity).
    rewrite H1. apply IHw. exact Hs. }
  unfold stream_state. rewrite Hquiet.
  - apply IH; unfold abort_listener; rewrite Hab by exact Hsig; assumption.
  - unfold abort_listener. rewrite Hab by exact Hsig. exact Hnone.
Qed.

(** X27. Over a transport every stream of which fails, without a
    signal to abort it and with no invocation in flight,
    [executeSingleRound] retries without end: for every observation
    budget it is still retrying; and so is the run, once the tabs
    have been queried. *)
Theorem failing_transport_is_retried_without_end
  fuel (this : ActionImpl W) callback context_tools systemPrompt userPrompt
  outputDescription outputSchema messages params toolMap st st0 provider :
  llmProvider this = Some provider -> always_failing provider ->
  signal (context st0) = None -> abandoned st0 = [] ->
  fst (fst (executeSingleRound fuel this callback messages params toolMap st0))
  = Diverged /\
  (query_tabs st = (inr tt, st0) -> 0 < maxRounds this ->
   fst (execute fuel this callback context_tools systemPrompt userPrompt
          outputDescription outputSchema st) = Diverged).
Proof.
  intros Hp Hfail Hsig Hnone.
  assert (Hround : forall messages params toolMap (s : State W),
             signal (context s) = None -> abandoned s = [] ->
             fst (fst (executeSingleRound fuel this callback messages params toolMap s))
             = Diverged).
  { intros m p t s Hs Hn. unfold executeSingleRound.
    destruct (make_params_copy p (defs s)) as [params_copy store].
    eapply round_loop_failing; [exact Hp|exact Hfail|exact Hs|exact Hn]. }
  split; [apply Hround; assumption|].
  intros Hq Hmax. unfold execute, alloc_definitions. cbv beta iota zeta. rewrite Hq.
  destruct (maxRounds this) as [|n] eqn:E; [lia|].
  cbn [execute_loop]. rewrite E. cbn [Nat.ltb Nat.leb negb].
  assert (Hab : aborted st0 = false).
  { unfold aborted, signal_aborted. rewrite Hsig. reflexivity. }
  match goal with |- context [aborted ?s] => change (aborted s) with (aborted st0) end.
  rewrite Hab.
  match goal with
  | |- context [executeSingleRound fuel this callback ?m ?p ?t ?s] =>
      pose proof (Hround m p t s Hsig Hnone) as H;
      destruct (executeSingleRound fuel this callback m p t s) as [[o m1] s1]
  end.
  simpl in H. subst o. reflexivity.
Qed.

(** X28. Before its first round [execute] awaits two calls of the
    browser proxy. Without a proxy it throws a [TypeError] at once;
    and whatever the query throws, [execute] throws, with no round
    entered and the cache, the context and the steps as they were. *)
Theorem run_throws_what_the_tab_query_throws
  fuel (this : ActionImpl W) callback context_tools systemPrompt userPrompt
  outputDescription outputSchema st :
  (chromeProxy (context st) = None ->
   execute fuel this callback context_tools systemPrompt userPrompt outputDescription
     outputSchema st
   = (Threw (ThrowError "Cannot read properties of undefined (reading 'windows')"), st))
  /\ (forall proxy e w,
         chromeProxy (context st) = Some proxy ->
         windows_getCurrent proxy (world st) = (inl e, w) ->
         execute fuel this callback context_tools systemPrompt userPrompt
           outputDescription outputSchema st
         = (Threw e, with_world w st))
  /\ (forall proxy currentWindow w e w',
         chromeProxy (context st) = Some proxy ->
         windows_getCurrent proxy (world st) = (inr currentWindow, w) ->
         tabs_query proxy (VObj [("windowId", result_prop currentWindow "id")]) w
         = (inl e, w') ->
         is_nullish currentWindow = false ->
         execute fuel this callback context_tools systemPrompt userPrompt
           outputDescription outputSchema st
         = (Threw e, with_world w' st))
  /\ (forall e st0,
         query_tabs st = (inl e, st0) ->
         execute fuel this callback context_tools systemPrompt userPrompt
           outputDescription outputSchema st
         = (Threw e, st0) /\
         trace st0 = trace st /\ toolResults st0 = toolResults st /\
         context st0 = context st).
Proof.
  split; [|split; [|split]].
  - intros Hc. unfold execute, query_tabs, bind, get_state. rewrite Hc. reflexivity.
  - intros proxy e w Hc Hg. unfold execute, query_tabs, bind, get_state, call.
    rewrite Hc, Hg. reflexivity.
  - intros proxy currentWindow w e w' Hc Hg Hq Hn.
    unfold execute, query_tabs, bind, get_state, call, of_result.
    rewrite Hc, Hg. cbn [world with_world].
    assert (Hid : get_prop currentWindow "id" = inr (result_prop currentWindow "id")).
    { destruct currentWindow; try discriminate; reflexivity. }
    rewrite Hid, Hq. reflexivity.
  - intros e st0 Hq. split; [unfold execute; rewrite Hq; reflexivity|].
    pose proof (keeps_query_tabs _ _ _ Hq) as (_ & Hr & Ht).
    split; [exact Ht|]. split; [exact Hr|].
    revert Hq. unfold query_tabs, bind, get_state, call, of_result, throw, ret.
    destruct (chromeProxy (context st)) as [proxy|]; [|intros H; inversion H; reflexivity].
    destruct (windows_getCurrent proxy (world st)) as [[e1|currentWindow] w];
      [intros H; inversion H; reflexivity|].
    cbn [world with_world].
    destruct (get_prop currentWindow "id") as [e2|windowId];
      [intros H; inversion H; reflexivity|].
    destruct (tabs_query proxy _ w) as [[e3|tabs] w'];
      intros H; inversion H; reflexivity.
Qed.

End Ends.

Lemma finish_tool_then_finalize_twice :
  let ran := return_execute "demo" (finish_payload false (VStr "v")) fresh_context
               ([] : Script) in
  variables (snd (fst ran)) !! outputKey "demo" = Some (finish_payload false (VStr "v")) /\
  fst (fst (finalize (demo 3) []
              (with_world (snd ran) (with_context (snd (fst ran)) (start [])))))
  = VStr "v".
Proof.
  intros ran.
  pose proof (finish_tool_output_is_read_once (demo 3) (finish_payload false (VStr "v"))
                [] (start [])) as H.
  cbv zeta in H. split; [reflexivity|]. destruct H as (_ & H & _). exact H.
Defined.

Lemma cancelled_demo_does_nothing :
  (query_tabs (cancelled_start []) = (inr tt, cancelled_start []) ->
   0 < maxRounds (demo 3) ->
   exists store,
     execute 2 (demo 3) None None "system prompt" "user prompt" "the answer" VUndefined
       (cancelled_start [])
     = (Threw (ThrowError "Workflow cancelled"), with_defs store (cancelled_start []))) /\
  (0 < 2 ->
   exists store,
     executeSingleRound 2 (demo 3) None [] no_tools demo_registry (cancelled_start [])
     = (Returned (mkRound None false []), [], with_defs store (cancelled_start []))).
Proof.
  apply (cancelled_run_does_nothing 2 (demo 3) None None "system prompt" "user prompt"
           "the answer" VUndefined [] no_tools demo_registry (cancelled_start [])
           (cancelled_start [])).
  reflexivity.
Defined.

Lemma demo_without_provider_throws :
  exists st' offered registry,
    execute 2 demo_without_provider None None "system prompt" "user prompt" "the answer"
      VUndefined (start [])
    = (Threw (ThrowError "LLM provider not set"), st') /\
    trace st' = trace (start []) ++ [EvRound Regular 1 offered registry] /\
    world st' = world (start []) /\ toolResults st' = toolResults (start []) /\
    context st' = context (start []).
Proof.
  apply (run_without_provider_throws_in_round_one 2 demo_without_provider None None
           "system prompt" "user prompt" "the answer" VUndefined (start []) (start []));
    [reflexivity|reflexivity|reflexivity|simpl; lia|lia].
Defined.

Lemma skipped_echo_is_not_run :
  exists st',
    run_tool (Some skipping_hooks) echo (invoke "1" "echo" (VStr "A")) (start [])
    = (skipMessage (invoke "1" "echo" (VStr "A")), st') /\
    world st' = [] /\ toolResults st' = toolResults (start []) /\
    trace st' = trace (start []) /\
    variables (context st') = variables (set_skip true (set_skip false fresh_context)).
Proof.
  apply (skipped_invocation_does_not_run_the_tool skipping_hooks
           (fun _ _ ctx w => (inr VUndefined, set_skip true ctx, w))
           echo (invoke "1" "echo" (VStr "A")) (start []) VUndefined
           (set_skip true (set_skip false fresh_context)) []);
    reflexivity.
Defined.

Lemma cache_of_A_then_B_only_grows :
  let run := run_demo 3 script_A_then_B in
  (exists added,
      JsMap.keys (toolResults (snd run))
      = JsMap.keys (toolResults (start script_A_then_B)) ++ added) /\
  (forall k v, JsMap.get k (toolResults (snd run)) = Some v ->
               JsMap.get k (toolResults (start script_A_then_B)) = Some v \/
               exists s, v = VStr s) /\
  (NoDup (JsMap.keys (toolResults (start script_A_then_B))) ->
   NoDup (JsMap.keys (toolResults (snd run)))).
Proof.
  intros run.
  apply (cache_only_grows 5 (demo 3) None None "system prompt" "user prompt"
           "the answer" VUndefined (start script_A_then_B) (fst run) (snd run)).
  vm_compute. reflexivity.
Defined.

Lemma bare_finish_call_reports_an_error :
  let run := run_tool None (createReturnTool "demo" "the answer" VUndefined)
               bare_finish_call (start []) in
  fst run
  = errorResult "9"
      (ThrowError "Cannot read properties of undefined (reading 'isSuccessful')") /\
  variables (context (snd run)) !! outputKey "demo" = Some VUndefined /\
  fst (fst (finalize (demo 3) [] (snd run))) = VObj [].
Proof.
  apply (finish_tool_without_envelope_reports_an_error (demo 3) "the answer" VUndefined
           "9" [("isSuccessful", VBool true); ("use_tool_result", VBool false);
                ("value", VStr "v")] [] (start []));
    reflexivity.
Defined.

Lemma steady_demo_asks_once_per_round :
  let run := execute 3 (demo_with steady) None None "system prompt" "user prompt"
               "the answer" VUndefined (start []) in
  exists evs,
    trace (snd run) = trace (start []) ++ evs /\
    count is_stream evs <= count is_round evs.
Proof.
  intros run.
  apply (reliable_transport_is_asked_once_per_round 3 (demo_with steady) None None
           "system prompt" "user prompt" "the answer" VUndefined (start [])
           (fst run) (snd run)).
  - intros p Hp. inversion Hp; subst. intros messages settings offered w.
    split; reflexivity.
  - vm_compute. reflexivity.
Defined.

Lemma failing_demo_is_still_retrying :
  fst (fst (executeSingleRound 50 (demo_with failing) None [] no_tools demo_registry
              (start []))) = Diverged /\
  (query_tabs (start []) = (inr tt, start []) ->
   0 < maxRounds (demo_with failing) ->
   fst (execute 50 (demo_with failing) None None "system prompt" "user prompt"
          "the answer" VUndefined (start [])) = Diverged).
Proof.
  apply (failing_transport_is_retried_without_end 50 (demo_with failing) None None
           "system prompt" "user prompt" "the answer" VUndefined [] no_tools demo_registry
           (start []) (start []) failing).
  - reflexivity.
  - intros messages settings offered w. split; reflexivity.
  - reflexivity.
  - reflexivity.
Defined.

Lemma run_without_proxy_throws :
  execute 2 (demo 3) None None "system prompt" "user prompt" "the answer" VUndefined
    (mkState [] (mkContext ∅ false false None None) JsMap.empty ([] : Script) [] [])
  = (Threw (ThrowError "Cannot read properties of undefined (reading 'windows')"),
     mkState [] (mkContext ∅ false false None None) JsMap.empty ([] : Script) [] []).
Proof.
  apply (proj1 (run_throws_what_the_tab_query_throws 2 (demo 3) None None
                  "system prompt" "user prompt" "the answer" VUndefined
                  (mkState [] (mkContext ∅ false false None None) JsMap.empty
                     ([] : Script) [] []))).
  reflexivity.
Defined.
